(** * Landslide / debris-flow area detection: image normalisation and mask decoding

    A shallow embedding of the two scripts of the repository,
    [AdjustGray_Uetsu.py] (grey-level adjustment of test photographs to the
    statistics of a training corpus) and [EnsembleSeg.py] (decoding of the
    U-Net output into a black/white mask), together with the properties
    proved about them. *)

From Stdlib Require Import ZArith QArith Qround Qabs Lia Bool String Ascii List.
From Stdlib Require Import Floats.SpecFloat.
From stdpp Require Import base option list gmap strings sorting.

Open Scope Z_scope.

(** ** IEEE-754 binary formats used by NumPy

    NumPy's [float32] and [float64] are the binary32 and binary64 formats.
    Their arithmetic is the one of [SpecFloat], instantiated with the
    precision and the exponent bound of each format. *)

Inductive dtype := float32 | float64.

Definition prec_of (dt : dtype) : Z :=
  match dt with float32 => 24 | float64 => 53 end.

Definition emax_of (dt : dtype) : Z :=
  match dt with float32 => 128 | float64 => 1024 end.

Definition is_nan (v : spec_float) : bool :=
  match v with S754_nan => true | _ => false end.

Definition is_finite (v : spec_float) : bool :=
  match v with S754_zero _ | S754_finite _ _ _ => true | _ => false end.

(** Conversion of an integer to a format (exact when it is representable). *)
Definition SF_of_Z (dt : dtype) (z : Z) : spec_float :=
  binary_normalize (prec_of dt) (emax_of dt) z 0 false.

(** Conversion between formats, rounding to nearest even: what a C cast
    between [float] and [double] does. *)
Definition SFcast (dt : dtype) (v : spec_float) : spec_float :=
  match v with
  | S754_finite s m e => binary_round (prec_of dt) (emax_of dt) s m e
  | _ => v
  end.

Definition f_add dt := SFadd (prec_of dt) (emax_of dt).
Definition f_sub dt := SFsub (prec_of dt) (emax_of dt).
Definition f_mul dt := SFmul (prec_of dt) (emax_of dt).
Definition f_div dt := SFdiv (prec_of dt) (emax_of dt).
Definition f_sqrt dt := SFsqrt (prec_of dt) (emax_of dt).

(** The exact rational value of a finite float. *)
Definition SF2Q (v : spec_float) : Q :=
  match v with
  | S754_finite s m e =>
      let mag := match e with
                 | Zneg p => Z.pos m # (2 ^ p)
                 | _ => inject_Z (Z.pos m * 2 ^ e)
                 end in
      if s then Qopp mag else mag
  | _ => 0%Q
  end.

(** Truncation toward zero of a finite float, as a C conversion to an
    integer type performs it; [None] on NaN and on the infinities. *)
Definition SFtrunc (v : spec_float) : option Z :=
  match v with
  | S754_zero _ => Some 0
  | S754_finite s m e => Some (cond_Zopp s (Z.shiftl (Z.pos m) e))
  | _ => None
  end.

(** ** NumPy scalars and arrays *)

(** A Python [float] and a [numpy.float64] scalar hold the same binary64
    value but take part in type promotion differently. *)
Inductive scalar :=
  | PyFloat (v : spec_float)
  | NpFloat64 (v : spec_float).

Definition scalar_val (s : scalar) : spec_float :=
  match s with PyFloat v | NpFloat64 v => v end.

(** [a + b] for a scalar [a] and a Python float [b]: a binary64 addition
    that keeps the kind of [a]. *)
Definition scalar_add_py (a : scalar) (b : spec_float) : scalar :=
  match a with
  | PyFloat v => PyFloat (f_add float64 v b)
  | NpFloat64 v => NpFloat64 (f_add float64 v b)
  end.

(** The literal [1e-8]: the binary64 number nearest to 10^-8. *)
Definition eps_1e_8 : spec_float :=
  f_div float64 (SF_of_Z float64 1) (SF_of_Z float64 (10 ^ 8)).

(** NumPy's rule for the result type of [array op scalar]. It changed
    between NumPy 1 (value based) and NumPy 2 (NEP 50), so the operations
    below take it as an argument. *)
Definition promotion := dtype -> scalar -> dtype.

(** NumPy 2: a Python float adopts the array's type, a [numpy.float64]
    scalar forces [float64]. *)
Definition nep50 : promotion := fun dt s =>
  match dt, s with
  | float64, _ => float64
  | float32, PyFloat _ => float32
  | float32, NpFloat64 _ => float64
  end.

(** NumPy 1: a float scalar keeps a [float32] array in [float32] unless
    its value is finite and beyond 3.4e38 in magnitude. *)
Definition fits_float32 (v : spec_float) : bool :=
  match v with
  | S754_finite _ _ _ =>
      SFltb (SFopp (SF_of_Z float64 (34 * 10 ^ 37))) v
      && SFltb v (SF_of_Z float64 (34 * 10 ^ 37))
  | _ => true
  end.

Definition value_based : promotion := fun dt s =>
  match dt with
  | float64 => float64
  | float32 => if fits_float32 (scalar_val s) then float32 else float64
  end.

(** An 8-bit image: NumPy's [uint8] array, a shape and a flat row-major
    buffer of samples. *)
Record Image := { img_shape : list nat; img_data : list Z }.

(** A floating-point array. *)
Record farray := { fa_dtype : dtype; fa_shape : list nat; fa_data : list spec_float }.

(** [img.astype(np.float32)] *)
Definition astype_float32 (im : Image) : farray :=
  {| fa_dtype := float32; fa_shape := img_shape im;
     fa_data := map (SF_of_Z float32) (img_data im) |}.

(** [array op scalar]: both operands are converted to the result type and
    the operation is carried out in it, element by element. *)
Definition arr_scalar_op (op : dtype -> spec_float -> spec_float -> spec_float)
    (promote : promotion) (a : farray) (s : scalar) : farray :=
  let dt := promote (fa_dtype a) s in
  {| fa_dtype := dt; fa_shape := fa_shape a;
     fa_data := map (fun x => op dt (SFcast dt x) (SFcast dt (scalar_val s))) (fa_data a) |}.

Definition arr_sub := arr_scalar_op f_sub.
Definition arr_truediv := arr_scalar_op f_div.
Definition arr_mul := arr_scalar_op f_mul.
Definition arr_add := arr_scalar_op f_add.

(** [np.maximum] and [np.minimum] on floats: a NaN first operand is
    returned as it is, otherwise the comparison decides. *)
Definition np_maximum (a b : spec_float) : spec_float :=
  if is_nan a then a else if SFltb b a then a else b.

Definition np_minimum (a b : spec_float) : spec_float :=
  if is_nan a then a else if SFltb a b then a else b.

(** [np.clip(x, lo, hi)] on one element: [minimum(maximum(x, lo), hi)]. *)
Definition clip1 (dt : dtype) (lo hi : Z) (x : spec_float) : spec_float :=
  np_minimum (np_maximum x (SF_of_Z dt lo)) (SF_of_Z dt hi).

Definition np_clip (a : farray) (lo hi : Z) : farray :=
  {| fa_dtype := fa_dtype a; fa_shape := fa_shape a;
     fa_data := map (clip1 (fa_dtype a) lo hi) (fa_data a) |}.

(** Narrowing of one float to [uint8]: truncation toward zero. C leaves
    the conversion undefined outside the target range; the usual outcome
    is modelled, reduction modulo 256 and 0 for NaN and the infinities. *)
Definition uint8_of_float (v : spec_float) : Z :=
  match SFtrunc v with
  | Some z => z mod 256
  | None => 0
  end.

(** [a.astype(np.uint8)] *)
Definition astype_uint8 (a : farray) : Image :=
  {| img_shape := fa_shape a; img_data := map uint8_of_float (fa_data a) |}.

(** ** Exceptions, the world, and the monad of the scripts *)

Inductive exn :=
  | cv2_error        (* raised by OpenCV *)
  | OSError          (* raised by [open] *)
  | AttributeError   (* attribute access on [None] or on the empty tuple *)
  | IndexError       (* boolean index of the wrong shape *)
  | ValueError       (* value that cannot be broadcast *)
  | KerasError       (* raised while loading or running the model *)
  | InvalidArgumentError  (* raised by TensorFlow on an empty axis *)
  | ReferenceError.  (* a dangling array reference; never raised below *)

Inductive outcome (A : Type) :=
  | Returns (a : A)
  | Raises (e : exn).
Arguments Returns {A} a.
Arguments Raises {A} e.

(** The observable operations of a run, in the order they happen. *)
Inductive event :=
  | EvRead (path : string)        (* a file opened with 'rb' and read *)
  | EvWrite (path : string)       (* a file opened with 'wb' and filled *)
  | EvLoadModel (path : string)   (* [load_model] *)
  | EvPredict                     (* one call of [Model.predict] *)
  | EvPrintStats (m s : spec_float)
  | EvPrintPath (path : string).

(** Arrays live in a store and are named by references, so that copying
    and in-place assignment can be told apart. *)
Definition ref := nat.

Record world := World {
  files : gmap string (list Byte.byte);
  arrays : gmap ref Image;
  trace : list event
}.

Definition M (A : Type) : Type := world -> outcome A * world.

Definition ret {A} (a : A) : M A := fun w => (Returns a, w).

Definition bind {A B} (m : M A) (k : A -> M B) : M B := fun w =>
  match m w with
  | (Returns a, w') => k a w'
  | (Raises e, w') => (Raises e, w')
  end.

Definition raise {A} (e : exn) : M A := fun w => (Raises e, w).

(** An outcome computed without touching the world. *)
Definition lift {A} (o : outcome A) : M A := fun w => (o, w).

Definition log (e : event) : M unit := fun w =>
  (Returns tt, World (files w) (arrays w) (trace w ++ [e])).

Global Instance M_ret : MRet M := @ret.
Global Instance M_bind : MBind M := fun A B k m => bind m k.

(** [for x in l: body(x)] *)
Fixpoint for_each {A} (l : list A) (body : A -> M unit) : M unit :=
  match l with
  | [] => ret tt
  | x :: r => body x ;; for_each r body
  end.

(** [with open(Path, 'rb') as f: f.read()] *)
Definition read_file (Path : string) : M (list Byte.byte) := fun w =>
  match files w !! Path with
  | Some data => (Returns data, World (files w) (arrays w) (trace w ++ [EvRead Path]))
  | None => (Raises OSError, w)
  end.

(** [data.tofile(f)] on a file opened at [Path] for writing. *)
Definition ndarray_tofile (Path : string) (data : list Byte.byte) : M unit := fun w =>
  (Returns tt, World (<[Path := data]> (files w)) (arrays w) (trace w ++ [EvWrite Path])).

(** The array store. *)
Definition alloc (im : Image) : M ref := fun w =>
  let r := fresh (dom (arrays w)) in
  (Returns r, World (files w) (<[r := im]> (arrays w)) (trace w)).

Definition deref (r : ref) : M Image := fun w =>
  match arrays w !! r with
  | Some im => (Returns im, w)
  | None => (Raises ReferenceError, w)
  end.

(** [a.copy()] *)
Definition ndarray_copy (r : ref) : M ref :=
  im ← deref r; alloc im.

(** [a < t] for a Python integer [t]: the boolean mask, a new array. *)
Definition ndarray_lt (im : Image) (t : Z) : list bool :=
  map (fun x => x <? t) (img_data im).

(** [a[mask] = v]: assignment in place, through the reference. *)
Definition setitem_mask (r : ref) (mask : list bool) (v : Z) : M unit := fun w =>
  match arrays w !! r with
  | Some im =>
      let data := zip_with (fun (b : bool) x => if b then v else x) mask (img_data im) in
      (Returns tt,
       World (files w) (<[r := {| img_shape := img_shape im; img_data := data |}]> (arrays w))
             (trace w))
  | None => (Raises ReferenceError, w)
  end.

(** ** [os.path], POSIX flavour *)

Definition slash : ascii := "/"%char.
Definition dot : ascii := "."%char.

(** [s.rfind(c)] *)
Fixpoint rfind_from (c : ascii) (i : nat) (l : list ascii) (last : option nat) : option nat :=
  match l with
  | [] => last
  | x :: r => rfind_from c (S i) r (if Ascii.eqb x c then Some i else last)
  end.

Definition rfind (c : ascii) (l : list ascii) : option nat := rfind_from c 0%nat l None.

(** [os.path.basename(p)]: what follows the last slash. *)
Definition basename (p : string) : string :=
  let l := list_ascii_of_string p in
  match rfind slash l with
  | Some i => string_of_list_ascii (drop (S i) l)
  | None => p
  end.

(** [os.path.splitext(p)]: the extension starts at the last dot, provided
    the dot comes after the last slash and is preceded, within the file
    name, by a character that is not a dot. *)
Definition splitext (p : string) : string * string :=
  let l := list_ascii_of_string p in
  let filenameIndex := match rfind slash l with Some i => S i | None => 0%nat end in
  match rfind dot l with
  | Some dotIndex =>
      if existsb (fun c => negb (Ascii.eqb c dot))
           (take (dotIndex - filenameIndex) (drop filenameIndex l))
      then (string_of_list_ascii (take dotIndex l), string_of_list_ascii (drop dotIndex l))
      else (p, EmptyString)
  | None => (p, EmptyString)
  end.

(** [os.path.join(a, b)] *)
Definition path_join (a b : string) : string :=
  match list_ascii_of_string b with
  | c :: _ => if Ascii.eqb c slash then b else
      match last (list_ascii_of_string a) with
      | None => b
      | Some d => if Ascii.eqb d slash then String.append a b
                  else String.append a (String slash b)
      end
  | [] =>
      match last (list_ascii_of_string a) with
      | None => b
      | Some d => if Ascii.eqb d slash then a else String.append a (String slash EmptyString)
      end
  end.

(** ** NumPy reductions *)

(** [np.add.reduce] over a contiguous float64 array, as NumPy's
    [pairwise_sum] carries it out. Fewer than eight items are added from
    the left, starting from -0.0. Up to 128 items are added into eight
    running sums, item [i] going to sum [i mod 8]; the eight sums are
    added two by two, and what is left beyond the last multiple of eight
    is added from the left. Longer arrays are cut in two, the first part
    holding half of the items rounded down to a multiple of eight. *)
Definition sum_unrolled (l : list spec_float) : spec_float :=
  let n := length l in
  let m := (n - n mod 8)%nat in
  let r :=
    (fold_left
       (fun (st : list spec_float * nat) x =>
          (alter (fun a => f_add float64 a x) st.2 st.1, (S st.2 mod 8)%nat))
       (take (m - 8) (drop 8 l)) (take 8 l, 0%nat)).1 in
  let g i := nth i r (S754_zero true) in
  let res :=
    f_add float64
      (f_add float64 (f_add float64 (g 0%nat) (g 1%nat)) (f_add float64 (g 2%nat) (g 3%nat)))
      (f_add float64 (f_add float64 (g 4%nat) (g 5%nat)) (f_add float64 (g 6%nat) (g 7%nat))) in
  fold_left (f_add float64) (drop m l) res.

(** The recursion of [pairwise_sum] halves the array; its depth is
    bounded by a counter, for which the length of the array is enough. *)
Fixpoint pairwise_sum_upto (depth : nat) (l : list spec_float) : spec_float :=
  let n := length l in
  if (n <? 8)%nat then fold_left (f_add float64) l (S754_zero true)
  else if (n <=? 128)%nat then sum_unrolled l
  else
    match depth with
    | O => sum_unrolled l
    | S depth' =>
        let n2 := (n / 2 - (n / 2) mod 8)%nat in
        f_add float64 (pairwise_sum_upto depth' (take n2 l))
                      (pairwise_sum_upto depth' (drop n2 l))
    end.

Definition pairwise_sum (l : list spec_float) : spec_float :=
  pairwise_sum_upto (length l) l.

(** The sum of an array: the reduction starts from 0.0 when there is
    nothing to add, and from -0.0 otherwise. *)
Definition np_sum (l : list spec_float) : spec_float :=
  match l with
  | [] => S754_zero false
  | _ => f_add float64 (S754_zero true) (pairwise_sum l)
  end.

(** [np.mean(l)] for a list of Python floats: the sum divided by the
    number of items, in float64. No check is made on the count. *)
Definition np_mean (l : list spec_float) : spec_float :=
  f_div float64 (np_sum l) (SF_of_Z float64 (Z.of_nat (length l))).

(** ** The libraries the scripts call *)

Inductive imread_flag := IMREAD_GRAYSCALE | IMREAD_COLOR.

(** The class tensor of one image: rows of pixels of class scores. *)
Abbreviation tensor := (list (list (list spec_float))).

Class Libs := {
  (** NumPy's promotion rule *)
  np_promote : promotion;
  (** [glob.glob(pattern)] on the current files *)
  glob_glob : gmap string (list Byte.byte) -> string -> list string;
  (** whether [open(Path, 'wb')] succeeds: the directory of the path
      exists and the file may be created or emptied *)
  open_wb_ok : gmap string (list Byte.byte) -> string -> bool;
  (** [cv2.imdecode(buf, flag)]: raises, returns [None], or an image *)
  cv2_imdecode : list Byte.byte -> imread_flag -> outcome (option Image);
  (** [cv2.imencode(ext, img)]: raises, or returns its flag and the
      encoded bytes; when there are no bytes the Python value is the
      empty tuple, not an array *)
  cv2_imencode : string -> Image -> outcome (bool * list Byte.byte);
  (** [cv2.meanStdDev(img)] of a single-channel image, as float64 *)
  cv2_meanStdDev : Image -> outcome (spec_float * spec_float);
  (** [cv2.resize(img, (width, height), interpolation=cv2.INTER_NEAREST)] *)
  cv2_resize : Image -> nat -> nat -> outcome Image;
  (** the Keras model, [load_model] and [predict] on a batch of one image,
      giving the tensor of that image *)
  Model : Type;
  load_model : gmap string (list Byte.byte) -> string -> outcome Model;
  Model_predict : Model -> farray -> outcome tensor
}.

Definition glob `{Libs} (pattern : string) : M (list string) := fun w =>
  (Returns (glob_glob (files w) pattern), w).

(** [open(Path, mode='wb')]: raises [OSError], or creates the file, or
    empties it when it exists. *)
Definition open_wb `{Libs} (Path : string) : M unit := fun w =>
  if open_wb_ok (files w) Path
  then (Returns tt, World (<[Path := []]> (files w)) (arrays w) (trace w))
  else (Raises OSError, w).

(** ** AdjustGray_Uetsu.py *)

Module AdjustGray_Uetsu.
Section Script.
Context `{Libs}.

(** [ReadImg(Path)]: the value of [cv2.imdecode] is returned as it is. *)
Definition ReadImg (Path : string) : M (option Image) :=
  Data ← read_file Path;
  lift (cv2_imdecode Data IMREAD_GRAYSCALE).

(** [WriteImg(Path, ImgData)]: the image is encoded before the file is
    opened, and the flag of [cv2.imencode] is dropped. When the encoder
    gave no bytes, [encoded_img] is the empty tuple, which has no
    [tofile]: the file has been opened, hence created or emptied, when
    [AttributeError] is raised. *)
Definition WriteImg (Path : string) (ImgData : Image) : M unit :=
  let Ext := snd (splitext Path) in
  '(_, encoded_img) ← lift (cv2_imencode Ext ImgData);
  open_wb Path;;
  match encoded_img with
  | [] => raise AttributeError
  | _ => ndarray_tofile Path encoded_img
  end.

(** [CalcMeanStd(ImgPath)]; [cv2.meanStdDev] rejects [None]. *)
Definition CalcMeanStd (ImgPath : string) : M (spec_float * spec_float * Image) :=
  ImgData ← ReadImg ImgPath;
  match ImgData with
  | None => raise cv2_error
  | Some im =>
      '(Mean, Std) ← lift (cv2_meanStdDev im);
      mret (Mean, Std, im)
  end.

(** The loop of [GetImgMeanStd], appending to [MeanList] and [StdList]. *)
Fixpoint GetImgMeanStd_loop (paths : list string) (MeanList StdList : list spec_float)
    : M (list spec_float * list spec_float) :=
  match paths with
  | [] => mret (MeanList, StdList)
  | ImgPath :: rest =>
      '(Mean, Std, _) ← CalcMeanStd ImgPath;
      GetImgMeanStd_loop rest (MeanList ++ [Mean]) (StdList ++ [Std])
  end.

(** [GetImgMeanStd(ImgDir, ImageExtension)] *)
Definition GetImgMeanStd (ImgDir ImageExtension : string) : M (spec_float * spec_float) :=
  paths ← glob (path_join ImgDir (String "*" ImageExtension));
  '(MeanList, StdList) ← GetImgMeanStd_loop paths [] [];
  mret (np_mean MeanList, np_mean StdList).

(** The first three statements of [AdjustImage]: the array [TestImgData]
    as it stands before the final [astype]. *)
Definition AdjustImage_clipped (TestImgData : Image)
    (TestMean TestStd TrainMean TrainStd : scalar) : farray :=
  let TestImgData1 := astype_float32 TestImgData in
  let TestImgData2 :=
    arr_add np_promote
      (arr_mul np_promote
         (arr_truediv np_promote
            (arr_sub np_promote TestImgData1 TestMean)
            (scalar_add_py TestStd eps_1e_8))
         TrainStd)
      TrainMean in
  np_clip TestImgData2 0 255.

(** [AdjustImage(TestImgData, TestMean, TestStd, TrainMean, TrainStd)] *)
Definition AdjustImage (TestImgData : Image)
    (TestMean TestStd TrainMean TrainStd : scalar) : Image :=
  astype_uint8 (AdjustImage_clipped TestImgData TestMean TestStd TrainMean TrainStd).

(** [DrawBlackBasedThreshold(ImgData, Threshold)], on references. *)
Definition DrawBlackBasedThreshold (ImgData : ref) (Threshold : Z) : M ref :=
  Result ← ndarray_copy ImgData;
  ResultVal ← deref Result;
  setitem_mask Result (ndarray_lt ResultVal Threshold) 0;;
  mret Result.

(** The name under which [Adjust] writes the result for [TestImgPath]. *)
Definition OutputPath (OutputDir TestImgPath : string) : string :=
  let BaseFilename := fst (splitext (basename TestImgPath)) in
  path_join OutputDir (String.append BaseFilename ".png").

(** The body of the loop of [Adjust]. *)
Definition Adjust_body (TrainMean TrainStd : spec_float) (OutputDir : string)
    (Threshold : Z) (TestImgPath : string) : M unit :=
  '(TestMean, TestStd, TestImgData) ← CalcMeanStd TestImgPath;
  AdjImg ← alloc (AdjustImage TestImgData (PyFloat TestMean) (PyFloat TestStd)
                     (NpFloat64 TrainMean) (NpFloat64 TrainStd));
  AdjImg ← DrawBlackBasedThreshold AdjImg Threshold;
  AdjImgVal ← deref AdjImg;
  WriteImg (OutputPath OutputDir TestImgPath) AdjImgVal.

(** [Adjust(TrainImgDir, TestImgDir, ImageExtension, OutputDir, Threshold)] *)
Definition Adjust (TrainImgDir TestImgDir ImageExtension OutputDir : string)
    (Threshold : Z) : M unit :=
  '(TrainMean, TrainStd) ← GetImgMeanStd TrainImgDir ImageExtension;
  log (EvPrintStats TrainMean TrainStd);;
  TestImgPathList ← glob (path_join TestImgDir (String "*" ImageExtension));
  for_each TestImgPathList (Adjust_body TrainMean TrainStd OutputDir Threshold).

End Script.
End AdjustGray_Uetsu.

(** ** EnsembleSeg.py *)

(** The scan of [tf.argmax] along the class axis of one pixel: the best
    score seen so far and its index, replaced when a score is strictly
    larger. *)
Fixpoint argmax_from (best_i : nat) (best : spec_float) (i : nat) (l : list spec_float) : nat :=
  match l with
  | [] => best_i
  | x :: r => if SFltb best x then argmax_from i x (S i) r
              else argmax_from best_i best (S i) r
  end.

(** The lowest finite [float32], [-FLT_MAX]. *)
Definition lowest_float32 : spec_float := S754_finite true 16777215 104.

(** The scan starts, as Eigen's reducer does, from index 0 and the lowest
    finite value: a NaN is never larger and is passed over, and so is a
    score that does not exceed the lowest finite value. *)
Definition argmax_scan (l : list spec_float) : nat :=
  argmax_from 0%nat lowest_float32 0%nat l.

(** [tf.argmax] on the scores of one pixel, which are [float32]; an empty
    axis is rejected. *)
Definition argmax (l : list spec_float) : outcome nat :=
  match l with
  | [] => Raises InvalidArgumentError
  | _ => Returns (argmax_scan l)
  end.

(** A function that may raise, applied along a list: the first error
    ends it. *)
Fixpoint outcome_map {A B} (f : A -> outcome B) (l : list A) : outcome (list B) :=
  match l with
  | [] => Returns []
  | x :: r =>
      match f x with
      | Raises e => Raises e
      | Returns y =>
          match outcome_map f r with
          | Raises e => Raises e
          | Returns ys => Returns (y :: ys)
          end
      end
  end.

(** The order of [list.sort()] on strings. *)
Definition string_le (a b : string) : Prop := String.leb a b = true.

Global Instance string_le_dec : RelDecision string_le.
Proof. intros a b. unfold string_le. apply _. Defined.

Module EnsembleSeg.
Section Script.
Context `{Libs}.

(** [ReadImg(Path)], in colour. *)
Definition ReadImg (Path : string) : M (option Image) :=
  Data ← read_file Path;
  lift (cv2_imdecode Data IMREAD_COLOR).

(** [WriteImg(Path, ImgData)], as in the other script. *)
Definition WriteImg (Path : string) (ImgData : Image) : M unit :=
  let Ext := snd (splitext Path) in
  '(_, encoded_img) ← lift (cv2_imencode Ext ImgData);
  open_wb Path;;
  match encoded_img with
  | [] => raise AttributeError
  | _ => ndarray_tofile Path encoded_img
  end.

(** The loop of [Evaluation], appending to [LikelihoodList]. *)
Fixpoint Evaluation_loop (model : Model) (paths : list string) (ImgSize : nat * nat * nat)
    (LikelihoodList : list tensor) : M (list tensor) :=
  match paths with
  | [] => mret LikelihoodList
  | TestXPath :: rest =>
      log (EvPrintPath TestXPath);;
      ImgData ← ReadImg TestXPath;
      match ImgData with
      | None => raise cv2_error
      | Some im =>
          let '(h, w, _) := ImgSize in
          ImgData1 ← lift (cv2_resize im w h);
          let ImgData2 := arr_truediv np_promote (astype_float32 ImgData1)
                            (PyFloat (SF_of_Z float64 255)) in
          log EvPredict;;
          PredOneHot ← lift (Model_predict model ImgData2);
          Evaluation_loop model rest ImgSize (LikelihoodList ++ [PredOneHot])
      end
  end.

(** [Evaluation(ModelPath, TestImgPathList, ImgSize)]; [K.clear_session()]
    touches nothing of the world modelled here. *)
Definition Evaluation (ModelPath : string) (TestImgPathList : list string)
    (ImgSize : nat * nat * nat) : M (list tensor) :=
  log (EvLoadModel ModelPath);;
  fs ← (fun w => (Returns (files w), w));
  model ← lift (load_model fs ModelPath);
  Evaluation_loop model TestImgPathList ImgSize [].

(** [ConvertYtoSegImg(PredOneHot, ImgSize)]: the mask as rows of pixels of
    channel samples. [tf.argmax] comes first; then the boolean index must
    have the shape of the canvas and the three values must fit its
    channels. *)
Definition ConvertYtoSegImg (PredOneHot : tensor) (ImgSize : nat * nat * nat)
    : outcome (list (list (list Z))) :=
  let '(h, w, c) := ImgSize in
  match outcome_map (outcome_map argmax) PredOneHot with
  | Raises e => Raises e
  | Returns PredIdx =>
      let mask := map (map (fun i => Nat.eqb i 1)) PredIdx in
      let PredData := replicate h (replicate w (replicate c 255)) in
      if bool_decide (length mask = h ∧ Forall (fun row => length row = w) mask) then
        if bool_decide (c = 3%nat) then
          Returns (zip_with (zip_with (fun (b : bool) px => if b then [0; 0; 0] else px))
                     mask PredData)
        else Raises ValueError
      else Raises IndexError
  end.

(** The array holding rows of pixels. *)
Definition image_of_rows (rows : list (list (list Z))) (ImgSize : nat * nat * nat) : Image :=
  let '(h, w, c) := ImgSize in
  {| img_shape := [h; w; c]; img_data := concat (concat rows) |}.

(** The name under which [RunInf] writes the mask for [TestXPath]. *)
Definition OutputPath (OutputDir TestXPath : string) : string :=
  let BaseFilename := fst (splitext (basename TestXPath)) in
  path_join OutputDir (String.append BaseFilename "_Seg.jpg").

(** The body of the second loop of [RunInf]. *)
Definition RunInf_body (ImgSize : nat * nat * nat) (OutputDir : string)
    (item : string * tensor) : M unit :=
  let '(TestXPath, Likelihood) := item in
  ImgData ← ReadImg TestXPath;
  PredImg ← lift (ConvertYtoSegImg Likelihood ImgSize);
  match ImgData with
  | None => raise AttributeError
  | Some im =>
      PredImg1 ← lift (cv2_resize (image_of_rows PredImg ImgSize)
                         (nth 1 (img_shape im) 0%nat) (nth 0 (img_shape im) 0%nat));
      WriteImg (OutputPath OutputDir TestXPath) PredImg1
  end.

(** [RunInf(TestImgDir, ImageExtension, ModelPath, ImgSize, OutputDir)] *)
Definition RunInf (TestImgDir ImageExtension ModelPath : string)
    (ImgSize : nat * nat * nat) (OutputDir : string) : M unit :=
  TestImgPathList ← glob (path_join TestImgDir (String "*" ImageExtension));
  let TestImgPathList := merge_sort string_le TestImgPathList in
  AllLikelihoodList ← Evaluation ModelPath TestImgPathList ImgSize;
  for_each (zip TestImgPathList AllLikelihoodList) (RunInf_body ImgSize OutputDir).

End Script.
End EnsembleSeg.

(** ** A concrete instance of the libraries

    A small executable stand-in for the libraries, on which the scripts
    can be run: an uncompressed raster format (height, width, then the
    samples), the textbook mean and deviation, nearest-neighbour
    resampling, and a model that scores each pixel from its first
    channel. *)

Module Mock.

Definition Z_of_byte (b : Byte.byte) : Z := Z.of_N (Byte.to_N b).

Definition byte_of_Z (z : Z) : Byte.byte :=
  default Byte.x00 (Byte.of_N (Z.to_N (z mod 256))).

(** Patterns of the form [dir/*suffix]: the files of [dir] whose name ends
    with [suffix] and does not start with a dot. *)
Definition list_files (fs : gmap string (list Byte.byte)) (pattern : string) : list string :=
  let pat := list_ascii_of_string pattern in
  let i := match rfind slash pat with Some i => S i | None => 0%nat end in
  let dir := take i pat in
  let suf := drop 1 (drop i pat) in
  filter (fun p : string =>
            let l := list_ascii_of_string p in
            let name := drop i l in
            bool_decide (take i l = dir) && negb (bool_decide (slash ∈ name))
            && bool_decide (suf `suffix_of` name)
            && negb (bool_decide (head name = Some dot)))
         (map fst (map_to_list fs)).

Definition imdecode (buf : list Byte.byte) (flag : imread_flag) : outcome (option Image) :=
  match map Z_of_byte buf with
  | [] => Raises cv2_error
  | h :: w :: samples =>
      if bool_decide (length samples = (Z.to_nat h * Z.to_nat w)%nat ∧ 0 < h ∧ 0 < w) then
        match flag with
        | IMREAD_GRAYSCALE =>
            Returns (Some {| img_shape := [Z.to_nat h; Z.to_nat w]; img_data := samples |})
        | IMREAD_COLOR =>
            Returns (Some {| img_shape := [Z.to_nat h; Z.to_nat w; 3%nat];
                             img_data := concat (map (fun x => [x; x; x]) samples) |})
        end
      else Returns None
  | _ => Returns None
  end.

(** The encoder knows three extensions and raises on any other. An array
    of one dimension is a column; an empty image, or a number of channels
    other than 1, 3 and 4, makes it raise. JPEG has no room for a side
    above 65500: the encoder then reports failure and gives no bytes. *)
Definition encode_raster (ext : string) (h w c : nat) (data : list Z)
    : outcome (bool * list Byte.byte) :=
  if bool_decide (h = 0 ∨ w = 0 ∨ ¬ (c = 1 ∨ c = 3 ∨ c = 4))%nat then Raises cv2_error
  else if bool_decide (ext = ".jpg"%string ∧ (65500 < Z.of_nat h ∨ 65500 < Z.of_nat w))
  then Returns (false, [])
  else Returns (true, map byte_of_Z (Z.of_nat h :: Z.of_nat w :: data)).

Definition imencode (ext : string) (im : Image) : outcome (bool * list Byte.byte) :=
  if bool_decide (ext = ".png"%string ∨ ext = ".jpg"%string ∨ ext = ".bmp"%string) then
    match img_shape im with
    | [h] => encode_raster ext h 1 1 (img_data im)
    | [h; w] => encode_raster ext h w 1 (img_data im)
    | [h; w; c] => encode_raster ext h w c (img_data im)
    | _ => Raises cv2_error
    end
  else Raises cv2_error.

(** The directories that exist; a path without directory is in the
    current one. *)
Definition dirs : list string := ["train"; "test"; "out"]%string.

Definition can_open (fs : gmap string (list Byte.byte)) (path : string) : bool :=
  let l := list_ascii_of_string path in
  match rfind slash l with
  | Some i => bool_decide (string_of_list_ascii (take i l) ∈ dirs)
  | None => true
  end.

Definition meanStdDev (im : Image) : outcome (spec_float * spec_float) :=
  match img_data im with
  | [] => Raises cv2_error
  | data =>
      let s := SF_of_Z float64 (foldr Z.add 0 data) in
      let sq := SF_of_Z float64 (foldr Z.add 0 (map (fun x => x * x) data)) in
      let scale := f_div float64 (SF_of_Z float64 1)
                     (SF_of_Z float64 (Z.of_nat (length data))) in
      let mean := f_mul float64 s scale in
      let var := f_sub float64 (f_mul float64 sq scale) (f_mul float64 mean mean) in
      let var := if SFltb var (S754_zero false) then S754_zero false else var in
      Returns (mean, f_sqrt float64 var)
  end.

(** Nearest neighbour: the sample of row [y * h / h'] and column
    [x * w / w'], for every channel. *)
Definition resize (im : Image) (w' h' : nat) : outcome Image :=
  match img_shape im with
  | h :: w :: cs =>
      if bool_decide (0 < h ∧ 0 < w ∧ 0 < h' ∧ 0 < w')%nat then
        let c := foldr Nat.mul 1%nat cs in
        let pick (y x k : nat) :=
          default 0 (img_data im !! (((y * h / h') * w + (x * w / w')) * c + k)%nat) in
        Returns {| img_shape := h' :: w' :: cs;
                   img_data :=
                     concat (map (fun y => concat (map (fun x => map (pick y x) (seq 0 c))
                                                     (seq 0 w'))) (seq 0 h')) |}
      else Raises cv2_error
  | _ => Raises cv2_error
  end.

Definition load (fs : gmap string (list Byte.byte)) (path : string) : outcome unit :=
  match fs !! path with
  | Some _ => Returns tt
  | None => Raises OSError
  end.

(** The score of class 1 is the first channel, the score of class 0 its
    complement. *)
Definition predict (_ : unit) (a : farray) : outcome tensor :=
  match fa_shape a with
  | [h; w; c] =>
      let pixels := reshape (replicate (h * w) c) (fa_data a) in
      let score (px : list spec_float) :=
        let v := default (S754_zero false) (head px) in
        [f_sub float32 (SF_of_Z float32 1) v; v] in
      Returns (reshape (replicate h w) (map score pixels))
  | _ => Raises KerasError
  end.

Definition libs (promote : promotion) : Libs :=
  Build_Libs promote list_files can_open imdecode imencode meanStdDev resize unit load predict.

(** A directory of two training images and two test images, and a model
    file. *)
Definition fs0 : gmap string (list Byte.byte) :=
  list_to_map
    [("train/t1.png"%string, map byte_of_Z [2; 2; 100; 100; 100; 100]);
     ("train/t2.png"%string, map byte_of_Z [2; 2; 200; 200; 200; 200]);
     ("test/a.png"%string, map byte_of_Z [2; 2; 50; 50; 50; 50]);
     ("test/b.png"%string, map byte_of_Z [1; 2; 10; 250]);
     ("test/notes.txt"%string, map byte_of_Z [104; 105]);
     ("model.h5"%string, map byte_of_Z [1])].

Definition w0 : world := World fs0 ∅ [].

(** The same directory after a first run has left a mask in [out], and
    an image too wide for JPEG. *)
Definition fs1 : gmap string (list Byte.byte) :=
  <["out/wide_Seg.jpg"%string := map byte_of_Z [1; 2; 255; 0]]> fs0.

Definition w1 : world := World fs1 ∅ [].

Definition wide : Image :=
  {| img_shape := [1%nat; Z.to_nat 65501; 3%nat];
     img_data := replicate (Z.to_nat (3 * 65501)) 255 |}.

(** A directory of eight images of three samples each. *)
Definition fs8 : gmap string (list Byte.byte) :=
  list_to_map
    [("many/1.png"%string, map byte_of_Z [1; 3; 14; 14; 15]);
     ("many/2.png"%string, map byte_of_Z [1; 3; 31; 31; 31]);
     ("many/3.png"%string, map byte_of_Z [1; 3; 5; 6; 6]);
     ("many/4.png"%string, map byte_of_Z [1; 3; 42; 42; 43]);
     ("many/5.png"%string, map byte_of_Z [1; 3; 9; 9; 9]);
     ("many/6.png"%string, map byte_of_Z [1; 3; 21; 22; 22]);
     ("many/7.png"%string, map byte_of_Z [1; 3; 4; 4; 5]);
     ("many/8.png"%string, map byte_of_Z [1; 3; 55; 56; 56])].

Definition w8 : world := World fs8 ∅ [].

(** What [meanStdDev] gives for these eight images, in the order of the
    listing. *)
Definition measured8 : list (spec_float * spec_float) :=
  Eval vm_compute in
    omap (fun p : string =>
            match fs8 !! p with
            | Some data =>
                match imdecode data IMREAD_GRAYSCALE with
                | Returns (Some im) =>
                    match meanStdDev im with Returns ms => Some ms | Raises _ => None end
                | _ => None
                end
            | None => None
            end)
         (list_files fs8 "many/*.png").

(** A store holding one array of three samples. *)
Definition im3 : Image := {| img_shape := [3%nat]; img_data := [5; 128; 200] |}.
Definition w3 : world := World ∅ {[ 0%nat := im3 ]} [].

(** A 2 x 2 tensor of two classes: the first pixel favours class 1, the
    second is a tie, the others favour class 0. *)
Definition tenth (n : Z) : spec_float :=
  f_div float32 (SF_of_Z float32 n) (SF_of_Z float32 10).

Definition tensorB : tensor :=
  [[[tenth 1; tenth 9]; [tenth 5; tenth 5]];
   [[tenth 9; tenth 1]; [tenth 7; tenth 3]]].

End Mock.

(** ** Notions used to state the properties *)

(** The affine value of one sample, read off the formula
    [(x - sourceMean) / (sourceStd + 1e-8) * targetStd + targetMean]:
    each operation is carried out, after conversion of its operands, in
    the type the promotion rule gives it. A value is paired with its type. *)
Definition elt_op (op : dtype -> spec_float -> spec_float -> spec_float)
    (promote : promotion) (a : dtype * spec_float) (s : scalar) : dtype * spec_float :=
  let dt := promote (fst a) s in
  (dt, op dt (SFcast dt (snd a)) (SFcast dt (scalar_val s))).

Definition sample_quotient (promote : promotion) (x : Z) (sourceMean sourceStd : scalar)
    : dtype * spec_float :=
  elt_op f_div promote
    (elt_op f_sub promote (float32, SF_of_Z float32 x) sourceMean)
    (scalar_add_py sourceStd eps_1e_8).

Definition sample_product (promote : promotion) (x : Z)
    (sourceMean sourceStd targetStd : scalar) : dtype * spec_float :=
  elt_op f_mul promote (sample_quotient promote x sourceMean sourceStd) targetStd.

Definition sample_affine (promote : promotion) (x : Z)
    (sourceMean sourceStd targetMean targetStd : scalar) : dtype * spec_float :=
  elt_op f_add promote (sample_product promote x sourceMean sourceStd targetStd) targetMean.

(** Clamping to [0, 255] in the type of the value. *)
Definition clamp (a : dtype * spec_float) : spec_float := clip1 (fst a) 0 255 (snd a).

(** [k] is the lowest index at which the scores [l] attain their maximum. *)
Definition lowest_argmax (l : list spec_float) (k : nat) : Prop :=
  exists v, l !! k = Some v
    /\ (forall j u, l !! j = Some u -> SFleb u v = true)
    /\ (forall j u, (j < k)%nat -> l !! j = Some u -> SFltb u v = true).

(** The world after one more event. *)
Definition logged (e : event) (w : world) : world :=
  World (files w) (arrays w) (trace w ++ [e]).

(** A finite float whose mantissa fits the precision of the type. *)
Definition mantissa_bounded (dt : dtype) (v : spec_float) : Prop :=
  match v with
  | S754_finite _ m _ => Z.pos m < 2 ^ prec_of dt
  | _ => True
  end.

(** Truncation of a rational toward zero. *)
Definition Qtrunc (q : Q) : Z :=
  if Qle_bool 0 q then Qfloor q else Qceiling q.

(** The two colours of a mask. *)
Definition black : list Z := [0; 0; 0].
Definition white : list Z := [255; 255; 255].

(** The paths written during a run, in order. *)
Definition written (tr : list event) : list string :=
  omap (fun e => match e with EvWrite p => Some p | _ => None end) tr.

(** The order of [SFcompare] on the floats that are not NaN is the
    lexicographic order of these keys. *)
Definition SFkey (v : spec_float) : Z * Z * Z :=
  match v with
  | S754_infinity true => (-2, 0, 0)
  | S754_finite true m e => (-1, - e, - Z.pos m)
  | S754_zero _ => (0, 0, 0)
  | S754_nan => (0, 0, 0)
  | S754_finite false m e => (1, e, Z.pos m)
  | S754_infinity false => (2, 0, 0)
  end.

Definition key_lt (a b : Z * Z * Z) : Prop :=
  let '(a1, a2, a3) := a in
  let '(b1, b2, b3) := b in
  a1 < b1 \/ (a1 = b1 /\ (a2 < b2 \/ (a2 = b2 /\ a3 < b3))).

(** ** Further notions: samples, listings, and the windows *)

(** A sample that fits [uint8], and an image made of such samples. *)
Definition is_uint8 (x : Z) : Prop := 0 <= x <= 255.

Definition uint8_image (im : Image) : Prop := Forall is_uint8 (img_data im).

(** A string with a character other than a dot. *)
Definition has_nondot (s : string) : Prop :=
  Exists (fun c => c <> dot) (list_ascii_of_string s).

(** The file [p] can be read, decoded in grey and measured, giving [ms]:
    what one turn of the loop of [GetImgMeanStd] needs. *)
Definition measures `{Libs} (fs : gmap string (list Byte.byte)) (p : string)
    (ms : spec_float * spec_float) : Prop :=
  exists data im,
    fs !! p = Some data
    /\ cv2_imdecode data IMREAD_GRAYSCALE = Returns (Some im)
    /\ cv2_meanStdDev im = Returns ms.

(** The file [p] can be read, decoded in colour, resized and scored by the
    model, giving [t]: what one turn of the loop of [Evaluation] needs. *)
Definition scores `{Libs} (fs : gmap string (list Byte.byte)) (model : Model)
    (ImgSize : nat * nat * nat) (p : string) (t : tensor) : Prop :=
  exists data im im1,
    fs !! p = Some data
    /\ cv2_imdecode data IMREAD_COLOR = Returns (Some im)
    /\ cv2_resize im ImgSize.1.2 ImgSize.1.1 = Returns im1
    /\ Model_predict model
         (arr_truediv np_promote (astype_float32 im1) (PyFloat (SF_of_Z float64 255)))
       = Returns t.

(** The same libraries with another [glob]. *)
Definition with_glob (H : Libs)
    (g : gmap string (list Byte.byte) -> string -> list string) : Libs :=
  Build_Libs np_promote g open_wb_ok cv2_imdecode cv2_imencode cv2_meanStdDev cv2_resize
    Model load_model Model_predict.

(** What a window shows when [OnRun] ends: the request to fill every
    field, the text of an exception, or the notice of completion. *)
Inductive dialog :=
  | showerror_fill
  | showerror_exn (e : exn)
  | showinfo_done.

(** Python's [int] on a string. *)
Class Builtins := {
  py_int : string -> outcome Z
}.

(** A string is true in Python when it is not empty. *)
Definition truthy (s : string) : bool :=
  match s with EmptyString => false | _ => true end.

(** [OnRun] of [AdjustGray_Uetsu.py], on the texts of the five fields. *)
Module AdjustGray_Uetsu_GUI.
Section Window.
Context `{Libs} `{Builtins}.

Record Entries := {
  EntryTrainImgDir : string;
  EntryTestImgDir : string;
  EntryExt : string;
  EntryThreshold : string;
  EntryOutputDir : string
}.

Definition OnRun (en : Entries) : world -> dialog * world := fun w =>
  let TrainImgDir := EntryTrainImgDir en in
  let TestImgDir := EntryTestImgDir en in
  let ImageExtension := EntryExt en in
  let ThresholdStr := EntryThreshold en in
  let OutputDir := EntryOutputDir en in
  if negb (truthy TrainImgDir && truthy TestImgDir && truthy ImageExtension
           && truthy ThresholdStr && truthy OutputDir)
  then (showerror_fill, w)
  else
    match py_int ThresholdStr with
    | Raises e => (showerror_exn e, w)
    | Returns Threshold =>
        match AdjustGray_Uetsu.Adjust TrainImgDir TestImgDir ImageExtension OutputDir
                Threshold w with
        | (Returns _, w') => (showinfo_done, w')
        | (Raises e, w') => (showerror_exn e, w')
        end
    end.

End Window.
End AdjustGray_Uetsu_GUI.

(** [OnRun] of [EnsembleSeg.py], on the texts of the four fields; the
    image size is fixed. *)
Module EnsembleSeg_GUI.
Section Window.
Context `{Libs}.

Record Entries := {
  EntryImgDir : string;
  EntryExt : string;
  EntryModel : string;
  EntryOutputDir : string
}.

Definition OnRun (en : Entries) : world -> dialog * world := fun w =>
  let TestImgDir := EntryImgDir en in
  let ImageExtension := EntryExt en in
  let ModelPath := EntryModel en in
  let OutputDir := EntryOutputDir en in
  let ImgSize := (224, 224, 3)%nat in
  if negb (truthy TestImgDir && truthy ImageExtension && truthy ModelPath
           && truthy OutputDir)
  then (showerror_fill, w)
  else
    match EnsembleSeg.RunInf TestImgDir ImageExtension ModelPath ImgSize OutputDir w with
    | (Returns _, w') => (showinfo_done, w')
    | (Raises e, w') => (showerror_exn e, w')
    end.

End Window.
End EnsembleSeg_GUI.

(** * Properties *)

(** ** The array store *)

Lemma alloc_fresh (w : world) : arrays w !! fresh (dom (arrays w)) = None.
Proof. apply not_elem_of_dom, is_fresh. Qed.

Lemma alloc_fresh_ne (w : world) (r : ref) (im : Image) :
  arrays w !! r = Some im -> fresh (dom (arrays w)) <> r.
Proof. intros Hr Heq. pose proof (alloc_fresh w) as Hf. rewrite Heq in Hf. congruence. Qed.

Lemma lookup_map {A B} (f : A -> B) (l : list A) (i : nat) :
  map f l !! i = f <$> l !! i.
Proof. revert i. induction l as [|x l IH]; intros [|i]; simpl; auto. Qed.

Lemma zip_with_mask_map (t v : Z) (l : list Z) :
  zip_with (fun (b : bool) x => if b then v else x) (map (fun x => x <? t) l) l
  = map (fun x => if x <? t then v else x) l.
Proof. induction l as [|x l IH]; simpl; [done | by rewrite IH]. Qed.

(** ** DrawBlackBasedThreshold *)

Section Threshold.

(** The whole effect of a call: one new array, the thresholded copy. *)
Lemma DrawBlackBasedThreshold_run (w : world) (r : ref) (t : Z) (im : Image) :
  arrays w !! r = Some im ->
  AdjustGray_Uetsu.DrawBlackBasedThreshold r t w =
    (Returns (fresh (dom (arrays w))),
     World (files w)
       (<[fresh (dom (arrays w)) :=
            {| img_shape := img_shape im;
               img_data := map (fun x => if x <? t then 0 else x) (img_data im) |}]>
          (arrays w))
       (trace w)).
Proof.
  intros Hr.
  unfold AdjustGray_Uetsu.DrawBlackBasedThreshold, ndarray_copy, mbind, M_bind, bind,
    deref, alloc, setitem_mask, mret, M_ret, ret; simpl.
  rewrite Hr; simpl. rewrite !lookup_insert_eq; simpl.
  rewrite lookup_insert_eq, insert_insert_eq.
  unfold ndarray_lt; simpl. by rewrite zip_with_mask_map.
Qed.

(** C5. For every image [I] held in the store and every threshold [t],
    [DrawBlackBasedThreshold] returns a reference to a new array, distinct
    from every array already in the store; each of its samples is 0 or the
    corresponding sample of [I] (0 below the threshold), every sample of
    [I] that is at least [t] is unchanged, and [I] itself, like every
    other array, the files and the trace, is left as it was. *)
Theorem DrawBlackBasedThreshold_copy (w : world) (r : ref) (t : Z) (im : Image) :
  arrays w !! r = Some im ->
  exists (r' : ref) (w' : world) (im' : Image),
    AdjustGray_Uetsu.DrawBlackBasedThreshold r t w = (Returns r', w')
    /\ arrays w !! r' = None
    /\ arrays w' !! r' = Some im'
    /\ img_shape im' = img_shape im
    /\ length (img_data im') = length (img_data im)
    /\ (forall (i : nat) (x : Z), img_data im !! i = Some x ->
          exists y, img_data im' !! i = Some y
                    /\ (y = 0 \/ y = x)
                    /\ (t <= x -> y = x)
                    /\ (x < t -> y = 0))
    /\ arrays w' !! r = Some im
    /\ (forall q, q <> r' -> arrays w' !! q = arrays w !! q)
    /\ files w' = files w
    /\ trace w' = trace w.
Proof.
  intros Hr. eexists _, _, _.
  split; [by apply DrawBlackBasedThreshold_run|]. simpl.
  pose proof (alloc_fresh w) as Hfresh.
  split; [done|]. split; [by rewrite lookup_insert_eq|].
  split; [done|]. split; [simpl; apply List.length_map|].
  split.
  { intros i x Hi. exists (if x <? t then 0 else x).
    split; [simpl; by rewrite lookup_map, Hi|].
    destruct (Z.ltb_spec x t); repeat split; auto; lia. }
  split.
  { rewrite lookup_insert_ne; [done|]. by apply alloc_fresh_ne with im. }
  split; [|done].
  intros q Hq. by rewrite lookup_insert_ne.
Qed.

Lemma DrawBlackBasedThreshold_copy_witness :
  exists (r' : ref) (w' : world) (im' : Image),
    AdjustGray_Uetsu.DrawBlackBasedThreshold 0%nat 128
      Mock.w3
      = (Returns r', w')
    /\ arrays w' !! r' = Some im' /\ img_data im' = [0; 128; 200].
Proof.
  destruct (DrawBlackBasedThreshold_copy
              Mock.w3
              0%nat 128 Mock.im3 ltac:(vm_compute; reflexivity))
    as (r' & w' & im' & Hrun & _ & Hr' & _ & Hlen & Hsamples & _).
  exists r', w', im'. split; [exact Hrun|]. split; [exact Hr'|].
  destruct (Hsamples 0%nat 5 eq_refl) as (y0 & Hy0 & _ & _ & Hz0).
  destruct (Hsamples 1%nat 128 eq_refl) as (y1 & Hy1 & _ & Hk1 & _).
  destruct (Hsamples 2%nat 200 eq_refl) as (y2 & Hy2 & _ & Hk2 & _).
  rewrite (Hz0 ltac:(lia)) in Hy0. rewrite (Hk1 ltac:(lia)) in Hy1.
  rewrite (Hk2 ltac:(lia)) in Hy2.
  destruct (img_data im') as [|a [|b [|c [|d l]]]]; simpl in *; try discriminate.
  congruence.
Defined.

(** C10. [DrawBlackBasedThreshold] is idempotent: applying it, with the
    same threshold, to its own result gives an array with the same shape
    and the same samples. *)
Theorem DrawBlackBasedThreshold_idempotent (w : world) (r : ref) (t : Z) (im : Image) :
  arrays w !! r = Some im ->
  exists (r1 r2 : ref) (w1 w2 : world) (im1 : Image),
    AdjustGray_Uetsu.DrawBlackBasedThreshold r t w = (Returns r1, w1)
    /\ AdjustGray_Uetsu.DrawBlackBasedThreshold r1 t w1 = (Returns r2, w2)
    /\ arrays w1 !! r1 = Some im1
    /\ arrays w2 !! r2 = Some im1
    /\ arrays w2 !! r1 = Some im1.
Proof.
  intros Hr.
  pose proof (DrawBlackBasedThreshold_run w r t im Hr) as H1.
  set (r1 := fresh (dom (arrays w))) in *.
  set (im1 := {| img_shape := img_shape im;
                 img_data := map (fun x => if x <? t then 0 else x) (img_data im) |}) in *.
  set (w1 := World (files w) (<[r1 := im1]> (arrays w)) (trace w)) in *.
  assert (Hr1 : arrays w1 !! r1 = Some im1) by apply lookup_insert_eq.
  pose proof (DrawBlackBasedThreshold_run w1 r1 t im1 Hr1) as H2.
  assert (Him : {| img_shape := img_shape im1;
                   img_data := map (fun x => if x <? t then 0 else x) (img_data im1) |}
                = im1).
  { unfold im1; simpl. f_equal. rewrite List.map_map.
    apply List.map_ext. intros x.
    destruct (Z.ltb_spec x t) as [Hlt|Hge].
    - destruct (Z.ltb_spec 0 t); done.
    - destruct (Z.ltb_spec x t); [lia | done]. }
  rewrite Him in H2.
  eexists r1, _, w1, _, im1.
  split; [exact H1|]. split; [exact H2|]. split; [exact Hr1|].
  split; [apply lookup_insert_eq|].
  simpl. rewrite lookup_insert_ne; [exact Hr1|].
  exact (alloc_fresh_ne w1 r1 im1 Hr1).
Qed.

Lemma DrawBlackBasedThreshold_idempotent_witness :
  exists (r1 r2 : ref) (w1 w2 : world) (im1 : Image),
    AdjustGray_Uetsu.DrawBlackBasedThreshold 0%nat 128
      Mock.w3
      = (Returns r1, w1)
    /\ AdjustGray_Uetsu.DrawBlackBasedThreshold r1 128 w1
       = (Returns r2, w2)
    /\ arrays w1 !! r1 = Some im1
    /\ arrays w2 !! r2 = Some im1
    /\ arrays w2 !! r1 = Some im1.
Proof.
  exact (DrawBlackBasedThreshold_idempotent
           Mock.w3
           0%nat 128 Mock.im3 ltac:(vm_compute; reflexivity)).
Defined.

End Threshold.

(** ** The order of floats *)

Lemma Pos_compare_cont_Eq (a b : positive) : Pos.compare_cont Eq a b = (Z.pos a ?= Z.pos b).
Proof. reflexivity. Qed.

Lemma SFltb_key (a b : spec_float) :
  is_nan a = false -> is_nan b = false ->
  (SFltb a b = true <-> key_lt (SFkey a) (SFkey b)).
Proof.
  intros Ha Hb. unfold SFltb.
  destruct a as [sa|sa| |sa ma ea], b as [sb|sb| |sb mb eb]; try discriminate;
    try destruct sa; try destruct sb; simpl;
    try (split; [discriminate | lia]); try (split; [lia | discriminate]);
    try (split; [intros _; lia | reflexivity]).
  - rewrite Pos_compare_cont_Eq.
    destruct (Z.compare_spec ea eb), (Z.compare_spec (Z.pos ma) (Z.pos mb)); simpl;
      split; try discriminate; try reflexivity; lia.
  - rewrite Pos_compare_cont_Eq.
    destruct (Z.compare_spec ea eb), (Z.compare_spec (Z.pos ma) (Z.pos mb)); simpl;
      split; try discriminate; try reflexivity; lia.
Qed.

Lemma SFleb_key (a b : spec_float) :
  is_nan a = false -> is_nan b = false ->
  (SFleb a b = true <-> ~ key_lt (SFkey b) (SFkey a)).
Proof.
  intros Ha Hb. unfold SFleb.
  destruct a as [sa|sa| |sa ma ea], b as [sb|sb| |sb mb eb]; try discriminate;
    try destruct sa; try destruct sb; simpl;
    try (split; [discriminate | lia]); try (split; [lia | discriminate]);
    try (split; [intros _; lia | reflexivity]).
  - rewrite Pos_compare_cont_Eq.
    destruct (Z.compare_spec ea eb), (Z.compare_spec (Z.pos ma) (Z.pos mb)); simpl;
      split; try discriminate; try reflexivity; lia.
  - rewrite Pos_compare_cont_Eq.
    destruct (Z.compare_spec ea eb), (Z.compare_spec (Z.pos ma) (Z.pos mb)); simpl;
      split; try discriminate; try reflexivity; lia.
Qed.

(** ** ConvertYtoSegImg *)

Section Argmax.

Local Ltac keys :=
  repeat match goal with
  | H : SFltb _ _ = true |- _ => apply SFltb_key in H; [|assumption..]
  | H : SFleb _ _ = true |- _ => apply SFleb_key in H; [|assumption..]
  | H : SFltb _ _ = false |- _ => apply not_true_iff_false in H; rewrite SFltb_key in H by assumption
  | |- SFltb _ _ = true => apply SFltb_key; [assumption..|]
  | |- SFleb _ _ = true => apply SFleb_key; [assumption..|]
  end;
  unfold key_lt in *;
  repeat match goal with
  | |- context [SFkey ?v] => destruct (SFkey v) as [[? ?] ?]
  | H : context [SFkey ?v] |- _ => destruct (SFkey v) as [[? ?] ?]
  end;
  lia.

Lemma SFleb_refl (a : spec_float) : is_nan a = false -> SFleb a a = true.
Proof. intros Ha. keys. Qed.

Lemma SFltb_leb_trans (a b c : spec_float) :
  is_nan a = false -> is_nan b = false -> is_nan c = false ->
  SFleb a b = true -> SFltb b c = true -> SFltb a c = true.
Proof. intros Ha Hb Hc H1 H2. keys. Qed.

Lemma SFltb_leb (a b : spec_float) :
  is_nan a = false -> is_nan b = false -> SFltb a b = true -> SFleb a b = true.
Proof. intros Ha Hb H1. keys. Qed.

Lemma SFleb_total (a b : spec_float) :
  is_nan a = false -> is_nan b = false -> SFltb a b = false -> SFleb b a = true.
Proof. intros Ha Hb H1. keys. Qed.

Lemma SFleb_trans (a b c : spec_float) :
  is_nan a = false -> is_nan b = false -> is_nan c = false ->
  SFleb a b = true -> SFleb b c = true -> SFleb a c = true.
Proof. intros Ha Hb Hc H1 H2. keys. Qed.

Lemma SFltb_not_leb (a b : spec_float) :
  is_nan a = false -> is_nan b = false ->
  SFltb a b = true -> SFleb b a = true -> False.
Proof. intros Ha Hb H1 H2. keys. Qed.

(** The scan keeps the lowest index of the largest score seen so far. *)
Lemma argmax_from_lowest (l pre : list spec_float) (bi : nat) (best : spec_float) :
  Forall (fun v => is_nan v = false) (pre ++ l) ->
  pre !! bi = Some best ->
  (forall j u, pre !! j = Some u -> SFleb u best = true) ->
  (forall j u, (j < bi)%nat -> pre !! j = Some u -> SFltb u best = true) ->
  lowest_argmax (pre ++ l) (argmax_from bi best (length pre) l).
Proof.
  revert pre bi best. induction l as [|x r IH]; intros pre bi best Hnan Hbi Hmax Hlow.
  - simpl. rewrite app_nil_r in *. exists best. auto.
  - simpl.
    assert (Hpre : Forall (fun v => is_nan v = false) pre)
      by (apply Forall_app in Hnan; tauto).
    assert (Hx : is_nan x = false).
    { apply Forall_app in Hnan. destruct Hnan as [_ Hxr]. by inversion Hxr. }
    assert (Hbest : is_nan best = false).
    { rewrite Forall_lookup in Hpre. exact (Hpre _ _ Hbi). }
    assert (Hu : forall j u, pre !! j = Some u -> is_nan u = false).
    { rewrite Forall_lookup in Hpre. exact Hpre. }
    replace (pre ++ x :: r) with ((pre ++ [x]) ++ r) in * by (by rewrite <- app_assoc).
    replace (S (length pre)) with (length (pre ++ [x]))
      by (rewrite length_app; simpl; lia).
    destruct (SFltb best x) eqn:Hlt.
    + apply IH; [done | | |].
      * rewrite lookup_app_r by lia. by rewrite Nat.sub_diag.
      * intros j u Hj. apply lookup_app_Some in Hj as [Hj|[Hge Hj]].
        -- apply SFltb_leb; eauto. apply SFltb_leb_trans with best; eauto.
        -- apply list_lookup_singleton_Some in Hj as [_ <-]. by apply SFleb_refl.
      * intros j u Hlen Hj. rewrite lookup_app_l in Hj by done.
        apply SFltb_leb_trans with best; eauto.
    + apply IH; [done | | |].
      * by apply lookup_app_l_Some.
      * intros j u Hj. apply lookup_app_Some in Hj as [Hj|[Hge Hj]]; [eauto|].
        apply list_lookup_singleton_Some in Hj as [_ <-]. by apply SFleb_total.
      * intros j u Hlen Hj. apply lookup_lt_Some in Hbi.
        rewrite lookup_app_l in Hj by lia. eauto.
Qed.

Lemma argmax_lowest (x : spec_float) (r : list spec_float) :
  Forall (fun v => is_nan v = false) (x :: r) ->
  lowest_argmax (x :: r) (argmax_from 0%nat x 1%nat r).
Proof.
  intros Hnan.
  apply (argmax_from_lowest r [x] 0%nat x); [done | done | |].
  - intros [|j] u Hj; [|done]. simpl in Hj. injection Hj as <-.
    apply SFleb_refl. by inversion Hnan.
  - intros j u Hj. lia.
Qed.

Lemma lowest_argmax_unique (l : list spec_float) (k k' : nat) :
  Forall (fun v => is_nan v = false) l ->
  lowest_argmax l k -> lowest_argmax l k' -> k = k'.
Proof.
  intros Hnan (v & Hk & Hmax & Hlow) (v' & Hk' & Hmax' & Hlow').
  rewrite Forall_lookup in Hnan.
  destruct (Nat.lt_trichotomy k k') as [Hlt|[Heq|Hgt]]; [|done|]; exfalso.
  - apply (SFltb_not_leb v v'); eauto.
  - apply (SFltb_not_leb v' v); eauto.
Qed.

(** A score put before the others is beaten at index [k + 1] exactly when
    the others have their lowest maximum at [k] and it exceeds that
    score. *)
Lemma lowest_argmax_cons (b : spec_float) (l : list spec_float) (k : nat) :
  Forall (fun v => is_nan v = false) (b :: l) ->
  (lowest_argmax (b :: l) (S k)
   <-> lowest_argmax l k /\ exists v, l !! k = Some v /\ SFltb b v = true).
Proof.
  intros Hnan. apply Forall_cons in Hnan as [Hb Hl]. rewrite Forall_lookup in Hl.
  split.
  - intros (v & Hk & Hmax & Hlow). simpl in Hk. split.
    + exists v. split; [done|]. split.
      * intros j u Hj. by apply (Hmax (S j)).
      * intros j u Hlt Hj. apply (Hlow (S j)); [lia | done].
    + exists v. split; [done|]. apply (Hlow 0%nat); [lia | done].
  - intros [(v & Hk & Hmax & Hlow) (v' & Hk' & Hbv)].
    rewrite Hk in Hk'. injection Hk' as <-.
    exists v. split; [done|]. split.
    + intros [|j] u Hj; simpl in Hj.
      * injection Hj as <-. apply SFltb_leb; eauto.
      * eauto.
    + intros [|j] u Hlt Hj; simpl in Hj.
      * by injection Hj as <-.
      * apply (Hlow j); [lia | done].
Qed.

Lemma argmax_from_shift (l : list spec_float) (bi i : nat) (best : spec_float) :
  argmax_from (S bi) best (S i) l = S (argmax_from bi best i l).
Proof.
  revert bi i best. induction l as [|x l IH]; intros bi i best; simpl; [done|].
  destruct (SFltb best x); apply IH.
Qed.

(** The scan that starts from a value which is not in the list answers 0
    when nothing beats that value, and otherwise the index, in the list,
    of what the scan of the value followed by the list finds. *)
Lemma argmax_from_outside (l : list spec_float) (b : spec_float) (i : nat) :
  (argmax_from 0%nat b (S i) l = 0%nat /\ argmax_from 0%nat b i l = 0%nat)
  \/ exists k, argmax_from 0%nat b (S i) l = S k /\ argmax_from 0%nat b i l = k.
Proof.
  revert i. induction l as [|x l IH]; intros i; simpl; [by left|].
  destruct (SFltb b x); [|apply IH].
  right. exists (argmax_from i x (S i) l). split; [apply argmax_from_shift | done].
Qed.

(** What [tf.argmax] answers on scores without NaN: index 1 exactly when
    1 is the lowest index of the largest score and that score exceeds
    the lowest finite value. *)
Lemma argmax_scan_is_1 (px : list spec_float) :
  Forall (fun v => is_nan v = false) px ->
  (argmax_scan px = 1%nat
   <-> lowest_argmax px 1 /\ exists v, px !! 1%nat = Some v /\ SFltb lowest_float32 v = true).
Proof.
  intros Hnan.
  assert (HL : Forall (fun v => is_nan v = false) (lowest_float32 :: px))
    by (by apply Forall_cons).
  pose proof (argmax_lowest lowest_float32 px HL) as Hold.
  rewrite <- (lowest_argmax_cons lowest_float32 px 1 HL).
  unfold argmax_scan.
  destruct (argmax_from_outside px lowest_float32 0) as [[H0 Hs]|(k & Hk & Hs)];
    rewrite Hs.
  - rewrite H0 in Hold. split; [done|]. intros H2.
    by pose proof (lowest_argmax_unique _ _ _ HL Hold H2).
  - rewrite Hk in Hold. split.
    + by intros ->.
    + intros H2. pose proof (lowest_argmax_unique _ _ _ HL Hold H2). lia.
Qed.

(** A score above the lowest finite value somewhere in the pixel is
    enough for the largest score to exceed it. *)
Lemma lowest_argmax_exceeds (px : list spec_float) (k : nat) (b : spec_float) :
  Forall (fun v => is_nan v = false) px -> is_nan b = false ->
  Exists (fun v => SFltb b v = true) px ->
  lowest_argmax px k -> exists v, px !! k = Some v /\ SFltb b v = true.
Proof.
  intros Hnan Hb Hex (v & Hk & Hmax & _). exists v. split; [done|].
  apply Exists_exists in Hex as (u & Hu & Hbu).
  apply list_elem_of_lookup in Hu as [j Hj].
  rewrite Forall_lookup in Hnan.
  pose proof (Hmax j u Hj) as Huv.
  assert (Hnu : is_nan u = false) by eauto.
  assert (Hnv : is_nan v = false) by eauto.
  keys.
Qed.

End Argmax.

Section Decode.

Lemma outcome_map_total {A B} (f : A -> outcome B) (g : A -> B) (l : list A) :
  Forall (fun x => f x = Returns (g x)) l -> outcome_map f l = Returns (map g l).
Proof.
  induction 1 as [|x l Hx _ IH]; simpl; [done|]. by rewrite Hx, IH.
Qed.

(** On pixels that carry a score each, [tf.argmax] returns the index the
    scan finds, for every pixel. *)
Lemma tf_argmax_scan (t : tensor) :
  Forall (Forall (fun px : list spec_float => px <> [])) t ->
  outcome_map (outcome_map argmax) t = Returns (map (map argmax_scan) t).
Proof.
  intros Hne. apply outcome_map_total.
  eapply Forall_impl; [exact Hne|]. intros row Hrow. simpl.
  apply outcome_map_total.
  eapply Forall_impl; [exact Hrow|]. intros px Hpx. simpl. by destruct px.
Qed.

(** C4. For every class tensor of the size of the canvas whose pixels
    carry at least two scores, none of them NaN, [ConvertYtoSegImg] returns
    a mask of the same height and width in which every pixel is black,
    (0,0,0), or white, (255,255,255), and no other pixel value occurs.
    Whenever a score of the pixel exceeds the lowest finite [float32], as
    every probability does, the pixel is black exactly when the lowest
    index attaining the pixel's largest score is 1; in general it is black
    exactly when, moreover, that largest score exceeds the lowest finite
    [float32]. *)
Theorem ConvertYtoSegImg_two_colours (t : tensor) (h w : nat) :
  length t = h ->
  Forall (fun row => length row = w) t ->
  Forall (Forall (fun px => (2 <= length px)%nat /\ Forall (fun v => is_nan v = false) px)) t ->
  exists out,
    EnsembleSeg.ConvertYtoSegImg t (h, w, 3%nat) = Returns out
    /\ length out = h
    /\ Forall (fun row => length row = w) out
    /\ (forall i j row px, t !! i = Some row -> row !! j = Some px ->
          exists orow o, out !! i = Some orow /\ orow !! j = Some o
            /\ (o = black \/ o = white)
            /\ (Exists (fun v => SFltb lowest_float32 v = true) px ->
                (o = black <-> lowest_argmax px 1))
            /\ (o = black <->
                lowest_argmax px 1
                /\ exists v, px !! 1%nat = Some v /\ SFltb lowest_float32 v = true))
    /\ Forall (Forall (fun o => o = black \/ o = white)) out.
Proof.
  intros Hh Hw Hpx.
  set (f := fun (b : bool) (px : list Z) => if b then [0; 0; 0] else px).
  set (mask := map (map (fun i => Nat.eqb i 1)) (map (map argmax_scan) t)).
  assert (Hne : Forall (Forall (fun px : list spec_float => px <> [])) t).
  { eapply Forall_impl; [exact Hpx|]. intros row Hrow. simpl.
    eapply Forall_impl; [exact Hrow|]. intros px [Hlen _] ->. simpl in Hlen. lia. }
  assert (Hmlen : length mask = h) by (unfold mask; by rewrite !List.length_map).
  assert (Hmrow : Forall (fun row => length row = w) mask).
  { unfold mask. rewrite Forall_lookup in Hw. rewrite Forall_lookup. intros i row Hi.
    rewrite !lookup_map in Hi.
    destruct (t !! i) as [trow|] eqn:Ht; simpl in Hi; [|discriminate].
    injection Hi as <-.
    rewrite !List.length_map. eauto. }
  exists (zip_with (zip_with f) mask (replicate h (replicate w (replicate 3 255)))).
  assert (Hrow : forall i row, t !! i = Some row ->
            zip_with (zip_with f) mask (replicate h (replicate w (replicate 3 255))) !! i
            = Some (zip_with f (map (fun k => Nat.eqb k 1) (map argmax_scan row))
                      (replicate w white))).
  { intros i row Hi. rewrite lookup_zip_with. unfold mask. rewrite !lookup_map, Hi. simpl.
    rewrite lookup_replicate_2; [done|]. apply lookup_lt_Some in Hi. lia. }
  assert (Hcell : forall i j row px, t !! i = Some row -> row !! j = Some px ->
            zip_with f (map (fun k => Nat.eqb k 1) (map argmax_scan row)) (replicate w white)
              !! j
            = Some (if Nat.eqb (argmax_scan px) 1 then black else white)).
  { intros i j row px Hi Hj. rewrite lookup_zip_with, !lookup_map, Hj. simpl.
    rewrite lookup_replicate_2; [done|].
    rewrite Forall_lookup in Hw. rewrite <- (Hw _ _ Hi). by apply lookup_lt_Some in Hj. }
  split.
  { unfold EnsembleSeg.ConvertYtoSegImg. rewrite (tf_argmax_scan t Hne). fold mask.
    rewrite bool_decide_eq_true_2 by done. by rewrite bool_decide_eq_true_2. }
  split.
  { rewrite length_zip_with, length_replicate. lia. }
  split.
  { rewrite Forall_lookup. intros i orow Hi.
    destruct (t !! i) as [row|] eqn:Ht.
    - rewrite (Hrow _ _ Ht) in Hi. injection Hi as <-.
      rewrite length_zip_with, length_replicate, !List.length_map.
      rewrite Forall_lookup in Hw. rewrite (Hw _ _ Ht). lia.
    - apply lookup_lt_Some in Hi. apply lookup_ge_None in Ht.
      rewrite length_zip_with in Hi. lia. }
  split.
  { intros i j row px Hi Hj.
    eexists _, _. split; [by apply Hrow|]. split; [by eapply Hcell|].
    rewrite Forall_lookup in Hpx. specialize (Hpx _ _ Hi).
    rewrite Forall_lookup in Hpx. destruct (Hpx _ _ Hj) as [Hlen Hnan].
    pose proof (argmax_scan_is_1 px Hnan) as H1.
    assert (Hblack : (if Nat.eqb (argmax_scan px) 1 then black else white) = black
                     <-> argmax_scan px = 1%nat).
    { destruct (Nat.eqb_spec (argmax_scan px) 1) as [He|He]; split; try done. }
    split; [destruct (Nat.eqb (argmax_scan px) 1); auto|].
    split; [|by rewrite Hblack].
    intros Hex. rewrite Hblack, H1. split; [tauto|]. intros Hlow. split; [done|].
    by apply lowest_argmax_exceeds. }
  rewrite Forall_lookup. intros i orow Hi.
  destruct (t !! i) as [row|] eqn:Ht.
  - rewrite (Hrow _ _ Ht) in Hi. injection Hi as <-.
    rewrite Forall_lookup. intros j o Hj.
    destruct (row !! j) as [px|] eqn:Hpxj.
    + rewrite (Hcell _ _ _ _ Ht Hpxj) in Hj. injection Hj as <-.
      destruct (Nat.eqb (argmax_scan px) 1); auto.
    + apply lookup_lt_Some in Hj. apply lookup_ge_None in Hpxj.
      rewrite length_zip_with, !List.length_map in Hj. lia.
  - apply lookup_lt_Some in Hi. apply lookup_ge_None in Ht.
    rewrite length_zip_with in Hi. lia.
Qed.

Lemma ConvertYtoSegImg_two_colours_witness :
  exists out,
    EnsembleSeg.ConvertYtoSegImg Mock.tensorB (2, 2, 3)%nat = Returns out
    /\ length out = 2%nat
    /\ Forall (fun row => length row = 2%nat) out
    /\ (forall i j row px, Mock.tensorB !! i = Some row -> row !! j = Some px ->
          exists orow o, out !! i = Some orow /\ orow !! j = Some o
            /\ (o = black \/ o = white)
            /\ (Exists (fun v => SFltb lowest_float32 v = true) px ->
                (o = black <-> lowest_argmax px 1))
            /\ (o = black <->
                lowest_argmax px 1
                /\ exists v, px !! 1%nat = Some v /\ SFltb lowest_float32 v = true))
    /\ Forall (Forall (fun o => o = black \/ o = white)) out.
Proof.
  apply (ConvertYtoSegImg_two_colours Mock.tensorB 2 2).
  - reflexivity.
  - repeat constructor.
  - repeat constructor.
Defined.

Example ConvertYtoSegImg_scenario :
  EnsembleSeg.ConvertYtoSegImg Mock.tensorB (2, 2, 3)%nat
  = Returns [[black; white]; [white; white]].
Proof. vm_compute. reflexivity. Qed.

(** A NaN is passed over, wherever it stands, and so is a score that does
    not exceed the lowest finite value; without scores the axis is
    rejected. *)
Example argmax_passes_over :
  argmax [S754_nan; Mock.tenth 5] = Returns 1%nat
  /\ argmax [Mock.tenth 5; S754_nan] = Returns 0%nat
  /\ argmax [S754_nan; S754_nan] = Returns 0%nat
  /\ argmax [S754_infinity true; S754_finite true 16777215 104] = Returns 0%nat
  /\ argmax [S754_infinity true; S754_finite true 16777214 104] = Returns 1%nat
  /\ argmax [] = Raises InvalidArgumentError
  /\ (SF2Q lowest_float32 == - (2 ^ 128 - 2 ^ 104))%Q.
Proof. vm_compute. repeat split; reflexivity. Qed.

End Decode.

(** ** Reading and writing images *)

Section Codec.
Context `{Libs}.

Lemma read_file_run (Path : string) (w : world) (data : list Byte.byte) :
  files w !! Path = Some data ->
  read_file Path w = (Returns data, logged (EvRead Path) w).
Proof. intros Hf. unfold read_file. by rewrite Hf. Qed.

Lemma ReadImg_gray_run (Path : string) (w : world) (data : list Byte.byte) :
  files w !! Path = Some data ->
  AdjustGray_Uetsu.ReadImg Path w
  = (cv2_imdecode data IMREAD_GRAYSCALE, logged (EvRead Path) w).
Proof.
  intros Hf. unfold AdjustGray_Uetsu.ReadImg, mbind, M_bind, bind.
  by rewrite (read_file_run _ _ _ Hf).
Qed.

Lemma ReadImg_color_run (Path : string) (w : world) (data : list Byte.byte) :
  files w !! Path = Some data ->
  EnsembleSeg.ReadImg Path w
  = (cv2_imdecode data IMREAD_COLOR, logged (EvRead Path) w).
Proof.
  intros Hf. unfold EnsembleSeg.ReadImg, mbind, M_bind, bind.
  by rewrite (read_file_run _ _ _ Hf).
Qed.

Lemma WriteImg_gray_run (Path : string) (ImgData : Image) (w : world) :
  AdjustGray_Uetsu.WriteImg Path ImgData w
  = match cv2_imencode (snd (splitext Path)) ImgData with
    | Raises e => (Raises e, w)
    | Returns (_, b) =>
        if open_wb_ok (files w) Path then
          match b with
          | [] => (Raises AttributeError,
                   World (<[Path := []]> (files w)) (arrays w) (trace w))
          | _ => (Returns tt,
                  World (<[Path := b]> (files w)) (arrays w) (trace w ++ [EvWrite Path]))
          end
        else (Raises OSError, w)
    end.
Proof.
  unfold AdjustGray_Uetsu.WriteImg, mbind, M_bind, bind, lift, open_wb.
  destruct (cv2_imencode _ _) as [[ok b]|e]; [|done].
  destruct (open_wb_ok (files w) Path); [|done].
  destruct b as [|x b]; [done|].
  unfold ndarray_tofile. cbn [files arrays trace]. by rewrite insert_insert_eq.
Qed.

Lemma WriteImg_color_run (Path : string) (ImgData : Image) (w : world) :
  EnsembleSeg.WriteImg Path ImgData w
  = match cv2_imencode (snd (splitext Path)) ImgData with
    | Raises e => (Raises e, w)
    | Returns (_, b) =>
        if open_wb_ok (files w) Path then
          match b with
          | [] => (Raises AttributeError,
                   World (<[Path := []]> (files w)) (arrays w) (trace w))
          | _ => (Returns tt,
                  World (<[Path := b]> (files w)) (arrays w) (trace w ++ [EvWrite Path]))
          end
        else (Raises OSError, w)
    end.
Proof.
  unfold EnsembleSeg.WriteImg, mbind, M_bind, bind, lift, open_wb.
  destruct (cv2_imencode _ _) as [[ok b]|e]; [|done].
  destruct (open_wb_ok (files w) Path); [|done].
  destruct b as [|x b]; [done|].
  unfold ndarray_tofile. cbn [files arrays trace]. by rewrite insert_insert_eq.
Qed.

(** What a call of [WriteImg] can do to the files: nothing, or put
    something, possibly nothing, under the path. *)
Lemma WriteImg_gray_files (Path : string) (ImgData : Image) (w : world) :
  exists fs' tr,
    (AdjustGray_Uetsu.WriteImg Path ImgData w).2 = World fs' (arrays w) (trace w ++ tr)
    /\ (fs' = files w \/ exists b, fs' = <[Path := b]> (files w))
    /\ (tr = [] \/ tr = [EvWrite Path])
    /\ (forall u, (AdjustGray_Uetsu.WriteImg Path ImgData w).1 = Returns u ->
          tr = [EvWrite Path] /\ exists b, fs' = <[Path := b]> (files w)).
Proof.
  rewrite WriteImg_gray_run.
  assert (Hw : w = World (files w) (arrays w) (trace w ++ [])).
  { destruct w as [f a t]. simpl. by rewrite app_nil_r. }
  destruct (cv2_imencode _ _) as [[ok b]|e].
  2:{ exists (files w), []. rewrite <- Hw. split; [done|]. split; [by left|].
      split; [by left | done]. }
  destruct (open_wb_ok (files w) Path).
  2:{ exists (files w), []. rewrite <- Hw. split; [done|]. split; [by left|].
      split; [by left | done]. }
  destruct b as [|x b].
  - exists (<[Path := []]> (files w)), []. rewrite app_nil_r. split; [done|].
    split; [right; by eexists|]. split; [by left | done].
  - exists (<[Path := x :: b]> (files w)), [EvWrite Path]. split; [done|].
    split; [right; by eexists|]. split; [by right|]. intros u _. split; [done | by eexists].
Qed.

Lemma WriteImg_color_files (Path : string) (ImgData : Image) (w : world) :
  exists fs' tr,
    (EnsembleSeg.WriteImg Path ImgData w).2 = World fs' (arrays w) (trace w ++ tr)
    /\ (fs' = files w \/ exists b, fs' = <[Path := b]> (files w))
    /\ (tr = [] \/ tr = [EvWrite Path])
    /\ (forall u, (EnsembleSeg.WriteImg Path ImgData w).1 = Returns u ->
          tr = [EvWrite Path] /\ exists b, fs' = <[Path := b]> (files w)).
Proof.
  rewrite WriteImg_color_run.
  assert (Hw : w = World (files w) (arrays w) (trace w ++ [])).
  { destruct w as [f a t]. simpl. by rewrite app_nil_r. }
  destruct (cv2_imencode _ _) as [[ok b]|e].
  2:{ exists (files w), []. rewrite <- Hw. split; [done|]. split; [by left|].
      split; [by left | done]. }
  destruct (open_wb_ok (files w) Path).
  2:{ exists (files w), []. rewrite <- Hw. split; [done|]. split; [by left|].
      split; [by left | done]. }
  destruct b as [|x b].
  - exists (<[Path := []]> (files w)), []. rewrite app_nil_r. split; [done|].
    split; [right; by eexists|]. split; [by left | done].
  - exists (<[Path := x :: b]> (files w)), [EvWrite Path]. split; [done|].
    split; [right; by eexists|]. split; [by right|]. intros u _. split; [done | by eexists].
Qed.

(** C7, as the code has it. [ReadImg] of either script hands back what
    [cv2.imdecode] makes of the content of the file, after having read
    it. When [cv2.imdecode] returns [None], which is what it does with
    bytes no decoder accepts, [ReadImg] returns [None] without raising,
    and the error is raised by the caller that first uses the value,
    [cv2.error] in [CalcMeanStd]; when it returns an image, [ReadImg]
    returns that image; when it raises, so does [ReadImg]. A path that
    holds no file makes [open] raise [OSError], nothing being read.
    [ReadImg] raises in these two ways only. *)
Theorem ReadImg_undecodable (Path : string) (w : world) :
  (forall data, files w !! Path = Some data ->
     (cv2_imdecode data IMREAD_GRAYSCALE = Returns None ->
        AdjustGray_Uetsu.ReadImg Path w = (Returns None, logged (EvRead Path) w)
        /\ AdjustGray_Uetsu.CalcMeanStd Path w = (Raises cv2_error, logged (EvRead Path) w))
     /\ (cv2_imdecode data IMREAD_COLOR = Returns None ->
           EnsembleSeg.ReadImg Path w = (Returns None, logged (EvRead Path) w))
     /\ (forall im, cv2_imdecode data IMREAD_GRAYSCALE = Returns (Some im) ->
           AdjustGray_Uetsu.ReadImg Path w = (Returns (Some im), logged (EvRead Path) w))
     /\ (forall im, cv2_imdecode data IMREAD_COLOR = Returns (Some im) ->
           EnsembleSeg.ReadImg Path w = (Returns (Some im), logged (EvRead Path) w))
     /\ (forall e, cv2_imdecode data IMREAD_GRAYSCALE = Raises e ->
           AdjustGray_Uetsu.ReadImg Path w = (Raises e, logged (EvRead Path) w))
     /\ (forall e, cv2_imdecode data IMREAD_COLOR = Raises e ->
           EnsembleSeg.ReadImg Path w = (Raises e, logged (EvRead Path) w)))
  /\ (files w !! Path = None ->
        AdjustGray_Uetsu.ReadImg Path w = (Raises OSError, w)
        /\ EnsembleSeg.ReadImg Path w = (Raises OSError, w))
  /\ (forall e, (AdjustGray_Uetsu.ReadImg Path w).1 = Raises e ->
        (files w !! Path = None /\ e = OSError)
        \/ exists data, files w !! Path = Some data
                        /\ cv2_imdecode data IMREAD_GRAYSCALE = Raises e)
  /\ (forall e, (EnsembleSeg.ReadImg Path w).1 = Raises e ->
        (files w !! Path = None /\ e = OSError)
        \/ exists data, files w !! Path = Some data
                        /\ cv2_imdecode data IMREAD_COLOR = Raises e).
Proof.
  assert (Hnone : files w !! Path = None ->
            AdjustGray_Uetsu.ReadImg Path w = (Raises OSError, w)
            /\ EnsembleSeg.ReadImg Path w = (Raises OSError, w)).
  { intros Hf.
    unfold AdjustGray_Uetsu.ReadImg, EnsembleSeg.ReadImg, mbind, M_bind, bind, read_file.
    by rewrite Hf. }
  split; [|split; [done|split]].
  - intros data Hf. split; [|split; [|split; [|split; [|split]]]].
    + intros Hd. split; [by rewrite (ReadImg_gray_run _ _ _ Hf), Hd|].
      unfold AdjustGray_Uetsu.CalcMeanStd, mbind, M_bind, bind.
      by rewrite (ReadImg_gray_run _ _ _ Hf), Hd.
    + intros Hd. by rewrite (ReadImg_color_run _ _ _ Hf), Hd.
    + intros im Hd. by rewrite (ReadImg_gray_run _ _ _ Hf), Hd.
    + intros im Hd. by rewrite (ReadImg_color_run _ _ _ Hf), Hd.
    + intros e Hd. by rewrite (ReadImg_gray_run _ _ _ Hf), Hd.
    + intros e Hd. by rewrite (ReadImg_color_run _ _ _ Hf), Hd.
  - intros e. destruct (files w !! Path) as [data|] eqn:Hf.
    + rewrite (ReadImg_gray_run _ _ _ Hf). simpl. intros Hd. right. by exists data.
    + rewrite (proj1 (Hnone eq_refl)). simpl. intros [= <-]. by left.
  - intros e. destruct (files w !! Path) as [data|] eqn:Hf.
    + rewrite (ReadImg_color_run _ _ _ Hf). simpl. intros Hd. right. by exists data.
    + rewrite (proj2 (Hnone eq_refl)). simpl. intros [= <-]. by left.
Qed.


(** ** GetImgMeanStd *)

Lemma np_mean_nil : np_mean [] = S754_nan.
Proof. reflexivity. Qed.

(** The cut of a long array leaves two parts that are not empty. *)
Lemma pairwise_half (n : nat) :
  (128 < n)%nat -> (0 < n / 2 - (n / 2) mod 8 < n)%nat.
Proof.
  intros Hn.
  pose proof (Nat.div_le_lower_bound n 2 64 ltac:(lia)) as H1.
  pose proof (Nat.mod_upper_bound (n / 2) 8 ltac:(lia)) as H2.
  pose proof (Nat.div_lt n 2 ltac:(lia) ltac:(lia)) as H3.
  lia.
Qed.

(** The counter of [pairwise_sum_upto] never runs out when it starts at
    the length of the array: any two such counters give the same sum. *)
Lemma pairwise_sum_upto_depth (d1 d2 : nat) (l : list spec_float) :
  (length l <= d1)%nat -> (length l <= d2)%nat ->
  pairwise_sum_upto d1 l = pairwise_sum_upto d2 l.
Proof.
  revert d2 l. induction d1 as [|d1 IH]; intros d2 l H1 H2.
  - destruct l; [|simpl in H1; lia]. by destruct d2.
  - destruct d2 as [|d2].
    { destruct l; [|simpl in H2; lia]. done. }
    cbn [pairwise_sum_upto].
    destruct (length l <? 8)%nat eqn:E8; [done|].
    destruct (length l <=? 128)%nat eqn:E128; [done|].
    apply Nat.leb_gt in E128. pose proof (pairwise_half _ E128) as Hh.
    f_equal; apply IH; rewrite ?length_take, ?length_drop; lia.
Qed.

(** [pairwise_sum] obeys the recursion of NumPy's routine. *)
Lemma pairwise_sum_eq (l : list spec_float) :
  pairwise_sum l
  = if (length l <? 8)%nat then fold_left (f_add float64) l (S754_zero true)
    else if (length l <=? 128)%nat then sum_unrolled l
    else let n2 := (length l / 2 - (length l / 2) mod 8)%nat in
         f_add float64 (pairwise_sum (take n2 l)) (pairwise_sum (drop n2 l)).
Proof.
  unfold pairwise_sum at 1.
  destruct (length l) as [|d] eqn:En.
  { destruct l; [done|simpl in En; lia]. }
  cbn [pairwise_sum_upto]. rewrite En.
  destruct (S d <? 8)%nat eqn:E8; [done|].
  destruct (S d <=? 128)%nat eqn:E128; [done|].
  apply Nat.leb_gt in E128. pose proof (pairwise_half _ E128) as Hh.
  cbv zeta. unfold pairwise_sum.
  f_equal; apply pairwise_sum_upto_depth; rewrite ?length_take, ?length_drop; lia.
Qed.

(** Fewer than eight items are added from the left. *)
Lemma np_sum_short (l : list spec_float) :
  l <> [] -> (length l < 8)%nat ->
  np_sum l = f_add float64 (S754_zero true) (fold_left (f_add float64) l (S754_zero true)).
Proof.
  intros Hne Hl. destruct l as [|a l]; [done|]. unfold np_sum.
  rewrite pairwise_sum_eq. apply Nat.ltb_lt in Hl. by rewrite Hl.
Qed.

(** Eight items are added two by two; a ninth is added to their sum. *)
Lemma np_sum_eight (a0 a1 a2 a3 a4 a5 a6 a7 : spec_float) :
  np_sum [a0; a1; a2; a3; a4; a5; a6; a7]
  = f_add float64 (S754_zero true)
      (f_add float64
         (f_add float64 (f_add float64 a0 a1) (f_add float64 a2 a3))
         (f_add float64 (f_add float64 a4 a5) (f_add float64 a6 a7))).
Proof. reflexivity. Qed.

Lemma np_sum_nine (a0 a1 a2 a3 a4 a5 a6 a7 a8 : spec_float) :
  np_sum [a0; a1; a2; a3; a4; a5; a6; a7; a8]
  = f_add float64 (S754_zero true)
      (f_add float64
         (f_add float64
            (f_add float64 (f_add float64 a0 a1) (f_add float64 a2 a3))
            (f_add float64 (f_add float64 a4 a5) (f_add float64 a6 a7)))
         a8).
Proof. reflexivity. Qed.

(** With sixteen items, item [i + 8] joins item [i] before the eight
    running sums are added. *)
Lemma np_sum_sixteen (a0 a1 a2 a3 a4 a5 a6 a7 b0 b1 b2 b3 b4 b5 b6 b7 : spec_float) :
  np_sum [a0; a1; a2; a3; a4; a5; a6; a7; b0; b1; b2; b3; b4; b5; b6; b7]
  = f_add float64 (S754_zero true)
      (f_add float64
         (f_add float64 (f_add float64 (f_add float64 a0 b0) (f_add float64 a1 b1))
                        (f_add float64 (f_add float64 a2 b2) (f_add float64 a3 b3)))
         (f_add float64 (f_add float64 (f_add float64 a4 b4) (f_add float64 a5 b5))
                        (f_add float64 (f_add float64 a6 b6) (f_add float64 a7 b7)))).
Proof. reflexivity. Qed.

(** The order matters: the eight means of [Mock.measured8] have the mean
    23 exactly, where adding them from the left gives the float64 just
    below. *)
Example np_mean_of_eight :
  np_mean (map fst Mock.measured8) = SF_of_Z float64 23
  /\ f_div float64 (fold_left (f_add float64) (map fst Mock.measured8) (S754_zero true))
       (SF_of_Z float64 8)
     = S754_finite false 6473924464345087 (-48)
  /\ SF_of_Z float64 23 = S754_finite false 6473924464345088 (-48).
Proof. repeat split; vm_compute; reflexivity. Qed.

(** C1, as the code has it. When the listing of the directory is empty,
    [GetImgMeanStd] raises nothing: it returns the pair (NaN, NaN), the
    means of two empty lists, and leaves the world as it was. *)
Theorem GetImgMeanStd_empty (ImgDir ImageExtension : string) (w : world) :
  glob_glob (files w) (path_join ImgDir (String "*" ImageExtension)) = [] ->
  AdjustGray_Uetsu.GetImgMeanStd ImgDir ImageExtension w
  = (Returns (S754_nan, S754_nan), w).
Proof.
  intros Hg.
  unfold AdjustGray_Uetsu.GetImgMeanStd, mbind, M_bind, bind, glob.
  rewrite Hg. simpl. reflexivity.
Qed.

End Codec.

Lemma ReadImg_undecodable_witness :
  AdjustGray_Uetsu.ReadImg (H := Mock.libs nep50) "test/notes.txt" Mock.w0
  = (Returns None, logged (EvRead "test/notes.txt") Mock.w0)
  /\ AdjustGray_Uetsu.CalcMeanStd (H := Mock.libs nep50) "test/notes.txt" Mock.w0
     = (Raises cv2_error, logged (EvRead "test/notes.txt") Mock.w0).
Proof.
  destruct (ReadImg_undecodable (H := Mock.libs nep50) "test/notes.txt" Mock.w0)
    as [Hfile _].
  destruct (Hfile (map Mock.byte_of_Z [104; 105]) ltac:(vm_compute; reflexivity))
    as [Hnone _].
  apply Hnone. vm_compute. reflexivity.
Defined.

(** C7, as stated, fails: a file whose bytes are not an image is read
    without any error, and the value returned is [None], not an image. *)
Lemma ReadImg_no_DecodeError :
  Mock.imdecode (map Mock.byte_of_Z [104; 105]) IMREAD_GRAYSCALE = Returns None
  /\ Mock.imdecode (map Mock.byte_of_Z [104; 105]) IMREAD_COLOR = Returns None
  /\ fst (AdjustGray_Uetsu.ReadImg (H := Mock.libs nep50) "test/notes.txt" Mock.w0)
     = Returns None
  /\ fst (EnsembleSeg.ReadImg (H := Mock.libs nep50) "test/notes.txt" Mock.w0)
     = Returns None.
Proof. vm_compute. repeat split; reflexivity. Qed.



Lemma GetImgMeanStd_empty_witness :
  AdjustGray_Uetsu.GetImgMeanStd (H := Mock.libs nep50) "empty" ".png" Mock.w0
  = (Returns (S754_nan, S754_nan), Mock.w0).
Proof.
  apply (GetImgMeanStd_empty (H := Mock.libs nep50)); vm_compute; reflexivity.
Defined.

(** C1, as stated, fails: on a directory without matching files
    [GetImgMeanStd] returns normally, and what it returns is NaN. *)
Lemma GetImgMeanStd_no_EmptyCorpusError :
  glob_glob (Libs := Mock.libs nep50) (files Mock.w0) (path_join "empty" "*.png") = []
  /\ (forall e, fst (AdjustGray_Uetsu.GetImgMeanStd (H := Mock.libs nep50)
                      "empty" ".png" Mock.w0) <> Raises e)
  /\ fst (AdjustGray_Uetsu.GetImgMeanStd (H := Mock.libs nep50) "empty" ".png" Mock.w0)
     = Returns (S754_nan, S754_nan).
Proof.
  split; [vm_compute; reflexivity|].
  split; [intros e; vm_compute; discriminate | vm_compute; reflexivity].
Qed.

(** ** The order of the operations of a run *)

Section Loops.

(** A loop whose body logs the block of its item when it returns, and an
    initial segment of it when it raises, logs an initial segment of the
    blocks of all the items, and all of them when it returns. *)
Lemma for_each_trace {A} (block : A -> list event) (body : A -> M unit) (l : list A) :
  (forall x w, exists tr,
      trace (body x w).2 = trace w ++ tr
      /\ tr `prefix_of` block x
      /\ (forall u, (body x w).1 = Returns u -> tr = block x)) ->
  forall w, exists tr,
    trace (for_each l body w).2 = trace w ++ tr
    /\ tr `prefix_of` flat_map block l
    /\ (forall u, (for_each l body w).1 = Returns u -> tr = flat_map block l).
Proof.
  intros Hbody. induction l as [|x l IH]; intros w; simpl.
  - exists []. by rewrite app_nil_r.
  - unfold mbind, M_bind, bind. destruct (Hbody x w) as (tr1 & Ht1 & Hp1 & Hr1).
    destruct (body x w) as [[u|e] w1]; simpl in *.
    + rewrite (Hr1 u eq_refl) in Ht1. destruct (IH w1) as (tr2 & Ht2 & Hp2 & Hr2).
      exists (block x ++ tr2). split; [by rewrite Ht2, Ht1, <- app_assoc|].
      split; [by apply prefix_app|]. intros v Hv. by rewrite (Hr2 v Hv).
    + exists tr1. split; [done|]. split; [by apply prefix_app_r | done].
Qed.

(** A loop whose body, when it returns, has written one file and touched
    no other leaves, when it returns, a file for every item. *)
Lemma for_each_files {A} (out : A -> string) (body : A -> M unit) (l : list A) :
  (forall x w w', body x w = (Returns tt, w') ->
     exists b, files w' = <[out x := b]> (files w)) ->
  forall w w', for_each l body w = (Returns tt, w') ->
    (forall x, x ∈ l -> is_Some (files w' !! out x))
    /\ (forall k, is_Some (files w !! k) -> is_Some (files w' !! k)).
Proof.
  intros Hbody. induction l as [|x l IH]; intros w w'; simpl.
  - intros [= <-]. split; [|done]. intros x Hx. by apply elem_of_nil in Hx.
  - unfold mbind, M_bind, bind.
    destruct (body x w) as [[[]|e] w1] eqn:Hb; [|discriminate].
    intros Hrest. destruct (Hbody _ _ _ Hb) as [b Hfiles].
    destruct (IH _ _ Hrest) as [Hall Hkeep].
    assert (Hk1 : forall k, is_Some (files w !! k) -> is_Some (files w1 !! k)).
    { intros k Hk. rewrite Hfiles.
      destruct (decide (out x = k)) as [->|Hne];
        [by rewrite lookup_insert_eq | by rewrite lookup_insert_ne]. }
    split; [|by auto].
    intros y Hy. apply elem_of_cons in Hy as [->|Hy]; [|by auto].
    apply Hkeep. rewrite Hfiles, lookup_insert_eq. by eexists.
Qed.

End Loops.

Section Normalization.
Context `{Libs}.

Lemma CalcMeanStd_run (ImgPath : string) (w : world) :
  AdjustGray_Uetsu.CalcMeanStd ImgPath w
  = match files w !! ImgPath with
    | None => (Raises OSError, w)
    | Some data =>
        match cv2_imdecode data IMREAD_GRAYSCALE with
        | Raises e => (Raises e, logged (EvRead ImgPath) w)
        | Returns None => (Raises cv2_error, logged (EvRead ImgPath) w)
        | Returns (Some im) =>
            match cv2_meanStdDev im with
            | Raises e => (Raises e, logged (EvRead ImgPath) w)
            | Returns (Mean, Std) => (Returns (Mean, Std, im), logged (EvRead ImgPath) w)
            end
        end
    end.
Proof.
  unfold AdjustGray_Uetsu.CalcMeanStd, mbind, M_bind, bind.
  destruct (files w !! ImgPath) as [data|] eqn:Hf.
  - rewrite (ReadImg_gray_run _ _ _ Hf).
    destruct (cv2_imdecode data IMREAD_GRAYSCALE) as [[im|]|e]; try done.
    unfold lift. by destruct (cv2_meanStdDev im) as [[Mean Std]|e].
  - unfold AdjustGray_Uetsu.ReadImg, mbind, M_bind, bind, read_file. by rewrite Hf.
Qed.

(** One turn of the loop of [Adjust]: the image is read, and the result
    is written under its output name; a turn that raises has at most
    read the image, and has at most emptied the file of that name. *)
Lemma Adjust_body_run (TrainMean TrainStd : spec_float) (OutputDir : string)
    (Threshold : Z) (TestImgPath : string) (w : world) :
  (exists b arrs,
     AdjustGray_Uetsu.Adjust_body TrainMean TrainStd OutputDir Threshold TestImgPath w
     = (Returns tt,
        World (<[AdjustGray_Uetsu.OutputPath OutputDir TestImgPath := b]> (files w)) arrs
          (trace w ++ [EvRead TestImgPath;
                       EvWrite (AdjustGray_Uetsu.OutputPath OutputDir TestImgPath)])))
  \/ (exists e fs' arrs tr,
        AdjustGray_Uetsu.Adjust_body TrainMean TrainStd OutputDir Threshold TestImgPath w
        = (Raises e, World fs' arrs (trace w ++ tr))
        /\ (tr = [] \/ tr = [EvRead TestImgPath])
        /\ (fs' = files w
            \/ fs' = <[AdjustGray_Uetsu.OutputPath OutputDir TestImgPath := []]> (files w))).
Proof.
  unfold AdjustGray_Uetsu.Adjust_body, mbind, M_bind, bind.
  rewrite CalcMeanStd_run.
  destruct (files w !! TestImgPath) as [data|].
  2:{ right. exists OSError, (files w), (arrays w), []. rewrite app_nil_r.
      destruct w; auto. }
  destruct (cv2_imdecode data IMREAD_GRAYSCALE) as [[im|]|e].
  2:{ right. exists cv2_error, (files w), (arrays w), [EvRead TestImgPath]. auto. }
  2:{ right. exists e, (files w), (arrays w), [EvRead TestImgPath]. auto. }
  destruct (cv2_meanStdDev im) as [[Mean Std]|e].
  2:{ right. exists e, (files w), (arrays w), [EvRead TestImgPath]. auto. }
  unfold alloc at 1. simpl.
  match goal with
  | |- context [AdjustGray_Uetsu.DrawBlackBasedThreshold ?r ?t ?w1] =>
      rewrite (DrawBlackBasedThreshold_run w1 r t _ (lookup_insert_eq _ _ _))
  end.
  unfold deref; simpl. rewrite lookup_insert_eq.
  rewrite WriteImg_gray_run. simpl.
  destruct (cv2_imencode _ _) as [[ok b]|e].
  2:{ right. eexists e, (files w), _, [EvRead TestImgPath]. auto. }
  destruct (open_wb_ok (files w) _).
  2:{ right. eexists OSError, (files w), _, [EvRead TestImgPath]. auto. }
  destruct b as [|x b].
  - right. eexists AttributeError, _, _, [EvRead TestImgPath]. auto.
  - left. eexists (x :: b), _. by rewrite <- app_assoc.
Qed.

Lemma Adjust_body_trace (TrainMean TrainStd : spec_float) (OutputDir : string)
    (Threshold : Z) (p : string) (w : world) :
  exists tr,
    trace (AdjustGray_Uetsu.Adjust_body TrainMean TrainStd OutputDir Threshold p w).2
    = trace w ++ tr
    /\ tr `prefix_of` [EvRead p; EvWrite (AdjustGray_Uetsu.OutputPath OutputDir p)]
    /\ (forall u,
          (AdjustGray_Uetsu.Adjust_body TrainMean TrainStd OutputDir Threshold p w).1
          = Returns u ->
          tr = [EvRead p; EvWrite (AdjustGray_Uetsu.OutputPath OutputDir p)]).
Proof.
  destruct (Adjust_body_run TrainMean TrainStd OutputDir Threshold p w)
    as [(b & arrs & ->)|(e & fs' & arrs & tr & -> & Htr & _)]; simpl.
  - eexists. split; [done|]. split; done.
  - exists tr. split; [done|]. split; [|done].
    destruct Htr as [->| ->]; [apply prefix_nil | apply prefix_cons, prefix_nil].
Qed.

(** The loop of [GetImgMeanStd] reads the images one after the other and
    changes no file. *)
Lemma GetImgMeanStd_loop_run (paths : list string) (ml sl : list spec_float) (w : world) :
  files (AdjustGray_Uetsu.GetImgMeanStd_loop paths ml sl w).2 = files w
  /\ exists tr,
       trace (AdjustGray_Uetsu.GetImgMeanStd_loop paths ml sl w).2 = trace w ++ tr
       /\ tr `prefix_of` map EvRead paths
       /\ (forall v, (AdjustGray_Uetsu.GetImgMeanStd_loop paths ml sl w).1 = Returns v ->
             tr = map EvRead paths).
Proof.
  revert ml sl w. induction paths as [|p paths IH]; intros ml sl w; simpl.
  - split; [done|]. exists []. by rewrite app_nil_r.
  - unfold mbind, M_bind, bind. rewrite CalcMeanStd_run.
    assert (Hstop : forall (e : exn) (tr t0 : list event),
              tr = [] \/ tr = [EvRead p] -> t0 = trace w ++ tr ->
              exists tr0, t0 = trace w ++ tr0
                /\ tr0 `prefix_of` EvRead p :: map EvRead paths
                /\ (forall v : list spec_float * list spec_float,
                      @Raises (list spec_float * list spec_float) e = Returns v ->
                      tr0 = EvRead p :: map EvRead paths)).
    { intros e tr t0 Htr ->. exists tr. split; [done|]. split; [|done].
      destruct Htr as [->| ->]; [apply prefix_nil | apply prefix_cons, prefix_nil]. }
    destruct (files w !! p) as [data|].
    2:{ split; [done|]. simpl. apply (Hstop OSError []); [auto | by rewrite app_nil_r]. }
    destruct (cv2_imdecode data IMREAD_GRAYSCALE) as [[im|]|e];
      [|split; [done|]; eapply Hstop; [right|]; done..].
    destruct (cv2_meanStdDev im) as [[Mean Std]|e];
      [|split; [done|]; eapply Hstop; [right|]; done].
    destruct (IH (ml ++ [Mean]) (sl ++ [Std]) (logged (EvRead p) w))
      as (Hf & tr & Ht & Hp & Hr).
    split; [by rewrite Hf|].
    exists (EvRead p :: tr). split; [rewrite Ht; simpl; by rewrite <- app_assoc|].
    split; [by apply prefix_cons|]. intros v Hv. by rewrite (Hr v Hv).
Qed.

(** Every run of [Adjust] follows one order: the training images are
    read, the statistics printed, and then, for each test image in turn,
    the image is read and its result written. A run that raises stops
    somewhere along this order; a run that returns has gone through it. *)
Lemma Adjust_order (TrainImgDir TestImgDir ImageExtension OutputDir : string)
    (Threshold : Z) (w : world) :
  exists m s tr,
    trace (AdjustGray_Uetsu.Adjust TrainImgDir TestImgDir ImageExtension OutputDir
             Threshold w).2 = trace w ++ tr
    /\ tr `prefix_of`
         map EvRead (glob_glob (files w) (path_join TrainImgDir (String "*" ImageExtension)))
         ++ [EvPrintStats m s]
         ++ flat_map (fun p => [EvRead p; EvWrite (AdjustGray_Uetsu.OutputPath OutputDir p)])
              (glob_glob (files w) (path_join TestImgDir (String "*" ImageExtension)))
    /\ (forall u,
          (AdjustGray_Uetsu.Adjust TrainImgDir TestImgDir ImageExtension OutputDir
             Threshold w).1 = Returns u ->
          tr = map EvRead
                 (glob_glob (files w) (path_join TrainImgDir (String "*" ImageExtension)))
               ++ [EvPrintStats m s]
               ++ flat_map
                    (fun p => [EvRead p; EvWrite (AdjustGray_Uetsu.OutputPath OutputDir p)])
                    (glob_glob (files w)
                       (path_join TestImgDir (String "*" ImageExtension)))).
Proof.
  unfold AdjustGray_Uetsu.Adjust, AdjustGray_Uetsu.GetImgMeanStd, mbind, M_bind, bind, glob.
  simpl.
  destruct (GetImgMeanStd_loop_run
              (glob_glob (files w) (path_join TrainImgDir (String "*" ImageExtension)))
              [] [] w) as (Hf & tr1 & Ht1 & Hp1 & Hr1).
  destruct (AdjustGray_Uetsu.GetImgMeanStd_loop _ _ _ w) as [[[ml sl]|e] w1]; simpl in *.
  - rewrite (Hr1 _ eq_refl) in Ht1. destruct w1 as [f1 a1 t1]; simpl in *. subst f1 t1.
    destruct (for_each_trace
                (fun p => [EvRead p; EvWrite (AdjustGray_Uetsu.OutputPath OutputDir p)])
                (AdjustGray_Uetsu.Adjust_body (np_mean ml) (np_mean sl) OutputDir Threshold)
                (glob_glob (files w) (path_join TestImgDir (String "*" ImageExtension)))
                (Adjust_body_trace (np_mean ml) (np_mean sl) OutputDir Threshold)
                (World (files w) a1
                   ((trace w
                     ++ map EvRead
                          (glob_glob (files w)
                             (path_join TrainImgDir (String "*" ImageExtension))))
                    ++ [EvPrintStats (np_mean ml) (np_mean sl)])))
      as (tr2 & Ht2 & Hp2 & Hr2).
    eexists (np_mean ml), (np_mean sl), _. split.
    { rewrite Ht2. simpl. rewrite <- !app_assoc. reflexivity. }
    split; [by apply prefix_app, prefix_cons|].
    intros u Hu. by rewrite (Hr2 u Hu).
  - exists S754_nan, S754_nan, tr1. split; [done|]. split; [by apply prefix_app_r | done].
Qed.

(** A run of [Adjust] that returns has read the training images, printed
    the statistics, and then, for each test image in turn, read it and
    written its result. *)
Lemma Adjust_trace (TrainImgDir TestImgDir ImageExtension OutputDir : string)
    (Threshold : Z) (w w' : world) :
  AdjustGray_Uetsu.Adjust TrainImgDir TestImgDir ImageExtension OutputDir Threshold w
    = (Returns tt, w') ->
  exists m s,
    trace w' = trace w
      ++ map EvRead (glob_glob (files w) (path_join TrainImgDir (String "*" ImageExtension)))
      ++ [EvPrintStats m s]
      ++ flat_map (fun p => [EvRead p; EvWrite (AdjustGray_Uetsu.OutputPath OutputDir p)])
           (glob_glob (files w) (path_join TestImgDir (String "*" ImageExtension))).
Proof.
  intros Hrun.
  destruct (Adjust_order TrainImgDir TestImgDir ImageExtension OutputDir Threshold w)
    as (m & s & tr & Ht & _ & Hr).
  rewrite Hrun in Ht, Hr. simpl in *. exists m, s. by rewrite Ht, (Hr tt eq_refl).
Qed.

End Normalization.

Section Segmentation.
Context `{Libs}.

(** The first loop of [RunInf], in [Evaluation]: the images are read and
    scored one after the other, and no file is changed. *)
Lemma Evaluation_loop_run (model : Model) (paths : list string) (ImgSize : nat * nat * nat)
    (acc : list tensor) (w : world) :
  files (EnsembleSeg.Evaluation_loop model paths ImgSize acc w).2 = files w
  /\ exists tr,
       trace (EnsembleSeg.Evaluation_loop model paths ImgSize acc w).2 = trace w ++ tr
       /\ tr `prefix_of` flat_map (fun p => [EvPrintPath p; EvRead p; EvPredict]) paths
       /\ (forall l, (EnsembleSeg.Evaluation_loop model paths ImgSize acc w).1 = Returns l ->
             tr = flat_map (fun p => [EvPrintPath p; EvRead p; EvPredict]) paths
             /\ length l = (length acc + length paths)%nat).
Proof.
  revert acc w. induction paths as [|p paths IH]; intros acc w; simpl.
  - split; [done|]. exists []. rewrite app_nil_r. split; [done|]. split; [done|].
    intros l [= <-]. split; [done | lia].
  - destruct ImgSize as [[h wd] c].
    unfold mbind, M_bind, bind, log; simpl.
    set (rest := flat_map (fun p => [EvPrintPath p; EvRead p; EvPredict]) paths).
    assert (Hstop : forall (e : exn) (tr t0 : list event),
              tr `prefix_of` [EvPrintPath p; EvRead p; EvPredict] -> t0 = trace w ++ tr ->
              exists tr0, t0 = trace w ++ tr0
                /\ tr0 `prefix_of` EvPrintPath p :: EvRead p :: EvPredict :: rest
                /\ (forall l : list tensor, @Raises (list tensor) e = Returns l ->
                      tr0 = EvPrintPath p :: EvRead p :: EvPredict :: rest
                      /\ length l = (length acc + S (length paths))%nat)).
    { intros e tr t0 Htr ->. exists tr. split; [done|]. split; [|done].
      by apply (prefix_app_r _ _ rest) in Htr. }
    destruct (files w !! p) as [data|] eqn:Hf.
    2:{ unfold EnsembleSeg.ReadImg, mbind, M_bind, bind, read_file; simpl. rewrite Hf. simpl.
        split; [done|]. apply (Hstop OSError [EvPrintPath p]); [|done].
        apply prefix_cons, prefix_nil. }
    rewrite (ReadImg_color_run p (World (files w) (arrays w) (trace w ++ [EvPrintPath p]))
               data Hf).
    unfold lift, logged; simpl.
    destruct (cv2_imdecode data IMREAD_COLOR) as [[im|]|e]; simpl.
    2,3: split; [done|]; eapply (Hstop _ [EvPrintPath p; EvRead p]);
         [apply prefix_cons, prefix_cons, prefix_nil | by rewrite <- app_assoc].
    destruct (cv2_resize im wd h) as [im1|e]; simpl.
    2: split; [done|]; eapply (Hstop _ [EvPrintPath p; EvRead p]);
       [apply prefix_cons, prefix_cons, prefix_nil | by rewrite <- app_assoc].
    destruct (Model_predict model _) as [t|e]; simpl.
    2: split; [done|]; eapply (Hstop _ [EvPrintPath p; EvRead p; EvPredict]);
       [done | by rewrite <- !app_assoc].
    match goal with |- context [EnsembleSeg.Evaluation_loop _ _ _ ?a ?v] =>
      destruct (IH a v) as (Hfiles & tr & Ht & Hp & Hr) end.
    split; [by rewrite Hfiles|].
    exists (EvPrintPath p :: EvRead p :: EvPredict :: tr).
    split; [rewrite Ht; simpl; by rewrite <- !app_assoc|].
    split; [by apply prefix_cons, prefix_cons, prefix_cons|].
    intros l Hl. destruct (Hr l Hl) as [-> Hlen]. split; [done|].
    rewrite Hlen, length_app. simpl. lia.
Qed.

(** One turn of the second loop of [RunInf]: the image is read again and
    its mask is written. *)
Lemma RunInf_body_run (ImgSize : nat * nat * nat) (OutputDir : string)
    (item : string * tensor) (w : world) :
  exists tr,
    trace (EnsembleSeg.RunInf_body ImgSize OutputDir item w).2 = trace w ++ tr
    /\ tr `prefix_of` [EvRead item.1; EvWrite (EnsembleSeg.OutputPath OutputDir item.1)]
    /\ (forall u, (EnsembleSeg.RunInf_body ImgSize OutputDir item w).1 = Returns u ->
          tr = [EvRead item.1; EvWrite (EnsembleSeg.OutputPath OutputDir item.1)]).
Proof.
  destruct item as [p t]. unfold EnsembleSeg.RunInf_body, mbind, M_bind, bind; simpl.
  assert (Hstop : forall (e : exn) (tr t0 : list event),
            tr = [] \/ tr = [EvRead p] -> t0 = trace w ++ tr ->
            exists tr0, t0 = trace w ++ tr0
              /\ tr0 `prefix_of` [EvRead p; EvWrite (EnsembleSeg.OutputPath OutputDir p)]
              /\ (forall u : unit, @Raises unit e = Returns u ->
                    tr0 = [EvRead p; EvWrite (EnsembleSeg.OutputPath OutputDir p)])).
  { intros e tr t0 Htr ->. exists tr. split; [done|]. split; [|done].
    destruct Htr as [->| ->]; [apply prefix_nil | apply prefix_cons, prefix_nil]. }
  destruct (files w !! p) as [data|] eqn:Hf.
  2:{ unfold EnsembleSeg.ReadImg, mbind, M_bind, bind, read_file; simpl. rewrite Hf. simpl.
      apply (Hstop OSError []); [auto | by rewrite app_nil_r]. }
  rewrite (ReadImg_color_run p w data Hf).
  unfold lift, logged; simpl.
  destruct (cv2_imdecode data IMREAD_COLOR) as [ImgData|e]; simpl;
    [|eapply Hstop; [right|]; done].
  destruct (EnsembleSeg.ConvertYtoSegImg t ImgSize) as [PredImg|e]; simpl;
    [|eapply Hstop; [right|]; done].
  destruct ImgData as [im|]; simpl; [|eapply Hstop; [right|]; done].
  destruct (cv2_resize _ _ _) as [PredImg1|e]; simpl; [|eapply Hstop; [right|]; done].
  rewrite WriteImg_color_run; simpl.
  destruct (cv2_imencode _ _) as [[ok b]|e]; simpl; [|eapply Hstop; [right|]; done].
  destruct (open_wb_ok _ _); simpl; [|eapply Hstop; [right|]; done].
  destruct b as [|x b]; simpl; [eapply Hstop; [right|]; done|].
  eexists. split; [by rewrite <- app_assoc|]. split; done.
Qed.

Lemma RunInf_body_files (ImgSize : nat * nat * nat) (OutputDir : string)
    (item : string * tensor) (w w' : world) :
  EnsembleSeg.RunInf_body ImgSize OutputDir item w = (Returns tt, w') ->
  exists b, files w' = <[EnsembleSeg.OutputPath OutputDir item.1 := b]> (files w).
Proof.
  destruct item as [p t]. unfold EnsembleSeg.RunInf_body, mbind, M_bind, bind; simpl.
  destruct (files w !! p) as [data|] eqn:Hf.
  2:{ unfold EnsembleSeg.ReadImg, mbind, M_bind, bind, read_file; simpl. by rewrite Hf. }
  rewrite (ReadImg_color_run p w data Hf).
  unfold lift, logged; simpl.
  destruct (cv2_imdecode data IMREAD_COLOR) as [ImgData|e]; simpl; [|done].
  destruct (EnsembleSeg.ConvertYtoSegImg t ImgSize) as [PredImg|e]; simpl; [|done].
  destruct ImgData as [im|]; simpl; [|done].
  destruct (cv2_resize _ _ _) as [PredImg1|e]; simpl; [|done].
  rewrite WriteImg_color_run; simpl.
  destruct (cv2_imencode _ _) as [[ok b]|e]; simpl; [|done].
  destruct (open_wb_ok _ _); simpl; [|done].
  destruct b as [|x b]; simpl; [done|].
  intros [= <-]. by exists (x :: b).
Qed.

Lemma flat_map_zip_fst {A B C} (f : A -> list C) (l : list A) (k : list B) :
  length l = length k -> flat_map (fun item : A * B => f item.1) (zip l k) = flat_map f l.
Proof.
  revert k. induction l as [|x l IH]; intros [|y k] Hlen; simpl in *; try done.
  rewrite IH; [done | lia].
Qed.

(** Every run of [RunInf] follows one order: the model is loaded, every
    image is read and scored, in sorted order, and only then is each
    image, in the same order, read again and its mask written. A run that
    raises stops somewhere along this order; a run that returns has gone
    through it. *)
Lemma RunInf_order (TestImgDir ImageExtension ModelPath OutputDir : string)
    (ImgSize : nat * nat * nat) (w : world) :
  exists tr,
    trace (EnsembleSeg.RunInf TestImgDir ImageExtension ModelPath ImgSize OutputDir w).2
    = trace w ++ tr
    /\ tr `prefix_of`
         [EvLoadModel ModelPath]
         ++ flat_map (fun p => [EvPrintPath p; EvRead p; EvPredict])
              (merge_sort string_le
                 (glob_glob (files w) (path_join TestImgDir (String "*" ImageExtension))))
         ++ flat_map (fun p => [EvRead p; EvWrite (EnsembleSeg.OutputPath OutputDir p)])
              (merge_sort string_le
                 (glob_glob (files w) (path_join TestImgDir (String "*" ImageExtension))))
    /\ (forall u,
          (EnsembleSeg.RunInf TestImgDir ImageExtension ModelPath ImgSize OutputDir w).1
          = Returns u ->
          tr = [EvLoadModel ModelPath]
               ++ flat_map (fun p => [EvPrintPath p; EvRead p; EvPredict])
                    (merge_sort string_le
                       (glob_glob (files w)
                          (path_join TestImgDir (String "*" ImageExtension))))
               ++ flat_map (fun p => [EvRead p; EvWrite (EnsembleSeg.OutputPath OutputDir p)])
                    (merge_sort string_le
                       (glob_glob (files w)
                          (path_join TestImgDir (String "*" ImageExtension))))).
Proof.
  unfold EnsembleSeg.RunInf, EnsembleSeg.Evaluation, mbind, M_bind, bind, glob, log, lift.
  simpl.
  set (ps := merge_sort string_le
               (glob_glob (files w) (path_join TestImgDir (String "*" ImageExtension)))).
  destruct (load_model (files w) ModelPath) as [model|e]; simpl.
  2:{ exists [EvLoadModel ModelPath]. split; [done|].
      split; [apply prefix_cons, prefix_nil | done]. }
  destruct (Evaluation_loop_run model ps ImgSize []
              (World (files w) (arrays w) (trace w ++ [EvLoadModel ModelPath])))
    as (Hf & tr1 & Ht1 & Hp1 & Hr1).
  destruct (EnsembleSeg.Evaluation_loop model ps ImgSize [] _) as [[ls|e] w1]; simpl in *.
  - destruct (Hr1 ls eq_refl) as [-> Hlen].
    destruct (for_each_trace
                (fun item : string * tensor =>
                   [EvRead item.1; EvWrite (EnsembleSeg.OutputPath OutputDir item.1)])
                (EnsembleSeg.RunInf_body ImgSize OutputDir) (zip ps ls)
                (RunInf_body_run ImgSize OutputDir) w1) as (tr2 & Ht2 & Hp2 & Hr2).
    rewrite (flat_map_zip_fst
               (fun p => [EvRead p; EvWrite (EnsembleSeg.OutputPath OutputDir p)]) ps ls)
      in Hp2, Hr2 by lia.
    eexists. split.
    { rewrite Ht2, Ht1, <- !app_assoc. reflexivity. }
    split; [by apply prefix_cons, prefix_app|].
    intros u Hu. by rewrite (Hr2 u Hu).
  - exists (EvLoadModel ModelPath :: tr1). split; [by rewrite Ht1, <- app_assoc|].
    split; [by apply prefix_cons, prefix_app_r | done].
Qed.

(** A run of [RunInf] that returns has loaded the model, then read and
    scored every image, in sorted order, and only then, for each image in
    the same order, read it again and written its mask. *)
Lemma RunInf_trace (TestImgDir ImageExtension ModelPath OutputDir : string)
    (ImgSize : nat * nat * nat) (w w' : world) :
  EnsembleSeg.RunInf TestImgDir ImageExtension ModelPath ImgSize OutputDir w
    = (Returns tt, w') ->
  trace w' = trace w
    ++ [EvLoadModel ModelPath]
    ++ flat_map (fun p => [EvPrintPath p; EvRead p; EvPredict])
         (merge_sort string_le
            (glob_glob (files w) (path_join TestImgDir (String "*" ImageExtension))))
    ++ flat_map (fun p => [EvRead p; EvWrite (EnsembleSeg.OutputPath OutputDir p)])
         (merge_sort string_le
            (glob_glob (files w) (path_join TestImgDir (String "*" ImageExtension)))).
Proof.
  intros Hrun.
  destruct (RunInf_order TestImgDir ImageExtension ModelPath OutputDir ImgSize w)
    as (tr & Ht & _ & Hr).
  rewrite Hrun in Ht, Hr. simpl in *. by rewrite Ht, (Hr tt eq_refl).
Qed.

End Segmentation.

(** ** File names *)

Section Names.

Lemma string_of_list_ascii_app (a b : list ascii) :
  string_of_list_ascii (a ++ b)
  = String.append (string_of_list_ascii a) (string_of_list_ascii b).
Proof. induction a as [|c a IH]; simpl; [done | by rewrite IH]. Qed.

Lemma rfind_from_Some (c : ascii) (l : list ascii) (i : nat) (last : option nat) (k : nat) :
  rfind_from c i l last = Some k ->
  last = Some k \/ exists j, k = (i + j)%nat /\ l !! j = Some c.
Proof.
  revert i last. induction l as [|x l IH]; intros i last Hk; simpl in Hk; [by left|].
  apply IH in Hk as [Hk|(j & -> & Hj)].
  - destruct (Ascii.eqb_spec x c) as [->|Hne]; [|by left].
    injection Hk as <-. right. exists 0%nat. split; [lia | done].
  - right. exists (S j). split; [lia | done].
Qed.

Lemma rfind_Some (c : ascii) (l : list ascii) (k : nat) :
  rfind c l = Some k -> l !! k = Some c.
Proof.
  intros Hk. apply rfind_from_Some in Hk as [Hk|(j & -> & Hj)]; [done | done].
Qed.

(** [splitext] cuts its argument in two, and the second part is empty or
    starts with a dot. *)
Lemma splitext_split (p : string) :
  String.append (splitext p).1 (splitext p).2 = p
  /\ ((splitext p).2 = EmptyString \/ exists rest, (splitext p).2 = String dot rest).
Proof.
  unfold splitext.
  assert (Hnil : forall q : string, String.append q EmptyString = q).
  { induction q as [|c q IH]; [done|]. change (String c (String.append q EmptyString) = String c q).
    by f_equal. }
  destruct (rfind dot (list_ascii_of_string p)) as [i|] eqn:Hdot; simpl; [|by auto].
  destruct (existsb _ _); simpl; [|by auto].
  split.
  - by rewrite <- string_of_list_ascii_app, take_drop, string_of_list_ascii_of_string.
  - right. apply rfind_Some in Hdot.
    rewrite (drop_S _ _ _ Hdot). simpl. by eexists.
Qed.

End Names.

Section Pipelines.
Context `{Libs}.

Lemma written_reads (l : list string) : written (map EvRead l) = [].
Proof. induction l as [|p l IH]; simpl; done. Qed.

Lemma written_blocks (out : string -> string) (l : list string) :
  written (flat_map (fun p => [EvRead p; EvWrite (out p)]) l) = map out l.
Proof.
  induction l as [|p l IH]; [done|].
  change (written (EvRead p :: EvWrite (out p) :: flat_map (fun p => [EvRead p; EvWrite (out p)]) l)
          = out p :: map out l).
  rewrite <- IH. reflexivity.
Qed.

Lemma written_scores (l : list string) :
  written (flat_map (fun p => [EvPrintPath p; EvRead p; EvPredict]) l) = [].
Proof. induction l as [|p l IH]; [done|]. rewrite <- IH. reflexivity. Qed.

Lemma written_app (a b : list event) : written (a ++ b) = written a ++ written b.
Proof. apply omap_app. Qed.

(** After a run of [Adjust] that returns, every output name holds a file. *)
Lemma Adjust_files (TrainImgDir TestImgDir ImageExtension OutputDir : string)
    (Threshold : Z) (w w' : world) :
  AdjustGray_Uetsu.Adjust TrainImgDir TestImgDir ImageExtension OutputDir Threshold w
    = (Returns tt, w') ->
  forall p, p ∈ glob_glob (files w) (path_join TestImgDir (String "*" ImageExtension)) ->
    is_Some (files w' !! AdjustGray_Uetsu.OutputPath OutputDir p).
Proof.
  unfold AdjustGray_Uetsu.Adjust, AdjustGray_Uetsu.GetImgMeanStd, mbind, M_bind, bind, glob.
  simpl.
  destruct (GetImgMeanStd_loop_run
              (glob_glob (files w) (path_join TrainImgDir (String "*" ImageExtension)))
              [] [] w) as [Hf _].
  destruct (AdjustGray_Uetsu.GetImgMeanStd_loop _ _ _ w) as [[[ml sl]|e] w1]; [|discriminate].
  simpl in *. rewrite Hf.
  intros Hloop.
  apply (for_each_files (AdjustGray_Uetsu.OutputPath OutputDir)) in Hloop; [tauto|].
  intros x v v' Hb.
  destruct (Adjust_body_run (np_mean ml) (np_mean sl) OutputDir Threshold x v)
    as [(b & arrs & Hr)|(e & fs' & arrs & tr & Hr & _)]; rewrite Hr in Hb; [|discriminate].
  injection Hb as <-. by exists b.
Qed.

Lemma elem_of_zip_fst {A B} (l : list A) (k : list B) (x : A) :
  length l = length k -> x ∈ l -> exists y, (x, y) ∈ zip l k.
Proof.
  revert k. induction l as [|a l IH]; intros [|b k] Hlen Hx; simpl in *; try done.
  - by apply elem_of_nil in Hx.
  - apply elem_of_cons in Hx as [->|Hx].
    + exists b. apply list_elem_of_here.
    + destruct (IH k ltac:(lia) Hx) as [y Hy]. exists y. by apply list_elem_of_further.
Qed.

(** After a run of [RunInf] that returns, every output name holds a file. *)
Lemma RunInf_files (TestImgDir ImageExtension ModelPath OutputDir : string)
    (ImgSize : nat * nat * nat) (w w' : world) :
  EnsembleSeg.RunInf TestImgDir ImageExtension ModelPath ImgSize OutputDir w
    = (Returns tt, w') ->
  forall p,
    p ∈ merge_sort string_le
          (glob_glob (files w) (path_join TestImgDir (String "*" ImageExtension))) ->
    is_Some (files w' !! EnsembleSeg.OutputPath OutputDir p).
Proof.
  unfold EnsembleSeg.RunInf, EnsembleSeg.Evaluation, mbind, M_bind, bind, glob, log, lift.
  simpl.
  set (ps := merge_sort string_le
               (glob_glob (files w) (path_join TestImgDir (String "*" ImageExtension)))).
  destruct (load_model (files w) ModelPath) as [model|e]; simpl; [|discriminate].
  destruct (Evaluation_loop_run model ps ImgSize []
              (World (files w) (arrays w) (trace w ++ [EvLoadModel ModelPath])))
    as (Hf & tr1 & Ht1 & Hp1 & Hr1).
  destruct (EnsembleSeg.Evaluation_loop model ps ImgSize [] _) as [[ls|e] w1]; simpl in *;
    [|discriminate].
  destruct (Hr1 ls eq_refl) as [_ Hlen].
  intros Hloop p Hp.
  apply (for_each_files (fun item : string * tensor =>
                           EnsembleSeg.OutputPath OutputDir item.1)) in Hloop;
    [|apply RunInf_body_files].
  destruct (elem_of_zip_fst ps ls p ltac:(lia) Hp) as [t Ht].
  exact (proj1 Hloop (p, t) Ht).
Qed.

(** C6, as the code has it. Every run of [Adjust], whether it returns or
    raises, goes along one order: the training images are read, the
    statistics printed, and then the test images are treated strictly one
    at a time, each being read and its result written before the next is
    read. Every run of [RunInf] goes along an order of two passes: the
    model is loaded, every image is read and scored, one at a time in
    sorted order, and only then is each image read again and its mask
    written, one at a time in the same order. A run that returns has gone
    through the whole of its order. *)
Theorem runs_in_order :
  (forall (TrainImgDir TestImgDir ImageExtension OutputDir : string) (Threshold : Z)
          (w : world),
     exists m s tr,
       trace (AdjustGray_Uetsu.Adjust TrainImgDir TestImgDir ImageExtension OutputDir
                Threshold w).2 = trace w ++ tr
       /\ tr `prefix_of`
            map EvRead
              (glob_glob (files w) (path_join TrainImgDir (String "*" ImageExtension)))
            ++ [EvPrintStats m s]
            ++ flat_map
                 (fun p => [EvRead p; EvWrite (AdjustGray_Uetsu.OutputPath OutputDir p)])
                 (glob_glob (files w) (path_join TestImgDir (String "*" ImageExtension)))
       /\ ((AdjustGray_Uetsu.Adjust TrainImgDir TestImgDir ImageExtension OutputDir
              Threshold w).1 = Returns tt ->
           tr = map EvRead
                  (glob_glob (files w) (path_join TrainImgDir (String "*" ImageExtension)))
                ++ [EvPrintStats m s]
                ++ flat_map
                     (fun p => [EvRead p; EvWrite (AdjustGray_Uetsu.OutputPath OutputDir p)])
                     (glob_glob (files w)
                        (path_join TestImgDir (String "*" ImageExtension)))))
  /\ (forall (TestImgDir ImageExtension ModelPath OutputDir : string)
             (ImgSize : nat * nat * nat) (w : world),
        exists tr,
          trace (EnsembleSeg.RunInf TestImgDir ImageExtension ModelPath ImgSize OutputDir
                   w).2 = trace w ++ tr
          /\ tr `prefix_of`
               [EvLoadModel ModelPath]
               ++ flat_map (fun p => [EvPrintPath p; EvRead p; EvPredict])
                    (merge_sort string_le
                       (glob_glob (files w)
                          (path_join TestImgDir (String "*" ImageExtension))))
               ++ flat_map (fun p => [EvRead p; EvWrite (EnsembleSeg.OutputPath OutputDir p)])
                    (merge_sort string_le
                       (glob_glob (files w)
                          (path_join TestImgDir (String "*" ImageExtension))))
          /\ ((EnsembleSeg.RunInf TestImgDir ImageExtension ModelPath ImgSize OutputDir
                 w).1 = Returns tt ->
              tr = [EvLoadModel ModelPath]
                   ++ flat_map (fun p => [EvPrintPath p; EvRead p; EvPredict])
                        (merge_sort string_le
                           (glob_glob (files w)
                              (path_join TestImgDir (String "*" ImageExtension))))
                   ++ flat_map
                        (fun p => [EvRead p; EvWrite (EnsembleSeg.OutputPath OutputDir p)])
                        (merge_sort string_le
                           (glob_glob (files w)
                              (path_join TestImgDir (String "*" ImageExtension)))))).
Proof.
  split.
  - intros TrainImgDir TestImgDir ImageExtension OutputDir Threshold w.
    destruct (Adjust_order TrainImgDir TestImgDir ImageExtension OutputDir Threshold w)
      as (m & s & tr & Ht & Hp & Hr).
    exists m, s, tr. split; [done|]. split; [done|]. intros Hret. exact (Hr tt Hret).
  - intros TestImgDir ImageExtension ModelPath OutputDir ImgSize w.
    destruct (RunInf_order TestImgDir ImageExtension ModelPath OutputDir ImgSize w)
      as (tr & Ht & Hp & Hr).
    exists tr. split; [done|]. split; [done|]. intros Hret. exact (Hr tt Hret).
Qed.

(** C9. A run of [Adjust] that returns has written, for the test images
    in turn, exactly the files [OutputPath OutputDir p], and each of them
    exists afterwards; a run of [RunInf] that returns has written exactly
    the files [OutputPath OutputDir p] of the segmentation script, which
    exist afterwards as well. The
    name is [OutputDir] joined with the base name of the input, its
    extension (the part [splitext] cuts off, empty or starting at the
    last dot) replaced by [.png], respectively by [_Seg.jpg]:
    [foo.bmp] gives [foo.png] and [bar.png] gives [bar_Seg.jpg]. *)
Theorem output_names :
  (forall (TrainImgDir TestImgDir ImageExtension OutputDir : string) (Threshold : Z)
          (w w' : world),
     AdjustGray_Uetsu.Adjust TrainImgDir TestImgDir ImageExtension OutputDir Threshold w
       = (Returns tt, w') ->
     written (trace w') = written (trace w)
       ++ map (AdjustGray_Uetsu.OutputPath OutputDir)
            (glob_glob (files w) (path_join TestImgDir (String "*" ImageExtension)))
     /\ forall p,
          p ∈ glob_glob (files w) (path_join TestImgDir (String "*" ImageExtension)) ->
          is_Some (files w' !! AdjustGray_Uetsu.OutputPath OutputDir p))
  /\ (forall (TestImgDir ImageExtension ModelPath OutputDir : string)
             (ImgSize : nat * nat * nat) (w w' : world),
        EnsembleSeg.RunInf TestImgDir ImageExtension ModelPath ImgSize OutputDir w
          = (Returns tt, w') ->
        written (trace w') = written (trace w)
          ++ map (EnsembleSeg.OutputPath OutputDir)
               (merge_sort string_le
                  (glob_glob (files w) (path_join TestImgDir (String "*" ImageExtension))))
        /\ forall p,
             p ∈ merge_sort string_le
                   (glob_glob (files w)
                      (path_join TestImgDir (String "*" ImageExtension))) ->
             is_Some (files w' !! EnsembleSeg.OutputPath OutputDir p))
  /\ (forall OutputDir p : string,
        let stem := (splitext (basename p)).1 in
        let ext := (splitext (basename p)).2 in
        String.append stem ext = basename p
        /\ (ext = EmptyString \/ exists rest, ext = String dot rest)
        /\ AdjustGray_Uetsu.OutputPath OutputDir p
           = path_join OutputDir (String.append stem ".png")
        /\ EnsembleSeg.OutputPath OutputDir p
           = path_join OutputDir (String.append stem "_Seg.jpg"))
  /\ AdjustGray_Uetsu.OutputPath "out" "in/foo.bmp" = "out/foo.png"%string
  /\ EnsembleSeg.OutputPath "out" "in/bar.png" = "out/bar_Seg.jpg"%string.
Proof.
  split; [|split; [|split; [|split]]].
  - intros ? ? ? ? ? w w' Hrun. split; [|by eapply Adjust_files].
    destruct (Adjust_trace _ _ _ _ _ _ _ Hrun) as (m & s & ->).
    rewrite !written_app, written_reads, written_blocks. done.
  - intros ? ? ? ? ? w w' Hrun. split; [|by eapply RunInf_files].
    rewrite (RunInf_trace _ _ _ _ _ _ _ Hrun).
    rewrite !written_app, written_scores, written_blocks. done.
  - intros OutputDir p. simpl.
    destruct (splitext_split (basename p)) as [Hsplit Hext]. auto.
  - reflexivity.
  - reflexivity.
Qed.

End Pipelines.

Section Runs.

Lemma runs_in_order_witness :
  (exists m s,
     trace (AdjustGray_Uetsu.Adjust (H := Mock.libs nep50) "train" "test" ".png" "out" 0
              Mock.w0).2
     = trace Mock.w0
       ++ map EvRead (Mock.list_files (files Mock.w0) (path_join "train" "*.png"))
       ++ [EvPrintStats m s]
       ++ flat_map (fun p => [EvRead p; EvWrite (AdjustGray_Uetsu.OutputPath "out" p)])
            (Mock.list_files (files Mock.w0) (path_join "test" "*.png")))
  /\ trace (EnsembleSeg.RunInf (H := Mock.libs nep50) "test" ".png" "model.h5" (2, 2, 3)%nat
              "out" Mock.w0).2
     = trace Mock.w0
       ++ [EvLoadModel "model.h5"]
       ++ flat_map (fun p => [EvPrintPath p; EvRead p; EvPredict])
            (merge_sort string_le
               (Mock.list_files (files Mock.w0) (path_join "test" "*.png")))
       ++ flat_map (fun p => [EvRead p; EvWrite (EnsembleSeg.OutputPath "out" p)])
            (merge_sort string_le
               (Mock.list_files (files Mock.w0) (path_join "test" "*.png"))).
Proof.
  destruct (runs_in_order (H := Mock.libs nep50)) as [HA HR]. split.
  - destruct (HA "train" "test" ".png" "out" 0 Mock.w0)%string as (m & s & tr & Ht & _ & Hr).
    exists m, s. rewrite Ht. f_equal. apply Hr. vm_compute. reflexivity.
  - destruct (HR "test" ".png" "model.h5" "out" (2, 2, 3)%nat Mock.w0)%string
      as (tr & Ht & _ & Hr).
    rewrite Ht. f_equal. apply Hr. vm_compute. reflexivity.
Defined.

(** C6, as stated, fails for the segmentation script: in a run over two
    images the second image is read, and scored, when nothing has been
    written yet; the mask of the first image is written only later. *)
Lemma RunInf_reads_ahead :
  let run := EnsembleSeg.RunInf (H := Mock.libs nep50) "test" ".png" "model.h5"
               (2, 2, 3)%nat "out" Mock.w0 in
  run.1 = Returns tt
  /\ trace run.2 !! 5%nat = Some (EvRead "test/b.png")
  /\ trace run.2 !! 6%nat = Some EvPredict
  /\ written (take 7 (trace run.2)) = []
  /\ trace run.2 !! 8%nat = Some (EvWrite "out/a_Seg.jpg").
Proof. vm_compute. repeat split; reflexivity. Qed.

Lemma output_names_witness :
  (exists w',
     AdjustGray_Uetsu.Adjust (H := Mock.libs nep50) "train" "test" ".png" "out" 0 Mock.w0
       = (Returns tt, w')
     /\ written (trace w') = ["out/a.png"; "out/b.png"]%string
     /\ is_Some (files w' !! "out/a.png"%string))
  /\ (exists w',
        EnsembleSeg.RunInf (H := Mock.libs nep50) "test" ".png" "model.h5" (2, 2, 3)%nat "out"
          Mock.w0 = (Returns tt, w')
        /\ written (trace w') = ["out/a_Seg.jpg"; "out/b_Seg.jpg"]%string).
Proof.
  destruct (output_names (H := Mock.libs nep50)) as (HA & HR & _). split.
  - assert (Hrun :
      AdjustGray_Uetsu.Adjust (H := Mock.libs nep50) "train" "test" ".png" "out" 0 Mock.w0
      = (Returns tt,
         (AdjustGray_Uetsu.Adjust (H := Mock.libs nep50) "train" "test" ".png" "out" 0
            Mock.w0).2)) by (vm_compute; reflexivity).
    destruct (HA _ _ _ _ _ _ _ Hrun) as [Hw Hf].
    eexists. split; [exact Hrun|]. split.
    + rewrite Hw. vm_compute. reflexivity.
    + apply (Hf "test/a.png"%string). vm_compute. apply list_elem_of_here.
  - assert (Hrun :
      EnsembleSeg.RunInf (H := Mock.libs nep50) "test" ".png" "model.h5" (2, 2, 3)%nat "out"
        Mock.w0
      = (Returns tt,
         (EnsembleSeg.RunInf (H := Mock.libs nep50) "test" ".png" "model.h5" (2, 2, 3)%nat
            "out" Mock.w0).2)) by (vm_compute; reflexivity).
    eexists. split; [exact Hrun|].
    rewrite (proj1 (HR _ _ _ _ _ _ _ Hrun)). vm_compute. reflexivity.
Defined.

End Runs.

(** ** Rounding keeps the mantissa within the precision *)

Section RoundingBounds.
Variables prec emax : Z.
Hypothesis Hprec : 0 < prec.

Lemma digits2_pos_gt (p : positive) : Z.pos p < 2 ^ Z.pos (digits2_pos p).
Proof.
  induction p as [p IH|p IH|]; simpl digits2_pos; rewrite ?Pos2Z.inj_succ, ?Z.pow_succ_r by lia;
    lia.
Qed.

Lemma Zdigits2_gt (m : Z) : 0 <= m -> m < 2 ^ Zdigits2 m.
Proof.
  destruct m as [|p|p]; simpl; intros Hm; [lia | apply digits2_pos_gt | lia].
Qed.

Lemma shr_1_m (mrs : shr_record) : 0 <= shr_m mrs -> shr_m (shr_1 mrs) = shr_m mrs / 2.
Proof.
  destruct mrs as [m r s]. simpl. intros Hm.
  destruct m as [|[p|p|]|p]; simpl shr_m; try reflexivity; try lia.
  - apply Z.div_unique with 1; lia.
  - apply Z.div_unique with 0; lia.
Qed.

Lemma iter_shr_1_m (p : positive) (mrs : shr_record) :
  0 <= shr_m mrs -> shr_m (SpecFloat.iter_pos shr_1 p mrs) = shr_m mrs / 2 ^ Z.pos p.
Proof.
  revert mrs. induction p as [p IH|p IH|]; intros mrs Hm; simpl SpecFloat.iter_pos.
  - assert (H1 : 0 <= shr_m (shr_1 mrs)) by (rewrite shr_1_m by done; apply Z.div_pos; lia).
    assert (H2 : 0 <= shr_m (SpecFloat.iter_pos shr_1 p (shr_1 mrs)))
      by (rewrite IH by done; apply Z.div_pos; lia).
    rewrite IH, IH, shr_1_m by done.
    rewrite !Z.div_div by lia. f_equal.
    replace (Z.pos p~1) with (1 + Z.pos p + Z.pos p) by lia.
    rewrite !Z.pow_add_r by lia. lia.
  - assert (H2 : 0 <= shr_m (SpecFloat.iter_pos shr_1 p mrs))
      by (rewrite IH by done; apply Z.div_pos; lia).
    rewrite IH, IH by done. rewrite Z.div_div by lia. f_equal.
    replace (Z.pos p~0) with (Z.pos p + Z.pos p) by lia.
    rewrite !Z.pow_add_r by lia. lia.
  - rewrite shr_1_m by done. by rewrite Z.pow_1_r.
Qed.

Lemma fexp_ge (x : Z) : x - prec <= fexp prec emax x.
Proof. unfold fexp. lia. Qed.

(** Shifting to the exponent of the format leaves fewer than [2 ^ prec]. *)
Lemma shr_fexp_bound (m e : Z) (l : location) :
  0 <= m -> 0 <= shr_m (fst (shr_fexp prec emax m e l)) < 2 ^ prec.
Proof.
  intros Hm. unfold shr_fexp, shr.
  pose proof (fexp_ge (Zdigits2 m + e)) as Hf.
  pose proof (Zdigits2_gt m Hm) as Hd.
  assert (Hsm : shr_m (shr_record_of_loc m l) = m) by (by destruct l as [|[]]).
  destruct (fexp prec emax (Zdigits2 m + e) - e) as [|k|k] eqn:Hk; simpl fst.
  - rewrite Hsm. split; [done|].
    apply Z.lt_le_trans with (2 ^ Zdigits2 m); [done|]. apply Z.pow_le_mono_r; lia.
  - rewrite iter_shr_1_m by (rewrite Hsm; done). rewrite Hsm. split.
    + apply Z.div_pos; lia.
    + apply Z.div_lt_upper_bound; [lia|]. rewrite <- Z.pow_add_r by lia.
      apply Z.lt_le_trans with (2 ^ Zdigits2 m); [done|].
      apply Z.pow_le_mono_r; lia.
  - rewrite Hsm. split; [done|].
    apply Z.lt_le_trans with (2 ^ Zdigits2 m); [done|]. apply Z.pow_le_mono_r; lia.
Qed.

Lemma round_nearest_even_nonneg (m : Z) (l : location) :
  0 <= m -> 0 <= round_nearest_even m l.
Proof. intros Hm. destruct l as [|[]]; simpl; try done; try lia. destruct (Z.even m); lia. Qed.

(** The result of rounding a non-negative mantissa is never NaN, and a
    finite result has a mantissa below [2 ^ prec]. *)
Lemma binary_round_aux_bound (sx : bool) (mx ex : Z) (lx : location) :
  0 <= mx ->
  match binary_round_aux prec emax sx mx ex lx with
  | S754_nan => False
  | S754_finite _ m _ => Z.pos m < 2 ^ prec
  | _ => True
  end.
Proof.
  intros Hm. unfold binary_round_aux.
  pose proof (shr_fexp_bound mx ex lx Hm) as H1.
  destruct (shr_fexp prec emax mx ex lx) as [mrs1 e1]. simpl in H1.
  pose proof (round_nearest_even_nonneg (shr_m mrs1) (loc_of_shr_record mrs1) (proj1 H1)) as H2.
  pose proof (shr_fexp_bound _ e1 loc_Exact H2) as H3.
  destruct (shr_fexp prec emax _ e1 loc_Exact) as [mrs2 e2]. simpl in H3.
  destruct (shr_m mrs2) as [|m|m]; [done| |lia].
  destruct (e2 <=? emax - prec); [lia | done].
Qed.

Lemma binary_round_bound (sx : bool) (mx : positive) (ex : Z) :
  match binary_round prec emax sx mx ex with
  | S754_nan => False
  | S754_finite _ m _ => Z.pos m < 2 ^ prec
  | _ => True
  end.
Proof.
  unfold binary_round. destruct (shl_align _ _ _) as [mz ez].
  apply binary_round_aux_bound. lia.
Qed.

Lemma binary_normalize_bound (m e : Z) (sz : bool) :
  match binary_normalize prec emax m e sz with
  | S754_nan => False
  | S754_finite _ m _ => Z.pos m < 2 ^ prec
  | _ => True
  end.
Proof. destruct m; simpl; [done | apply binary_round_bound..]. Qed.

End RoundingBounds.

(** ** Float operations of the two formats *)

Section Formats.

Lemma prec_of_pos (dt : dtype) : 0 < prec_of dt.
Proof. by destruct dt. Qed.

Lemma SFcast_bounded (dt : dtype) (v : spec_float) : mantissa_bounded dt (SFcast dt v).
Proof.
  destruct v as [s|s| |s m e]; simpl; try done.
  pose proof (binary_round_bound (prec_of dt) (emax_of dt) (prec_of_pos dt) s m e) as Hb.
  unfold mantissa_bounded. by destruct (binary_round _ _ _ _ _).
Qed.

Lemma SFcast_not_nan (dt : dtype) (v : spec_float) :
  is_nan v = false -> is_nan (SFcast dt v) = false.
Proof.
  destruct v as [s|s| |s m e]; simpl; try done. intros _.
  pose proof (binary_round_bound (prec_of dt) (emax_of dt) (prec_of_pos dt) s m e) as Hb.
  by destruct (binary_round _ _ _ _ _).
Qed.

Lemma f_mul_not_nan (dt : dtype) (a b : spec_float) :
  is_finite a = true -> is_finite b = true -> is_nan (f_mul dt a b) = false.
Proof.
  destruct a as [sa|sa| |sa ma ea], b as [sb|sb| |sb mb eb]; simpl; try done. intros _ _.
  pose proof (binary_round_aux_bound (prec_of dt) (emax_of dt) (prec_of_pos dt)
                (xorb sa sb) (Z.pos (ma * mb)) (ea + eb) loc_Exact ltac:(lia)) as Hb.
  unfold f_mul, SFmul. by destruct (binary_round_aux _ _ _ _ _ _).
Qed.

Lemma f_add_not_nan (dt : dtype) (a b : spec_float) :
  is_nan a = false -> is_finite b = true -> is_nan (f_add dt a b) = false.
Proof.
  destruct a as [sa|sa| |sa ma ea], b as [sb|sb| |sb mb eb]; simpl; try done;
    try (by destruct sa, sb).
  intros _ _. unfold f_add, SFadd.
  match goal with |- context [binary_normalize ?p ?x ?m ?e ?z] =>
    pose proof (binary_normalize_bound p x (prec_of_pos dt) m e z) as Hb;
    by destruct (binary_normalize p x m e z) end.
Qed.

Lemma f_add_bounded (dt : dtype) (a b : spec_float) :
  mantissa_bounded dt a -> mantissa_bounded dt b -> mantissa_bounded dt (f_add dt a b).
Proof.
  destruct a as [sa|sa| |sa ma ea], b as [sb|sb| |sb mb eb]; simpl; try done;
    try (by destruct sa, sb).
  intros _ _. unfold f_add, SFadd.
  match goal with |- context [binary_normalize ?p ?x ?m ?e ?z] =>
    pose proof (binary_normalize_bound p x (prec_of_pos dt) m e z) as Hb;
    by destruct (binary_normalize p x m e z) end.
Qed.

Lemma SF_of_Z_0 (dt : dtype) : SF_of_Z dt 0 = S754_zero false.
Proof. reflexivity. Qed.

Lemma SF_of_Z_255 (dt : dtype) :
  SF_of_Z dt 255 = S754_finite false (Z.to_pos (255 * 2 ^ (prec_of dt - 8))) (8 - prec_of dt).
Proof. by destruct dt. Qed.

(** [np.clip] lets a NaN through and brings everything else into
    [0, 255]. *)
Lemma clip1_nan (dt : dtype) (v : spec_float) :
  is_nan (clip1 dt 0 255 v) = is_nan v.
Proof.
  unfold clip1, np_minimum, np_maximum.
  destruct (is_nan v) eqn:Hv; [by rewrite Hv|].
  destruct (SFltb (SF_of_Z dt 0) v).
  - rewrite Hv. destruct (SFltb v (SF_of_Z dt 255)); [done | by destruct dt].
  - by destruct dt.
Qed.

Lemma clip1_range (dt : dtype) (v : spec_float) :
  is_nan v = false ->
  SFleb (SF_of_Z dt 0) (clip1 dt 0 255 v) = true
  /\ SFleb (clip1 dt 0 255 v) (SF_of_Z dt 255) = true
  /\ (clip1 dt 0 255 v = SF_of_Z dt 0 \/ clip1 dt 0 255 v = SF_of_Z dt 255
      \/ clip1 dt 0 255 v = v).
Proof.
  intros Hv. unfold clip1, np_minimum, np_maximum. rewrite Hv.
  assert (H0 : is_nan (SF_of_Z dt 0) = false) by done.
  assert (H255 : is_nan (SF_of_Z dt 255) = false) by (by destruct dt).
  assert (H0255 : SFltb (SF_of_Z dt 0) (SF_of_Z dt 255) = true) by (by destruct dt).
  destruct (SFltb (SF_of_Z dt 0) v) eqn:Hlo.
  - rewrite Hv. destruct (SFltb v (SF_of_Z dt 255)) eqn:Hhi.
    + split; [by apply SFltb_leb|]. split; [by apply SFltb_leb | auto].
    + split; [by apply SFltb_leb|]. split; [by apply SFleb_refl | auto].
  - rewrite H0, H0255. split; [by apply SFleb_refl|]. split; [by apply SFltb_leb | auto].
Qed.

Lemma clip1_bounded (dt : dtype) (v : spec_float) :
  mantissa_bounded dt v -> mantissa_bounded dt (clip1 dt 0 255 v).
Proof.
  intros Hb. unfold clip1, np_minimum, np_maximum.
  assert (H255 : mantissa_bounded dt (SF_of_Z dt 255)) by (destruct dt; vm_compute; done).
  destruct (is_nan v) eqn:Hv; [by rewrite Hv|].
  destruct (SFltb (SF_of_Z dt 0) v).
  - rewrite Hv. by destruct (SFltb v (SF_of_Z dt 255)).
  - by destruct dt.
Qed.

End Formats.

(** ** Narrowing to [uint8] *)

Section Narrowing.

Lemma shiftl_neg (m : positive) (e : Z) :
  e < 0 -> Z.shiftl (Z.pos m) e = Z.pos m / 2 ^ (- e).
Proof.
  intros He. rewrite <- Z.shiftr_opp_r. apply Z.shiftr_div_pow2. lia.
Qed.

(** [SFtrunc] is truncation toward zero of the exact value. *)
Lemma SFtrunc_Qtrunc (v : spec_float) (n : Z) :
  SFtrunc v = Some n -> n = Qtrunc (SF2Q v).
Proof.
  destruct v as [s|s| |s m e]; simpl; try done.
  - by intros [= <-].
  - intros [= <-]. unfold Qtrunc.
    destruct e as [|p|p].
    + rewrite Z.shiftl_0_r. simpl Z.pow. rewrite Z.mul_1_r.
      destruct s; simpl; [|by rewrite Z.div_1_r].
      unfold Qceiling. simpl. by rewrite Z.div_1_r.
    + rewrite Z.shiftl_mul_pow2 by lia.
      assert (Hpos : 0 < Z.pos m * 2 ^ Z.pos p) by (apply Z.mul_pos_pos; lia).
      destruct s; simpl cond_Zopp.
      * replace (- inject_Z (Z.pos m * 2 ^ Z.pos p))%Q
          with (inject_Z (- (Z.pos m * 2 ^ Z.pos p))) by reflexivity.
        replace (Qle_bool 0 (inject_Z (- (Z.pos m * 2 ^ Z.pos p)))) with false.
        -- unfold Qceiling.
           replace (- inject_Z (- (Z.pos m * 2 ^ Z.pos p)))%Q
             with (inject_Z (Z.pos m * 2 ^ Z.pos p))
             by (unfold inject_Z, Qopp; simpl; by rewrite Z.opp_involutive).
           by rewrite Qfloor_Z.
        -- symmetry. unfold Qle_bool, inject_Z. simpl. apply Z.leb_gt. lia.
      * replace (Qle_bool 0 (inject_Z (Z.pos m * 2 ^ Z.pos p))) with true.
        -- by rewrite Qfloor_Z.
        -- symmetry. unfold Qle_bool, inject_Z. simpl. apply Z.leb_le. lia.
    + rewrite shiftl_neg by lia. simpl Z.opp.
      destruct s; simpl.
      * unfold Qceiling. simpl. by rewrite Pos2Z.inj_pow.
      * by rewrite Pos2Z.inj_pow.
Qed.

(** A float between 0 and 255 whose mantissa fits the precision narrows
    to its truncation, without wrapping. *)
Lemma uint8_of_clamped (dt : dtype) (c : spec_float) :
  is_nan c = false -> mantissa_bounded dt c ->
  SFleb (SF_of_Z dt 0) c = true -> SFleb c (SF_of_Z dt 255) = true ->
  exists n, SFtrunc c = Some n /\ 0 <= n <= 255 /\ uint8_of_float c = n.
Proof.
  intros Hnan Hb Hlo Hhi.
  assert (H255 : is_nan (SF_of_Z dt 255) = false) by (by destruct dt).
  apply SFleb_key in Hlo; [|done..]. apply SFleb_key in Hhi; [|done..].
  rewrite SF_of_Z_255 in Hhi. rewrite SF_of_Z_0 in Hlo.
  assert (Hm255 : Z.pos (Z.to_pos (255 * 2 ^ (prec_of dt - 8))) = 255 * 2 ^ (prec_of dt - 8))
    by (by destruct dt).
  destruct c as [s|s| |s m e]; try done.
  - exists 0. by unfold uint8_of_float.
  - destruct s; simpl in Hlo, Hhi; lia.
  - destruct s; [simpl in Hlo; lia|].
    unfold key_lt in Hhi. simpl SFkey in Hhi. rewrite Hm255 in Hhi.
    unfold mantissa_bounded in Hb.
    assert (He : e < 0) by (destruct dt; simpl in Hhi; lia).
    assert (Hn : 0 <= Z.pos m / 2 ^ (- e) <= 255).
    { split; [apply Z.div_pos; lia|].
      apply Z.lt_succ_r. apply Z.div_lt_upper_bound; [lia|].
      destruct (Z.eq_dec e (8 - prec_of dt)) as [->|Hne].
      - assert (Hm : Z.pos m <= 255 * 2 ^ (prec_of dt - 8)) by lia.
        replace (- (8 - prec_of dt)) with (prec_of dt - 8) by lia. lia.
      - assert (Hlt : e < 8 - prec_of dt) by lia.
        assert (Hpow : 2 ^ prec_of dt <= 2 ^ (- e) * 2 ^ 7).
        { rewrite <- Z.pow_add_r by (destruct dt; simpl in *; lia).
          apply Z.pow_le_mono_r; [lia|]. lia. }
        replace (2 ^ 7) with 128 in Hpow by reflexivity. lia. }
    exists (Z.pos m / 2 ^ (- e)). unfold uint8_of_float. simpl.
    rewrite shiftl_neg by done. split; [done|]. split; [done|].
    apply Z.mod_small. lia.
Qed.

End Narrowing.

(** ** AdjustImage *)

Section Adjust.
Context `{Libs}.

(** The array program computes, sample by sample, the clamped affine
    value. *)
Lemma AdjustImage_clipped_data (img : Image) (m s tm ts : scalar) :
  fa_shape (AdjustGray_Uetsu.AdjustImage_clipped img m s tm ts) = img_shape img
  /\ fa_data (AdjustGray_Uetsu.AdjustImage_clipped img m s tm ts)
     = map (fun x => clamp (sample_affine np_promote x m s tm ts)) (img_data img).
Proof.
  split; [done|].
  unfold AdjustGray_Uetsu.AdjustImage_clipped, np_clip, arr_add, arr_mul, arr_truediv,
    arr_sub, arr_scalar_op, astype_float32; simpl.
  rewrite !List.map_map. reflexivity.
Qed.

Lemma uint8_of_float_range (v : spec_float) : 0 <= uint8_of_float v <= 255.
Proof.
  unfold uint8_of_float. destruct (SFtrunc v) as [z|]; [|lia].
  pose proof (Z.mod_pos_bound z 256). lia.
Qed.

Lemma sample_affine_bounded (x : Z) (m s tm ts : scalar) :
  mantissa_bounded (sample_affine np_promote x m s tm ts).1
    (sample_affine np_promote x m s tm ts).2.
Proof. unfold sample_affine, elt_op; simpl. apply f_add_bounded; apply SFcast_bounded. Qed.

(** What a sample becomes when its affine value is not NaN. *)
Lemma clamped_sample (x : Z) (m s tm ts : scalar) :
  is_nan (sample_affine np_promote x m s tm ts).2 = false ->
  is_nan (clamp (sample_affine np_promote x m s tm ts)) = false
  /\ SFleb (SF_of_Z (sample_affine np_promote x m s tm ts).1 0)
       (clamp (sample_affine np_promote x m s tm ts)) = true
  /\ SFleb (clamp (sample_affine np_promote x m s tm ts))
       (SF_of_Z (sample_affine np_promote x m s tm ts).1 255) = true
  /\ exists n, SFtrunc (clamp (sample_affine np_promote x m s tm ts)) = Some n
       /\ 0 <= n <= 255
       /\ uint8_of_float (clamp (sample_affine np_promote x m s tm ts)) = n.
Proof.
  intros Hnan. set (v := sample_affine np_promote x m s tm ts) in *.
  assert (Hc : is_nan (clamp v) = false) by (unfold clamp; by rewrite clip1_nan).
  destruct (clip1_range v.1 v.2 Hnan) as (Hlo & Hhi & _).
  split; [done|]. split; [done|]. split; [done|].
  apply (uint8_of_clamped v.1); try done.
  apply clip1_bounded, sample_affine_bounded.
Qed.

(** The literal [1e-8] and the constants of the clamp are what they are
    meant to be, and a sample of [uint8] is converted exactly. *)
Lemma float_anchors :
  (Qabs (SF2Q eps_1e_8 - (1 # 10 ^ 8)) <= 1 # 2 ^ 80)%Q
  /\ (forall dt : dtype, (SF2Q (SF_of_Z dt 255) == 255)%Q)
  /\ (forall x : Z, 0 <= x <= 255 -> (SF2Q (SF_of_Z float32 x) == inject_Z x)%Q).
Proof.
  split; [|split].
  - apply Qle_bool_iff. vm_compute. reflexivity.
  - intros []; apply Qeq_bool_iff; vm_compute; reflexivity.
  - intros x Hx.
    assert (Hall : forallb (fun x => Qeq_bool (SF2Q (SF_of_Z float32 x)) (inject_Z x))
                     (seqZ 0 256) = true) by (vm_compute; reflexivity).
    rewrite forallb_forall in Hall. apply Qeq_bool_iff, Hall.
    apply list_elem_of_In, elem_of_seqZ. lia.
Qed.

(** C3. [AdjustImage] keeps the shape and the number of samples. For
    each sample [x] it computes [x - sourceMean], divides by
    [sourceStd + 1e-8], multiplies by [targetStd] and adds [targetMean],
    each operation in the floating-point type the promotion rule gives
    it, the sum [sourceStd + 1e-8] being taken in [float64]. When the
    value [v] so obtained is not NaN, the output sample is 0 if [v] is
    not above 0, 255 if [v] is not below 255, and otherwise the
    truncation toward zero of the exact value of [v]: nothing is
    rounded. The literal [1e-8] is the [float64] nearest to 10^-8, the
    bound 255 and the samples of [uint8] are converted exactly. *)
Theorem AdjustImage_formula (img : Image) (m s tm ts : scalar) :
  img_shape (AdjustGray_Uetsu.AdjustImage img m s tm ts) = img_shape img
  /\ length (img_data (AdjustGray_Uetsu.AdjustImage img m s tm ts)) = length (img_data img)
  /\ (forall (i : nat) (x : Z), img_data img !! i = Some x ->
        let dt1 := np_promote float32 m in
        let d := f_sub dt1 (SFcast dt1 (SF_of_Z float32 x)) (SFcast dt1 (scalar_val m)) in
        let se := match s with
                  | PyFloat sd => PyFloat (f_add float64 sd eps_1e_8)
                  | NpFloat64 sd => NpFloat64 (f_add float64 sd eps_1e_8)
                  end in
        let dt2 := np_promote dt1 se in
        let q := f_div dt2 (SFcast dt2 d) (SFcast dt2 (scalar_val se)) in
        let dt3 := np_promote dt2 ts in
        let p := f_mul dt3 (SFcast dt3 q) (SFcast dt3 (scalar_val ts)) in
        let dt4 := np_promote dt3 tm in
        let v := f_add dt4 (SFcast dt4 p) (SFcast dt4 (scalar_val tm)) in
        is_nan v = false ->
        img_data (AdjustGray_Uetsu.AdjustImage img m s tm ts) !! i
        = Some (if SFltb (S754_zero false) v
                then if SFltb v (SF_of_Z dt4 255) then Qtrunc (SF2Q v) else 255
                else 0))
  /\ (Qabs (SF2Q eps_1e_8 - (1 # 10 ^ 8)) <= 1 # 2 ^ 80)%Q
  /\ (forall dt : dtype, (SF2Q (SF_of_Z dt 255) == 255)%Q)
  /\ (forall x : Z, 0 <= x <= 255 -> (SF2Q (SF_of_Z float32 x) == inject_Z x)%Q).
Proof.
  assert (Hdata : img_data (AdjustGray_Uetsu.AdjustImage img m s tm ts)
                  = map (fun x => uint8_of_float (clamp (sample_affine np_promote x m s tm ts)))
                      (img_data img)).
  { unfold AdjustGray_Uetsu.AdjustImage, astype_uint8; cbn [img_data].
    rewrite (proj2 (AdjustImage_clipped_data img m s tm ts)). by rewrite List.map_map. }
  split; [done|]. split; [by rewrite Hdata, List.length_map|].
  split; [|exact float_anchors].
  intros i x Hi dt1 d se dt2 q dt3 p dt4 v Hnan.
  assert (Hv : sample_affine np_promote x m s tm ts = (dt4, v)).
  { unfold sample_affine, sample_product, sample_quotient, elt_op.
    subst v dt4 p dt3 q dt2 se d dt1. by destruct s. }
  assert (Hb : mantissa_bounded dt4 v).
  { subst v. apply f_add_bounded; apply SFcast_bounded. }
  assert (Hcore : uint8_of_float (clamp (dt4, v))
                  = if SFltb (S754_zero false) v
                    then if SFltb v (SF_of_Z dt4 255) then Qtrunc (SF2Q v) else 255
                    else 0).
  { unfold clamp. cbn [fst snd].
    unfold clip1, np_minimum, np_maximum. rewrite Hnan, SF_of_Z_0.
    destruct (SFltb (S754_zero false) v) eqn:Hlo.
    - rewrite Hnan. destruct (SFltb v (SF_of_Z dt4 255)) eqn:Hhi.
      + destruct (uint8_of_clamped dt4 v Hnan Hb) as (n & Ht & _ & Hu).
        * rewrite SF_of_Z_0. by apply SFltb_leb.
        * apply SFltb_leb; [done| by destruct dt4 |done].
        * rewrite Hu. by apply SFtrunc_Qtrunc.
      + by destruct dt4.
    - by destruct dt4. }
  rewrite Hdata, list_lookup_fmap, Hi. cbn [fmap option_fmap option_map].
  by rewrite Hv, Hcore.
Qed.

(** C2, as the code has it. [AdjustImage] is a total function: for every
    image and all statistics it returns an image of the same shape whose
    samples all lie in [0, 255]. Whenever the quotient
    [(x - sourceMean) / (sourceStd + 1e-8)] and the two target statistics
    are finite in the types in which the multiplication and the addition
    are carried out, the affine value of the sample is not NaN, its
    clamped value lies between 0 and 255, and the output sample is the
    truncation of the clamped value. *)
Theorem AdjustImage_range (img : Image) (m s tm ts : scalar) :
  img_shape (AdjustGray_Uetsu.AdjustImage img m s tm ts) = img_shape img
  /\ length (img_data (AdjustGray_Uetsu.AdjustImage img m s tm ts)) = length (img_data img)
  /\ Forall (fun n => 0 <= n <= 255) (img_data (AdjustGray_Uetsu.AdjustImage img m s tm ts))
  /\ forall (i : nat) (x : Z), img_data img !! i = Some x ->
       is_finite (SFcast (np_promote (sample_quotient np_promote x m s).1 ts)
                    (sample_quotient np_promote x m s).2) = true ->
       is_finite (SFcast (np_promote (sample_quotient np_promote x m s).1 ts)
                    (scalar_val ts)) = true ->
       is_finite (SFcast (np_promote (np_promote (sample_quotient np_promote x m s).1 ts) tm)
                    (scalar_val tm)) = true ->
       is_nan (sample_affine np_promote x m s tm ts).2 = false
       /\ is_nan (clamp (sample_affine np_promote x m s tm ts)) = false
       /\ SFleb (SF_of_Z (sample_affine np_promote x m s tm ts).1 0)
            (clamp (sample_affine np_promote x m s tm ts)) = true
       /\ SFleb (clamp (sample_affine np_promote x m s tm ts))
            (SF_of_Z (sample_affine np_promote x m s tm ts).1 255) = true
       /\ exists n,
            img_data (AdjustGray_Uetsu.AdjustImage img m s tm ts) !! i = Some n
            /\ SFtrunc (clamp (sample_affine np_promote x m s tm ts)) = Some n
            /\ 0 <= n <= 255.
Proof.
  assert (Hdata : img_data (AdjustGray_Uetsu.AdjustImage img m s tm ts)
                  = map (fun x => uint8_of_float (clamp (sample_affine np_promote x m s tm ts)))
                      (img_data img)).
  { unfold AdjustGray_Uetsu.AdjustImage, astype_uint8; cbn [img_data].
    rewrite (proj2 (AdjustImage_clipped_data img m s tm ts)). by rewrite List.map_map. }
  split; [done|]. split; [by rewrite Hdata, List.length_map|]. split.
  { rewrite Hdata. apply Forall_forall. intros n Hn.
    apply list_elem_of_In, in_map_iff in Hn as (x & <- & _). apply uint8_of_float_range. }
  intros i x Hi Hq Hts Htm.
  assert (Hnan : is_nan (sample_affine np_promote x m s tm ts).2 = false).
  { unfold sample_affine, sample_product, elt_op; simpl.
    apply f_add_not_nan; [|done].
    apply SFcast_not_nan. by apply f_mul_not_nan. }
  destruct (clamped_sample x m s tm ts Hnan) as (Hc & Hlo & Hhi & n & Ht & Hn & Hu).
  split; [done|]. split; [done|]. split; [done|]. split; [done|].
  exists n. split; [|done]. rewrite Hdata, lookup_map, Hi. simpl. by rewrite Hu.
Qed.

End Adjust.

Lemma AdjustImage_range_witness :
  is_nan (sample_affine nep50 5
            (PyFloat (SF_of_Z float64 111)) (PyFloat (S754_zero false))
            (NpFloat64 (SF_of_Z float64 150)) (NpFloat64 (SF_of_Z float64 40))).2 = false
  /\ exists n,
       img_data (AdjustGray_Uetsu.AdjustImage (H := Mock.libs nep50) Mock.im3
                   (PyFloat (SF_of_Z float64 111)) (PyFloat (S754_zero false))
                   (NpFloat64 (SF_of_Z float64 150)) (NpFloat64 (SF_of_Z float64 40)))
         !! 0%nat = Some n
       /\ 0 <= n <= 255.
Proof.
  destruct (AdjustImage_range (H := Mock.libs nep50) Mock.im3
              (PyFloat (SF_of_Z float64 111)) (PyFloat (S754_zero false))
              (NpFloat64 (SF_of_Z float64 150)) (NpFloat64 (SF_of_Z float64 40)))
    as (_ & _ & _ & Hs).
  destruct (Hs 0%nat 5 ltac:(reflexivity) ltac:(vm_compute; reflexivity)
              ltac:(vm_compute; reflexivity) ltac:(vm_compute; reflexivity))
    as (Hnan & _ & _ & _ & n & Hn & _ & Hr).
  split; [exact Hnan|]. exists n. split; [exact Hn | exact Hr].
Defined.

Lemma AdjustImage_formula_witness :
  img_data (AdjustGray_Uetsu.AdjustImage (H := Mock.libs nep50) Mock.im3
              (PyFloat (SF_of_Z float64 111)) (PyFloat (SF_of_Z float64 80))
              (NpFloat64 (SF_of_Z float64 150)) (NpFloat64 (SF_of_Z float64 40)))
    !! 0%nat = Some 96
  /\ img_data (AdjustGray_Uetsu.AdjustImage (H := Mock.libs nep50) Mock.im3
                 (PyFloat (SF_of_Z float64 111)) (PyFloat (S754_zero false))
                 (NpFloat64 (SF_of_Z float64 150))
                 (NpFloat64 (f_div float64 (SF_of_Z float64 1) (SF_of_Z float64 (2 ^ 24)))))
       !! 1%nat = Some 251.
Proof.
  split.
  - destruct (AdjustImage_formula (H := Mock.libs nep50) Mock.im3
                (PyFloat (SF_of_Z float64 111)) (PyFloat (SF_of_Z float64 80))
                (NpFloat64 (SF_of_Z float64 150)) (NpFloat64 (SF_of_Z float64 40)))
      as (_ & _ & Hs & _).
    rewrite (Hs 0%nat 5 ltac:(reflexivity) ltac:(vm_compute; reflexivity)).
    vm_compute. reflexivity.
  - destruct (AdjustImage_formula (H := Mock.libs nep50) Mock.im3
                (PyFloat (SF_of_Z float64 111)) (PyFloat (S754_zero false))
                (NpFloat64 (SF_of_Z float64 150))
                (NpFloat64 (f_div float64 (SF_of_Z float64 1) (SF_of_Z float64 (2 ^ 24)))))
      as (_ & _ & Hs & _).
    rewrite (Hs 1%nat 128 ltac:(reflexivity) ltac:(vm_compute; reflexivity)).
    vm_compute. reflexivity.
Defined.

(** C2, as stated, fails: with a source deviation of exactly 0 and finite
    statistics, a source mean of -1e301 and a target deviation of 0, the
    quotient overflows to infinity, its product with 0 is NaN, and NaN is
    what the clamped array holds, under either promotion rule. *)
Lemma AdjustImage_NaN_for_finite_statistics :
  let img := {| img_shape := [1%nat]; img_data := [255] |} in
  let m := PyFloat (SFopp (SF_of_Z float64 (10 ^ 301))) in
  let s := PyFloat (S754_zero false) in
  let tm := NpFloat64 (S754_zero false) in
  let ts := NpFloat64 (S754_zero false) in
  is_finite (scalar_val m) = true /\ is_finite (scalar_val s) = true
  /\ is_finite (scalar_val tm) = true /\ is_finite (scalar_val ts) = true
  /\ fa_data (AdjustGray_Uetsu.AdjustImage_clipped (H := Mock.libs nep50) img m s tm ts)
     = [S754_nan]
  /\ fa_data (AdjustGray_Uetsu.AdjustImage_clipped (H := Mock.libs value_based) img m s tm ts)
     = [S754_nan].
Proof. vm_compute. repeat split; reflexivity. Qed.

(** A value of 1.75 becomes 1: truncation, not rounding. *)
Example AdjustImage_truncates :
  img_data (AdjustGray_Uetsu.AdjustImage (H := Mock.libs nep50)
              {| img_shape := [1%nat]; img_data := [1] |}
              (PyFloat (S754_zero false)) (PyFloat (SF_of_Z float64 1))
              (NpFloat64 (S754_zero false))
              (NpFloat64 (f_div float64 (SF_of_Z float64 7) (SF_of_Z float64 4))))
  = [1].
Proof. vm_compute. reflexivity. Qed.

(** The scenario of two uniform training images and one uniform test
    image: the result is uniformly the training mean. *)
Example AdjustImage_uniform :
  img_data (AdjustGray_Uetsu.AdjustImage (H := Mock.libs nep50)
              {| img_shape := [2%nat; 2%nat]; img_data := [50; 50; 50; 50] |}
              (PyFloat (SF_of_Z float64 50)) (PyFloat (S754_zero false))
              (NpFloat64 (SF_of_Z float64 150)) (NpFloat64 (S754_zero false)))
  = [150; 150; 150; 150].
Proof. vm_compute. reflexivity. Qed.

(** * Further properties of the scripts *)

(** ** Thresholds *)

Section MoreThreshold.

Lemma threshold_twice (t1 t2 : Z) (l : list Z) :
  map (fun x => if x <? t2 then 0 else x) (map (fun x => if x <? t1 then 0 else x) l)
  = map (fun x => if x <? Z.max t1 t2 then 0 else x) l.
Proof.
  rewrite List.map_map. apply List.map_ext. intros x.
  destruct (Z.ltb_spec x t1), (Z.ltb_spec x (Z.max t1 t2)); try lia;
    destruct (Z.ltb_spec 0 t2); destruct (Z.ltb_spec x t2); try done; lia.
Qed.

(** X1. Two applications of [DrawBlackBasedThreshold], with thresholds
    [t1] and then [t2], give an array with the samples of one application
    with the larger threshold; the order of the two does not matter. *)
Theorem DrawBlackBasedThreshold_twice (w : world) (r : ref) (t1 t2 : Z) (im : Image) :
  arrays w !! r = Some im ->
  exists (r1 r2 r3 : ref) (w1 w2 w3 : world) (im2 : Image),
    AdjustGray_Uetsu.DrawBlackBasedThreshold r t1 w = (Returns r1, w1)
    /\ AdjustGray_Uetsu.DrawBlackBasedThreshold r1 t2 w1 = (Returns r2, w2)
    /\ AdjustGray_Uetsu.DrawBlackBasedThreshold r (Z.max t1 t2) w = (Returns r3, w3)
    /\ arrays w2 !! r2 = Some im2
    /\ arrays w3 !! r3 = Some im2
    /\ img_shape im2 = img_shape im
    /\ img_data im2 = map (fun x => if x <? Z.max t2 t1 then 0 else x) (img_data im).
Proof.
  intros Hr.
  pose proof (DrawBlackBasedThreshold_run w r t1 im Hr) as H1.
  pose proof (DrawBlackBasedThreshold_run w r (Z.max t1 t2) im Hr) as H3.
  set (r1 := fresh (dom (arrays w))) in *.
  set (im1 := {| img_shape := img_shape im;
                 img_data := map (fun x => if x <? t1 then 0 else x) (img_data im) |}) in *.
  set (w1 := World (files w) (<[r1 := im1]> (arrays w)) (trace w)) in *.
  assert (Hr1 : arrays w1 !! r1 = Some im1) by apply lookup_insert_eq.
  pose proof (DrawBlackBasedThreshold_run w1 r1 t2 im1 Hr1) as H2.
  unfold im1 in H2. cbn [img_shape img_data] in H2.
  rewrite threshold_twice in H2.
  eexists r1, _, _, w1, _, _, _.
  split; [exact H1|]. split; [exact H2|]. split; [exact H3|].
  split; [apply lookup_insert_eq|]. split; [apply lookup_insert_eq|].
  split; [done|]. cbn [img_data]. by rewrite (Z.max_comm t2 t1).
Qed.

Lemma DrawBlackBasedThreshold_twice_witness :
  exists (r1 r2 r3 : ref) (w1 w2 w3 : world) (im2 : Image),
    AdjustGray_Uetsu.DrawBlackBasedThreshold 0%nat 100 Mock.w3 = (Returns r1, w1)
    /\ AdjustGray_Uetsu.DrawBlackBasedThreshold r1 150 w1 = (Returns r2, w2)
    /\ AdjustGray_Uetsu.DrawBlackBasedThreshold 0%nat (Z.max 100 150) Mock.w3
       = (Returns r3, w3)
    /\ arrays w2 !! r2 = Some im2
    /\ arrays w3 !! r3 = Some im2
    /\ img_shape im2 = img_shape Mock.im3
    /\ img_data im2 = map (fun x => if x <? Z.max 150 100 then 0 else x) (img_data Mock.im3).
Proof.
  exact (DrawBlackBasedThreshold_twice Mock.w3 0%nat 100 150 Mock.im3
           ltac:(vm_compute; reflexivity)).
Defined.

(** X2. On an image of [uint8] samples a threshold of 0 or less changes
    nothing, and a threshold above 255 blackens every sample; in both
    cases the shape is kept. *)
Theorem DrawBlackBasedThreshold_extremes (w : world) (r : ref) (t : Z) (im : Image) :
  arrays w !! r = Some im -> uint8_image im ->
  exists (r' : ref) (w' : world) (im' : Image),
    AdjustGray_Uetsu.DrawBlackBasedThreshold r t w = (Returns r', w')
    /\ arrays w' !! r' = Some im'
    /\ img_shape im' = img_shape im
    /\ (t <= 0 -> im' = im)
    /\ (255 < t -> img_data im' = map (fun _ => 0) (img_data im)).
Proof.
  intros Hr Hu. eexists _, _, _.
  split; [by apply DrawBlackBasedThreshold_run|]. simpl.
  split; [apply lookup_insert_eq|]. split; [done|].
  unfold uint8_image, is_uint8 in Hu. rewrite Forall_forall in Hu. split.
  - intros Ht. destruct im as [sh data]. simpl in *. f_equal.
    rewrite <- (List.map_id data) at 2. apply List.map_ext_in. intros x Hx.
    apply list_elem_of_In, Hu in Hx. destruct (Z.ltb_spec x t); [lia | done].
  - intros Ht. apply List.map_ext_in. intros x Hx.
    apply list_elem_of_In, Hu in Hx. destruct (Z.ltb_spec x t); [done | lia].
Qed.

Lemma DrawBlackBasedThreshold_extremes_witness :
  exists (r' : ref) (w' : world) (im' : Image),
    AdjustGray_Uetsu.DrawBlackBasedThreshold 0%nat 0 Mock.w3 = (Returns r', w')
    /\ arrays w' !! r' = Some im'
    /\ im' = Mock.im3.
Proof.
  destruct (DrawBlackBasedThreshold_extremes Mock.w3 0%nat 0 Mock.im3
              ltac:(vm_compute; reflexivity)
              ltac:(repeat constructor; unfold is_uint8; lia))
    as (r' & w' & im' & Hrun & Hr' & _ & Hid & _).
  exists r', w', im'. split; [exact Hrun|]. split; [exact Hr'|]. apply Hid. lia.
Defined.

End MoreThreshold.

(** ** Conversions and the adjusted image *)

Section MoreAdjust.
Context `{Libs}.

Lemma uint8_cases (P : Z -> bool) :
  forallb P (seqZ 0 256) = true -> forall x, is_uint8 x -> P x = true.
Proof.
  intros Hall x Hx. rewrite forallb_forall in Hall. apply Hall.
  apply list_elem_of_In, elem_of_seqZ. unfold is_uint8 in Hx. lia.
Qed.

Lemma uint8_float32_uint8 (x : Z) :
  is_uint8 x -> uint8_of_float (SF_of_Z float32 x) = x.
Proof.
  intros Hx. apply Z.eqb_eq.
  apply (uint8_cases (fun x => uint8_of_float (SF_of_Z float32 x) =? x)); [|done].
  vm_compute. reflexivity.
Qed.

(** X3. Converting an image of [uint8] samples to [float32] and back, as
    the first and the last statement of [AdjustImage] do, gives the image
    back: the two conversions lose nothing. *)
Theorem astype_float32_uint8 (im : Image) :
  uint8_image im -> astype_uint8 (astype_float32 im) = im.
Proof.
  intros Hu. destruct im as [sh data]. unfold astype_uint8, astype_float32; simpl. f_equal.
  rewrite List.map_map. rewrite <- (List.map_id data) at 2.
  apply List.map_ext_in. intros x Hx. apply uint8_float32_uint8.
  unfold uint8_image in Hu; simpl in Hu. rewrite Forall_forall in Hu.
  by apply Hu, list_elem_of_In.
Qed.

Lemma astype_float32_uint8_witness : astype_uint8 (astype_float32 Mock.im3) = Mock.im3.
Proof.
  apply astype_float32_uint8. repeat constructor; unfold is_uint8; lia.
Defined.

Lemma AdjustImage_data (img : Image) (m s tm ts : scalar) :
  img_data (AdjustGray_Uetsu.AdjustImage img m s tm ts)
  = map (fun x => uint8_of_float (clamp (sample_affine np_promote x m s tm ts)))
      (img_data img).
Proof.
  unfold AdjustGray_Uetsu.AdjustImage, astype_uint8; cbn [img_data].
  rewrite (proj2 (AdjustImage_clipped_data img m s tm ts)). by rewrite List.map_map.
Qed.



End MoreAdjust.

(** ** An image of a single grey level *)

Section Uniform.
Context `{Libs}.

Lemma sub_own_mean (x : Z) (dt : dtype) :
  is_uint8 x ->
  f_sub dt (SFcast dt (SF_of_Z float32 x)) (SFcast dt (SF_of_Z float64 x)) = S754_zero false.
Proof.
  intros Hx.
  assert (Hall : forall dt,
            forallb (fun x =>
                       match f_sub dt (SFcast dt (SF_of_Z float32 x))
                               (SFcast dt (SF_of_Z float64 x)) with
                       | S754_zero false => true
                       | _ => false
                       end) (seqZ 0 256) = true)
    by (intros []; vm_compute; reflexivity).
  pose proof (uint8_cases _ (Hall dt) x Hx) as Hz. simpl in Hz.
  by destruct (f_sub dt _ _) as [[]| | |].
Qed.

Lemma eps_added : scalar_add_py (PyFloat (S754_zero false)) eps_1e_8 = PyFloat eps_1e_8.
Proof. vm_compute. reflexivity. Qed.

Lemma zero_div_eps (dt : dtype) :
  f_div dt (SFcast dt (S754_zero false)) (SFcast dt eps_1e_8) = S754_zero false.
Proof. destruct dt; vm_compute; reflexivity. Qed.

Lemma zero_mul_finite (dt : dtype) (v : spec_float) :
  is_finite v = true -> exists s, f_mul dt (S754_zero false) v = S754_zero s.
Proof. destruct v as [s| | |s m e]; try discriminate; intros _; simpl; eauto. Qed.

Lemma clip1_zero_add (dt : dtype) (s : bool) (y : spec_float) :
  clip1 dt 0 255 (f_add dt (S754_zero s) y) = clip1 dt 0 255 y.
Proof.
  destruct y as [sy| | |sy m e]; try reflexivity.
  destruct dt, s, sy; vm_compute; reflexivity.
Qed.

(** X5. An image of a single grey level [x], whose mean is [x] and whose
    deviation is 0, loses its level: when the target deviation is finite
    in both formats, every sample of the adjusted image is the target
    mean, clamped to [0, 255] and truncated. *)
Theorem AdjustImage_flat_image (img : Image) (x : Z) (tm ts : scalar) :
  is_uint8 x ->
  Forall (fun y => y = x) (img_data img) ->
  (forall dt, is_finite (SFcast dt (scalar_val ts)) = true) ->
  exists dt,
    img_data (AdjustGray_Uetsu.AdjustImage img (PyFloat (SF_of_Z float64 x))
                (PyFloat (S754_zero false)) tm ts)
    = map (fun _ => uint8_of_float (clip1 dt 0 255 (SFcast dt (scalar_val tm))))
        (img_data img).
Proof.
  intros Hx Hall Hts. rewrite AdjustImage_data.
  set (q := sample_product np_promote x (PyFloat (SF_of_Z float64 x))
              (PyFloat (S754_zero false)) ts).
  exists (np_promote q.1 tm).
  apply List.map_ext_in. intros y Hy.
  rewrite Forall_forall in Hall. rewrite (Hall y) by (by apply list_elem_of_In).
  unfold clamp, sample_affine, elt_op at 1. cbn [fst snd]. fold q.
  assert (Hq : exists s, q.2 = S754_zero s).
  { unfold q, sample_product, elt_op at 1. cbn [fst snd].
    unfold sample_quotient, elt_op at 1. cbn [fst snd]. rewrite eps_added.
    unfold elt_op. cbn [fst snd scalar_val].
    rewrite (sub_own_mean x _ Hx), zero_div_eps. cbn [SFcast].
    apply zero_mul_finite, Hts. }
  unfold elt_op. cbn [fst snd]. destruct Hq as [s ->]. cbn [SFcast].
  apply f_equal, clip1_zero_add.
Qed.

End Uniform.

Lemma AdjustImage_flat_image_witness :
  exists dt,
    img_data (AdjustGray_Uetsu.AdjustImage (H := Mock.libs nep50)
                {| img_shape := [2%nat]; img_data := [7; 7] |}
                (PyFloat (SF_of_Z float64 7)) (PyFloat (S754_zero false))
                (NpFloat64 (SF_of_Z float64 100)) (NpFloat64 (SF_of_Z float64 3)))
    = map (fun _ => uint8_of_float
                      (clip1 dt 0 255 (SFcast dt (SF_of_Z float64 100)))) [7; 7].
Proof.
  apply (AdjustImage_flat_image (H := Mock.libs nep50)
           {| img_shape := [2%nat]; img_data := [7; 7] |} 7
           (NpFloat64 (SF_of_Z float64 100)) (NpFloat64 (SF_of_Z float64 3))).
  - unfold is_uint8; lia.
  - repeat constructor.
  - intros []; vm_compute; reflexivity.
Defined.

(** ** The statistics of a folder *)

Section MoreStatistics.
Context `{Libs}.

Lemma CalcMeanStd_measures (p : string) (ms : spec_float * spec_float) (w : world) :
  measures (files w) p ms ->
  exists im, AdjustGray_Uetsu.CalcMeanStd p w = (Returns (ms.1, ms.2, im), logged (EvRead p) w).
Proof.
  intros (data & im & Hf & Hd & Hm). exists im.
  rewrite CalcMeanStd_run, Hf, Hd, Hm. by destruct ms.
Qed.

Lemma CalcMeanStd_returns (p : string) (w w' : world) (v : spec_float * spec_float * Image) :
  AdjustGray_Uetsu.CalcMeanStd p w = (Returns v, w') ->
  measures (files w) p (v.1.1, v.1.2) /\ w' = logged (EvRead p) w.
Proof.
  rewrite CalcMeanStd_run.
  destruct (files w !! p) as [data|] eqn:Hf; [|discriminate].
  destruct (cv2_imdecode data IMREAD_GRAYSCALE) as [[im|]|e] eqn:Hd; try discriminate.
  destruct (cv2_meanStdDev im) as [[Mean Std]|e] eqn:Hm; [|discriminate].
  intros [= <- <-]. split; [|done]. by exists data, im.
Qed.

Lemma GetImgMeanStd_loop_measures (paths : list string)
    (stats : list (spec_float * spec_float)) (ml sl : list spec_float) (w : world) :
  Forall2 (measures (files w)) paths stats ->
  AdjustGray_Uetsu.GetImgMeanStd_loop paths ml sl w
  = (Returns (ml ++ map fst stats, sl ++ map snd stats),
     World (files w) (arrays w) (trace w ++ map EvRead paths)).
Proof.
  revert stats ml sl w.
  induction paths as [|p paths IH]; intros stats ml sl w Hall.
  - apply Forall2_nil_inv_l in Hall as ->. simpl. rewrite !app_nil_r. by destruct w.
  - apply Forall2_cons_inv_l in Hall as (ms & stats' & Hp & Hrest & ->).
    simpl. unfold mbind, M_bind, bind.
    destruct (CalcMeanStd_measures p ms w Hp) as [im ->]. simpl.
    rewrite (IH stats' _ _ (logged (EvRead p) w) Hrest). simpl.
    by rewrite <- !app_assoc.
Qed.

(** X6. When every file the listing of the folder gives can be read,
    decoded and measured, [GetImgMeanStd] returns the mean of the means
    and the mean of the deviations, taken in the order of the listing; it
    has read the files in that order and changed nothing else. *)
Theorem GetImgMeanStd_means (ImgDir ImageExtension : string)
    (stats : list (spec_float * spec_float)) (w : world) :
  Forall2 (measures (files w))
    (glob_glob (files w) (path_join ImgDir (String "*" ImageExtension))) stats ->
  AdjustGray_Uetsu.GetImgMeanStd ImgDir ImageExtension w
  = (Returns (np_mean (map fst stats), np_mean (map snd stats)),
     World (files w) (arrays w)
       (trace w ++ map EvRead
                     (glob_glob (files w) (path_join ImgDir (String "*" ImageExtension))))).
Proof.
  intros Hall. unfold AdjustGray_Uetsu.GetImgMeanStd, mbind, M_bind, bind, glob.
  by rewrite (GetImgMeanStd_loop_measures _ stats [] [] w Hall).
Qed.

Lemma GetImgMeanStd_loop_aborts (paths : list string) (p : string)
    (ml sl : list spec_float) (w : world) :
  p ∈ paths ->
  (forall ms, ~ measures (files w) p ms) ->
  exists e w', AdjustGray_Uetsu.GetImgMeanStd_loop paths ml sl w = (Raises e, w').
Proof.
  revert ml sl w. induction paths as [|q paths IH]; intros ml sl w Hin Hbad.
  - by apply elem_of_nil in Hin.
  - simpl. unfold mbind, M_bind, bind.
    destruct (AdjustGray_Uetsu.CalcMeanStd q w) as [[[[Mean Std] im]|e] w1] eqn:Hc;
      [|by eauto].
    apply CalcMeanStd_returns in Hc as [Hm ->].
    apply elem_of_cons in Hin as [->|Hin]; [by destruct (Hbad _ Hm)|].
    apply IH; done.
Qed.

(** X7. One file of the listing that cannot be read, decoded or measured
    is enough for [GetImgMeanStd] to raise: no statistics are returned for
    the files that could be measured, and no file has been changed. *)
Theorem GetImgMeanStd_aborts (ImgDir ImageExtension p : string) (w : world) :
  p ∈ glob_glob (files w) (path_join ImgDir (String "*" ImageExtension)) ->
  (forall ms, ~ measures (files w) p ms) ->
  exists e w',
    AdjustGray_Uetsu.GetImgMeanStd ImgDir ImageExtension w = (Raises e, w')
    /\ files w' = files w.
Proof.
  intros Hin Hbad.
  unfold AdjustGray_Uetsu.GetImgMeanStd, mbind, M_bind, bind, glob.
  pose proof (GetImgMeanStd_loop_run
                (glob_glob (files w) (path_join ImgDir (String "*" ImageExtension)))
                [] [] w) as [Hf _].
  destruct (GetImgMeanStd_loop_aborts _ p [] [] w Hin Hbad) as (e & w' & Hrun).
  rewrite Hrun in Hf |- *. eauto.
Qed.

End MoreStatistics.

Lemma GetImgMeanStd_means_witness :
  AdjustGray_Uetsu.GetImgMeanStd (H := Mock.libs nep50) "many" ".png" Mock.w8
  = (Returns (SF_of_Z float64 23, S754_finite false 6369051672527942 (-54)),
     World Mock.fs8 ∅
       (map EvRead ["many/7.png"; "many/3.png"; "many/5.png"; "many/1.png";
                    "many/6.png"; "many/2.png"; "many/4.png"; "many/8.png"]%string)).
Proof.
  rewrite (GetImgMeanStd_means (H := Mock.libs nep50) "many" ".png" Mock.measured8 Mock.w8).
  { vm_compute. reflexivity. }
  change (Forall2 (measures (H := Mock.libs nep50) Mock.fs8)
            (Mock.list_files Mock.fs8 (path_join "many" "*.png")) Mock.measured8).
  replace (Mock.list_files Mock.fs8 (path_join "many" "*.png"))
    with ["many/7.png"; "many/3.png"; "many/5.png"; "many/1.png";
          "many/6.png"; "many/2.png"; "many/4.png"; "many/8.png"]%string
    by (vm_compute; reflexivity).
  unfold Mock.measured8.
  repeat (apply List.Forall2_cons;
          [eexists _, _; split; [vm_compute; reflexivity|];
           split; [vm_compute; reflexivity|]; vm_compute; reflexivity|]).
  apply List.Forall2_nil.
Defined.

Lemma GetImgMeanStd_aborts_witness :
  exists e w',
    AdjustGray_Uetsu.GetImgMeanStd (H := Mock.libs nep50) "test" ".txt" Mock.w0
    = (Raises e, w')
    /\ files w' = files Mock.w0.
Proof.
  apply (GetImgMeanStd_aborts (H := Mock.libs nep50) "test" ".txt" "test/notes.txt" Mock.w0).
  - vm_compute. apply list_elem_of_here.
  - intros ms (data & im & Hf & Hd & _).
    vm_compute in Hf. injection Hf as <-. vm_compute in Hd. discriminate.
Defined.

(** ** The files a run leaves alone *)

Section Frames.
Context `{Libs}.






End Frames.



(** ** The last occurrence of a character, and the names it gives *)

Section MoreNames.

Lemma rfind_from_shift (c : ascii) (l : list ascii) (i : nat) (last : option nat) :
  rfind_from c i l last
  = match rfind c l with Some k => Some (i + k)%nat | None => last end.
Proof.
  unfold rfind. revert i last. induction l as [|x l IH]; intros i last; simpl; [done|].
  rewrite (IH (S i)), (IH 1%nat).
  destruct (rfind_from c 0 l None) as [k|]; [f_equal; lia|].
  destruct (Ascii.eqb x c); [f_equal; lia | done].
Qed.

Lemma rfind_cons (c x : ascii) (l : list ascii) :
  rfind c (x :: l)
  = match rfind c l with
    | Some k => Some (S k)
    | None => if Ascii.eqb x c then Some 0%nat else None
    end.
Proof. unfold rfind at 1. simpl. by rewrite rfind_from_shift. Qed.

Lemma rfind_None (c : ascii) (l : list ascii) : rfind c l = None <-> c ∉ l.
Proof.
  induction l as [|x l IH].
  - split; [intros _; apply not_elem_of_nil | done].
  - rewrite rfind_cons, not_elem_of_cons, <- IH.
    destruct (rfind c l) as [k|]; [split; [done | by intros [_ ?]]|].
    destruct (Ascii.eqb_spec x c) as [->|Hne]; split; try done; try (by intros [? _]).
    all: intros _; split; [congruence | done].
Qed.

Lemma rfind_app_absent (c : ascii) (a b : list ascii) :
  c ∉ b -> rfind c (a ++ b) = rfind c a.
Proof.
  intros Hb. induction a as [|x a IH]; simpl.
  - apply rfind_None in Hb. rewrite Hb. done.
  - by rewrite !rfind_cons, IH.
Qed.

Lemma rfind_last (c : ascii) (a b : list ascii) :
  c ∉ b -> rfind c (a ++ c :: b) = Some (length a).
Proof.
  intros Hb. induction a as [|x a IH]; simpl.
  - rewrite rfind_cons. apply rfind_None in Hb. rewrite Hb. by rewrite Ascii.eqb_refl.
  - by rewrite rfind_cons, IH.
Qed.

Lemma rfind_Some_last (c : ascii) (l : list ascii) (k : nat) :
  rfind c l = Some k -> c ∉ drop (S k) l.
Proof.
  revert k. induction l as [|x l IH]; intros k; [done|].
  rewrite rfind_cons. destruct (rfind c l) as [j|] eqn:Hj.
  - intros [= <-]. simpl. by apply IH.
  - destruct (Ascii.eqb x c); [|done]. intros [= <-]. simpl. rewrite drop_0.
    by apply rfind_None.
Qed.

Lemma list_ascii_of_string_app (a b : string) :
  list_ascii_of_string (String.append a b)
  = list_ascii_of_string a ++ list_ascii_of_string b.
Proof. induction a as [|c a IH]; simpl; [done | by rewrite IH]. Qed.

Lemma existsb_nondot (l : list ascii) :
  existsb (fun c => negb (Ascii.eqb c dot)) l = true <-> Exists (fun c => c <> dot) l.
Proof.
  rewrite existsb_exists, Exists_exists. split; intros (c & Hc & Hd); exists c.
  - split; [by apply list_elem_of_In|]. by destruct (Ascii.eqb_spec c dot).
  - split; [by apply list_elem_of_In|]. by destruct (Ascii.eqb_spec c dot).
Qed.

(** The base name of a path holds no slash. *)
Lemma basename_no_slash (p : string) : slash ∉ list_ascii_of_string (basename p).
Proof.
  unfold basename. destruct (rfind slash (list_ascii_of_string p)) as [i|] eqn:Hi.
  - rewrite list_ascii_of_string_of_list_ascii. by apply rfind_Some_last.
  - by apply rfind_None.
Qed.

(** The stem [splitext] leaves of a name without slash holds no slash, and
    a character other than a dot when the name has one. *)
Lemma stem_of_name (q : string) :
  slash ∉ list_ascii_of_string q ->
  (slash ∉ list_ascii_of_string (splitext q).1)
  /\ (has_nondot q -> has_nondot (splitext q).1).
Proof.
  intros Hq. unfold splitext, has_nondot.
  rewrite (proj2 (rfind_None _ _) Hq).
  destruct (rfind dot (list_ascii_of_string q)) as [i|]; simpl; [|done].
  rewrite Nat.sub_0_r, drop_0.
  destruct (existsb _ _) eqn:He; simpl; [|done].
  rewrite list_ascii_of_string_of_list_ascii. split.
  - intros Hin. apply Hq. rewrite <- (take_drop i (list_ascii_of_string q)).
    apply elem_of_app. by left.
  - intros _. by apply existsb_nondot.
Qed.

(** [os.path.join] puts before a relative name nothing, or something that
    ends with a slash. *)
Lemma path_join_shape (a b : string) (c : ascii) (r : list ascii) :
  list_ascii_of_string b = c :: r -> c <> slash ->
  exists pre,
    list_ascii_of_string (path_join a b) = pre ++ c :: r
    /\ (pre = [] \/ exists pre', pre = pre' ++ [slash]).
Proof.
  intros Hb Hc. unfold path_join. rewrite Hb.
  destruct (Ascii.eqb_spec c slash) as [->|_]; [done|].
  destruct (last (list_ascii_of_string a)) as [d|] eqn:Hlast.
  - apply last_Some in Hlast as [pre' Hpre].
    destruct (Ascii.eqb_spec d slash) as [->|_].
    + exists (list_ascii_of_string a). rewrite list_ascii_of_string_app, Hb.
      split; [done|]. right. by exists pre'.
    + exists (list_ascii_of_string a ++ [slash]).
      rewrite list_ascii_of_string_app. simpl. rewrite Hb, <- app_assoc.
      split; [done|]. right. by eexists.
  - exists []. split; [by rewrite Hb | by left].
Qed.

Lemma rfind_slash_prefix (pre rest : list ascii) :
  (pre = [] \/ exists pre', pre = pre' ++ [slash]) -> slash ∉ rest ->
  match rfind slash (pre ++ rest) with Some i => S i | None => 0%nat end = length pre.
Proof.
  intros [->|[pre' ->]] Hrest.
  - simpl. by rewrite (proj2 (rfind_None _ _) Hrest).
  - rewrite <- app_assoc. simpl. rewrite (rfind_last _ _ _ Hrest).
    rewrite length_app. simpl. lia.
Qed.

(** Where [splitext] cuts: a name made of a stem without slash that holds
    a character other than a dot, then a dot and letters with neither dot
    nor slash, is cut at that dot, whatever directory comes before. *)
Lemma splitext_parts (pre stem rest : list ascii) :
  (pre = [] \/ exists pre', pre = pre' ++ [slash]) ->
  slash ∉ stem -> Exists (fun c => c <> dot) stem -> dot ∉ rest -> slash ∉ rest ->
  splitext (string_of_list_ascii (pre ++ stem ++ dot :: rest))
  = (string_of_list_ascii (pre ++ stem), string_of_list_ascii (dot :: rest)).
Proof.
  intros Hpre Hs Hn Hd Hr. unfold splitext.
  rewrite list_ascii_of_string_of_list_ascii.
  rewrite (rfind_slash_prefix pre (stem ++ dot :: rest) Hpre).
  2:{ rewrite elem_of_app. intros [Hin|Hin]; [done|].
      apply elem_of_cons in Hin as [Heq|Hin]; [discriminate | done]. }
  rewrite (app_assoc pre stem), (rfind_last _ _ _ Hd).
  rewrite take_app_length, drop_app_length.
  rewrite <- (app_assoc pre stem), drop_app_length, length_app, Nat.add_sub'.
  rewrite take_app_length, (proj2 (existsb_nondot _) Hn). done.
Qed.

Lemma string_of_list_ascii_inj (s : string) (l : list ascii) :
  list_ascii_of_string s = l -> s = string_of_list_ascii l.
Proof. intros <-. by rewrite string_of_list_ascii_of_string. Qed.

Lemma append_assoc (a b c : string) :
  String.append a (String.append b c) = String.append (String.append a b) c.
Proof.
  induction a as [|x a IH]; [done|].
  change (String x (String.append a (String.append b c))
          = String x (String.append (String.append a b) c)).
  by f_equal.
Qed.

(** A name joined to a directory, cut by [splitext]. *)
Lemma splitext_join (dir stem rest : string) :
  slash ∉ list_ascii_of_string stem ->
  has_nondot stem ->
  dot ∉ list_ascii_of_string rest -> slash ∉ list_ascii_of_string rest ->
  (splitext (path_join dir (String.append stem (String dot rest)))).2 = String dot rest.
Proof.
  intros Hs Hn Hd Hr.
  destruct (list_ascii_of_string stem) as [|c r] eqn:Hstem.
  { unfold has_nondot in Hn. rewrite Hstem in Hn. by apply Exists_nil in Hn. }
  assert (Hc : c <> slash).
  { intros ->. apply Hs, list_elem_of_here. }
  destruct (path_join_shape dir (String.append stem (String dot rest)) c
              (r ++ dot :: list_ascii_of_string rest)) as (pre & Hl & Hpre); [|done|].
  { rewrite list_ascii_of_string_app, Hstem. done. }
  change (c :: r ++ dot :: list_ascii_of_string rest)
    with ((c :: r) ++ dot :: list_ascii_of_string rest) in Hl.
  apply string_of_list_ascii_inj in Hl. rewrite Hl.
  unfold has_nondot in Hn. rewrite Hstem in Hn.
  rewrite (splitext_parts pre (c :: r) (list_ascii_of_string rest) Hpre Hs Hn Hd Hr).
  simpl. by rewrite string_of_list_ascii_of_string.
Qed.

(** A bare name, cut by [splitext]. *)
Lemma splitext_name (stem rest : string) :
  slash ∉ list_ascii_of_string stem ->
  has_nondot stem ->
  dot ∉ list_ascii_of_string rest -> slash ∉ list_ascii_of_string rest ->
  splitext (String.append stem (String dot rest)) = (stem, String dot rest).
Proof.
  intros Hs Hn Hd Hr.
  rewrite (string_of_list_ascii_inj (String.append stem (String dot rest))
             ([] ++ list_ascii_of_string stem ++ dot :: list_ascii_of_string rest)).
  2:{ by rewrite list_ascii_of_string_app. }
  rewrite splitext_parts by auto. simpl.
  by rewrite !string_of_list_ascii_of_string.
Qed.

(** The base name of a relative name joined to a directory is the name. *)
Lemma basename_join (a b : string) (c : ascii) (r : list ascii) :
  list_ascii_of_string b = c :: r -> slash ∉ list_ascii_of_string b ->
  basename (path_join a b) = b.
Proof.
  intros Hb Hs.
  assert (Hc : c <> slash).
  { intros ->. apply Hs. rewrite Hb. apply list_elem_of_here. }
  destruct (path_join_shape a b c r Hb Hc) as (pre & Hl & Hpre).
  unfold basename. rewrite Hl. rewrite <- Hb in *.
  destruct Hpre as [->|[pre' ->]].
  - simpl in *. rewrite (proj2 (rfind_None _ _) Hs).
    apply string_of_list_ascii_inj in Hl. rewrite Hl.
    by rewrite string_of_list_ascii_of_string.
  - rewrite <- app_assoc. simpl. rewrite (rfind_last _ _ _ Hs).
    replace (pre' ++ slash :: list_ascii_of_string b)
      with ((pre' ++ [slash]) ++ list_ascii_of_string b) by (by rewrite <- app_assoc).
    replace (S (length pre')) with (length (pre' ++ [slash]))
      by (rewrite length_app; simpl; lia).
    by rewrite drop_app_length, string_of_list_ascii_of_string.
Qed.

Lemma stem_of_basename (p : string) :
  (slash ∉ list_ascii_of_string (splitext (basename p)).1)
  /\ (has_nondot (basename p) -> has_nondot (splitext (basename p)).1).
Proof. apply stem_of_name, basename_no_slash. Qed.

End MoreNames.

Section Encoders.
Context `{Libs}.

(** X10. The results of [Adjust] are encoded as PNG: for an input whose
    base name holds a character other than a dot, [WriteImg] called on the
    output name asks [cv2.imencode] for the extension [.png], whatever the
    output directory and the extension of the input. *)
Theorem Adjust_writes_png (OutputDir p : string) (im : Image) (w : world) :
  has_nondot (basename p) ->
  AdjustGray_Uetsu.WriteImg (AdjustGray_Uetsu.OutputPath OutputDir p) im w
  = match cv2_imencode ".png" im with
    | Raises e => (Raises e, w)
    | Returns (_, b) =>
        if open_wb_ok (files w) (AdjustGray_Uetsu.OutputPath OutputDir p) then
          match b with
          | [] =>
              (Raises AttributeError,
               World (<[AdjustGray_Uetsu.OutputPath OutputDir p := []]> (files w))
                 (arrays w) (trace w))
          | _ =>
              (Returns tt,
               World (<[AdjustGray_Uetsu.OutputPath OutputDir p := b]> (files w))
                 (arrays w)
                 (trace w ++ [EvWrite (AdjustGray_Uetsu.OutputPath OutputDir p)]))
          end
        else (Raises OSError, w)
    end.
Proof.
  intros Hn. rewrite WriteImg_gray_run.
  destruct (stem_of_basename p) as [Hs Hd].
  unfold AdjustGray_Uetsu.OutputPath at 1.
  change ".png"%string with (String dot "png").
  rewrite splitext_join; [done | done | by apply Hd | |];
    intros Hin; apply list_elem_of_In in Hin; simpl in Hin; unfold dot, slash in Hin;
    intuition discriminate.
Qed.

(** X11. The masks of [RunInf] are encoded as JPEG, for every input path
    and every output directory: [WriteImg] called on the output name asks
    [cv2.imencode] for the extension [.jpg]. *)
Theorem RunInf_writes_jpg (OutputDir p : string) (im : Image) (w : world) :
  EnsembleSeg.WriteImg (EnsembleSeg.OutputPath OutputDir p) im w
  = match cv2_imencode ".jpg" im with
    | Raises e => (Raises e, w)
    | Returns (_, b) =>
        if open_wb_ok (files w) (EnsembleSeg.OutputPath OutputDir p) then
          match b with
          | [] =>
              (Raises AttributeError,
               World (<[EnsembleSeg.OutputPath OutputDir p := []]> (files w))
                 (arrays w) (trace w))
          | _ =>
              (Returns tt,
               World (<[EnsembleSeg.OutputPath OutputDir p := b]> (files w))
                 (arrays w)
                 (trace w ++ [EvWrite (EnsembleSeg.OutputPath OutputDir p)]))
          end
        else (Raises OSError, w)
    end.
Proof.
  rewrite WriteImg_color_run.
  destruct (stem_of_basename p) as [Hs _].
  unfold EnsembleSeg.OutputPath at 1.
  change "_Seg.jpg"%string with (String.append "_Seg" (String dot "jpg")).
  rewrite append_assoc, splitext_join; [done | | | |].
  - rewrite list_ascii_of_string_app, elem_of_app. intros [Hin|Hin]; [done|].
    apply list_elem_of_In in Hin; simpl in Hin; unfold slash in Hin; intuition discriminate.
  - unfold has_nondot. rewrite list_ascii_of_string_app. apply Exists_app. right.
    apply Exists_cons_hd. discriminate.
  - intros Hin; apply list_elem_of_In in Hin; simpl in Hin; unfold dot in Hin;
      intuition discriminate.
  - intros Hin; apply list_elem_of_In in Hin; simpl in Hin; unfold slash in Hin;
      intuition discriminate.
Qed.

End Encoders.

Section InPlace.

(** X12. [Adjust] can write over its input: for a PNG file of a directory,
    named by a stem without slash that holds a character other than a dot,
    the output name in the same directory is the path of the file itself. *)
Theorem Adjust_output_is_input (dir stem : string) :
  slash ∉ list_ascii_of_string stem ->
  has_nondot stem ->
  AdjustGray_Uetsu.OutputPath dir (path_join dir (String.append stem ".png"))
  = path_join dir (String.append stem ".png").
Proof.
  intros Hs Hn. unfold AdjustGray_Uetsu.OutputPath.
  assert (Hpng : forall c, c ∈ list_ascii_of_string "png" -> c <> dot /\ c <> slash).
  { intros c Hin. apply list_elem_of_In in Hin. simpl in Hin. unfold dot, slash.
    intuition (subst; discriminate). }
  destruct (list_ascii_of_string stem) as [|c r] eqn:Hstem.
  { unfold has_nondot in Hn. rewrite Hstem in Hn. by apply Exists_nil in Hn. }
  rewrite (basename_join dir (String.append stem ".png") c
             (r ++ list_ascii_of_string ".png")).
  - change ".png"%string with (String dot "png").
    rewrite splitext_name; [done | by rewrite Hstem | done | |];
      intros Hin; apply Hpng in Hin; tauto.
  - by rewrite list_ascii_of_string_app, Hstem.
  - rewrite list_ascii_of_string_app, Hstem, elem_of_app. intros [Hin|Hin]; [done|].
    change (list_ascii_of_string ".png") with (dot :: list_ascii_of_string "png") in Hin.
    apply elem_of_cons in Hin as [Heq|Hin]; [discriminate|]. apply Hpng in Hin. tauto.
Qed.

(** X13. [RunInf] never writes a mask over the image it belongs to: the
    output name of a path differs from the path, whatever the directory. *)
Theorem RunInf_output_is_not_input (dir p : string) :
  EnsembleSeg.OutputPath dir p <> p.
Proof.
  intros Heq.
  destruct (stem_of_basename p) as [Hs _].
  set (stem := (splitext (basename p)).1) in *.
  assert (Hseg : forall c, c ∈ list_ascii_of_string "_Seg" -> c <> slash).
  { intros c Hin. apply list_elem_of_In in Hin. simpl in Hin. unfold slash.
    intuition (subst; discriminate). }
  assert (Hjpg : forall c, c ∈ list_ascii_of_string "jpg" -> c <> dot /\ c <> slash).
  { intros c Hin. apply list_elem_of_In in Hin. simpl in Hin. unfold dot, slash.
    intuition (subst; discriminate). }
  assert (Hs' : slash ∉ list_ascii_of_string (String.append stem "_Seg")).
  { rewrite list_ascii_of_string_app, elem_of_app. intros [Hin|Hin]; [done|].
    by apply Hseg in Hin. }
  assert (Hbase : basename p = String.append (String.append stem "_Seg") (String dot "jpg")).
  { rewrite <- Heq at 1. unfold EnsembleSeg.OutputPath. fold stem.
    change "_Seg.jpg"%string with (String.append "_Seg" (String dot "jpg")).
    rewrite append_assoc.
    destruct (list_ascii_of_string (String.append stem "_Seg")) as [|c r] eqn:Hl.
    { rewrite list_ascii_of_string_app in Hl. by destruct (list_ascii_of_string stem). }
    apply (basename_join dir _ c (r ++ list_ascii_of_string (String dot "jpg"))).
    - by rewrite list_ascii_of_string_app, Hl.
    - rewrite list_ascii_of_string_app, elem_of_app.
      intros [Hin|Hin]; [by rewrite Hl in Hin|].
      change (list_ascii_of_string (String dot "jpg"))
        with (dot :: list_ascii_of_string "jpg") in Hin.
      apply elem_of_cons in Hin as [Hd|Hin]; [discriminate|]. apply Hjpg in Hin. tauto. }
  assert (Hstem : stem = String.append stem "_Seg").
  { unfold stem at 1. rewrite Hbase, splitext_name; [done | done | | |].
    - unfold has_nondot. rewrite list_ascii_of_string_app. apply Exists_app. right.
      apply Exists_cons_hd. discriminate.
    - intros Hin. apply Hjpg in Hin. tauto.
    - intros Hin. apply Hjpg in Hin. tauto. }
  apply (f_equal list_ascii_of_string) in Hstem.
  rewrite list_ascii_of_string_app in Hstem.
  apply (f_equal length) in Hstem. rewrite length_app in Hstem. simpl in Hstem. lia.
Qed.

End InPlace.

Lemma Adjust_writes_png_witness :
  AdjustGray_Uetsu.WriteImg (H := Mock.libs nep50)
    (AdjustGray_Uetsu.OutputPath "out" "test/a.bmp")
    {| img_shape := [1%nat; 2%nat]; img_data := [7; 9] |} Mock.w0
  = (Returns tt,
     World (<["out/a.png"%string := map Mock.byte_of_Z [1; 2; 7; 9]]> (files Mock.w0))
       (arrays Mock.w0) (trace Mock.w0 ++ [EvWrite "out/a.png"])).
Proof.
  rewrite (Adjust_writes_png (H := Mock.libs nep50) "out" "test/a.bmp").
  - vm_compute. reflexivity.
  - apply Exists_cons_hd. discriminate.
Defined.

Lemma Adjust_output_is_input_witness :
  AdjustGray_Uetsu.OutputPath "test" (path_join "test" (String.append "a" ".png"))
  = path_join "test" (String.append "a" ".png").
Proof.
  apply Adjust_output_is_input.
  - intros Hin. apply list_elem_of_In in Hin. simpl in Hin. unfold slash in Hin.
    intuition discriminate.
  - apply Exists_cons_hd. discriminate.
Defined.

(** ** The outcomes of ConvertYtoSegImg *)

Section MoreDecode.

Lemma painted_canvas (mask : list (list bool)) (h w : nat) :
  length mask = h -> Forall (fun row => length row = w) mask ->
  let out := zip_with (zip_with (fun (b : bool) (px : list Z) => if b then [0; 0; 0] else px))
               mask (replicate h (replicate w (replicate 3 255))) in
  length out = h
  /\ Forall (fun row => length row = w) out
  /\ Forall (Forall (fun o => o = black \/ o = white)) out.
Proof.
  intros Hh Hw out. subst out. split; [|split].
  - rewrite length_zip_with, length_replicate. lia.
  - rewrite Forall_lookup. intros i orow Hi.
    apply lookup_zip_with_Some in Hi as (row & cv & -> & Hrow & Hcv).
    apply lookup_replicate in Hcv as [-> _].
    rewrite Forall_lookup in Hw. rewrite length_zip_with, length_replicate, (Hw _ _ Hrow). lia.
  - rewrite Forall_lookup. intros i orow Hi.
    apply lookup_zip_with_Some in Hi as (row & cv & -> & Hrow & Hcv).
    apply lookup_replicate in Hcv as [-> _].
    rewrite Forall_lookup. intros j o Hj.
    apply lookup_zip_with_Some in Hj as (b & px & -> & Hb & Hpx).
    apply lookup_replicate in Hpx as [-> _].
    destruct b; [by left | by right].
Qed.

(** X14. [ConvertYtoSegImg] has three outcomes and the values of the
    scores decide none of them. On a tensor whose pixels carry at least
    one score, it returns exactly when the tensor has the height and width
    of the canvas and the canvas has three channels, and then the mask has
    that height and width and holds only black and white pixels, whatever
    the scores, NaN included; a tensor of another size gives [IndexError],
    and the right size with another number of channels gives
    [ValueError]. *)
Theorem ConvertYtoSegImg_outcomes (t : tensor) (h w c : nat) :
  Forall (Forall (fun px : list spec_float => px <> [])) t ->
  let sized := length t = h /\ Forall (fun row => length row = w) t in
  match EnsembleSeg.ConvertYtoSegImg t (h, w, c) with
  | Returns out =>
      sized /\ c = 3%nat
      /\ length out = h
      /\ Forall (fun row => length row = w) out
      /\ Forall (Forall (fun o => o = black \/ o = white)) out
  | Raises e =>
      (e = IndexError /\ ~ sized) \/ (e = ValueError /\ sized /\ c <> 3%nat)
  end.
Proof.
  intros Hne sized. unfold EnsembleSeg.ConvertYtoSegImg.
  rewrite (tf_argmax_scan t Hne).
  set (mask := map (map (fun i => Nat.eqb i 1)) (map (map argmax_scan) t)).
  assert (Hiff : (length mask = h /\ Forall (fun row => length row = w) mask) <-> sized).
  { unfold sized, mask. rewrite !List.length_map.
    rewrite !Forall_lookup. split; intros [Hh Hw]; (split; [done|]); intros i row Hi.
    - specialize (Hw i (map (fun i => Nat.eqb i 1) (map argmax_scan row))).
      rewrite !List.length_map in Hw. apply Hw. by rewrite !lookup_map, Hi.
    - rewrite !lookup_map in Hi.
      destruct (t !! i) as [trow|] eqn:Ht; simpl in Hi; [|discriminate].
      injection Hi as <-. rewrite !List.length_map. eauto. }
  destruct (bool_decide_reflect (length mask = h /\ Forall (fun row => length row = w) mask))
    as [Hm|Hm].
  - destruct (bool_decide_reflect (c = 3%nat)) as [->|Hc].
    + split; [by apply Hiff|]. split; [done|].
      destruct Hm as [Hh Hw]. exact (painted_canvas mask h w Hh Hw).
    + right. split; [done|]. split; [by apply Hiff | done].
  - left. split; [done|]. intros Hs. by apply Hm, Hiff.
Qed.

(** X15. A single score per pixel is never taken for class 1: on a
    tensor of the size of the canvas whose pixels carry one score each,
    the mask is white everywhere. *)
Theorem ConvertYtoSegImg_one_class (t : tensor) (h w : nat) :
  length t = h ->
  Forall (fun row => length row = w) t ->
  Forall (Forall (fun px : list spec_float => length px = 1%nat)) t ->
  EnsembleSeg.ConvertYtoSegImg t (h, w, 3%nat) = Returns (replicate h (replicate w white)).
Proof.
  intros Hh Hw H1. unfold EnsembleSeg.ConvertYtoSegImg.
  rewrite (tf_argmax_scan t).
  2:{ eapply Forall_impl; [exact H1|]. intros row Hrow. simpl.
      eapply Forall_impl; [exact Hrow|]. by intros px Hpx ->. }
  assert (Hmask : map (map (fun i => Nat.eqb i 1)) (map (map argmax_scan) t)
                  = replicate h (replicate w false)).
  { subst h. clear -Hw H1. induction t as [|row t IH]; [done|].
    apply Forall_cons in Hw as [Hrow Hw]. apply Forall_cons in H1 as [Hpx H1].
    simpl. rewrite IH by done. f_equal.
    subst w. clear -Hpx. induction row as [|px row IH]; [done|].
    apply Forall_cons in Hpx as [Hp Hpx]. simpl. rewrite IH by done. f_equal.
    destruct px as [|a [|b px]]; simpl in *; [done | | lia].
    unfold argmax_scan. simpl. by destruct (SFltb lowest_float32 a). }
  rewrite Hmask.
  rewrite bool_decide_eq_true_2.
  2:{ split; [by rewrite length_replicate|].
      apply Forall_replicate. by rewrite length_replicate. }
  rewrite bool_decide_eq_true_2 by done. f_equal.
  by rewrite !zip_with_replicate.
Qed.

End MoreDecode.

Lemma ConvertYtoSegImg_one_class_witness :
  EnsembleSeg.ConvertYtoSegImg [[[Mock.tenth 9]; [Mock.tenth 1]]] (1, 2, 3)%nat
  = Returns (replicate 1 (replicate 2 white)).
Proof.
  apply ConvertYtoSegImg_one_class.
  - reflexivity.
  - repeat constructor.
  - repeat constructor.
Defined.

Lemma ConvertYtoSegImg_outcomes_witness :
  match EnsembleSeg.ConvertYtoSegImg Mock.tensorB (2, 2, 2)%nat with
  | Returns out =>
      (length Mock.tensorB = 2%nat /\ Forall (fun row => length row = 2%nat) Mock.tensorB)
      /\ 2%nat = 3%nat
      /\ length out = 2%nat
      /\ Forall (fun row => length row = 2%nat) out
      /\ Forall (Forall (fun o => o = black \/ o = white)) out
  | Raises e =>
      (e = IndexError
       /\ ~ (length Mock.tensorB = 2%nat
             /\ Forall (fun row => length row = 2%nat) Mock.tensorB))
      \/ (e = ValueError
          /\ (length Mock.tensorB = 2%nat
              /\ Forall (fun row => length row = 2%nat) Mock.tensorB)
          /\ 2%nat <> 3%nat)
  end.
Proof.
  apply (ConvertYtoSegImg_outcomes Mock.tensorB 2 2 2).
  repeat constructor; discriminate.
Defined.

(** ** Evaluation *)

Section MoreEvaluation.
Context `{Libs}.

(** The value the model is given for the sample [x]: the quotient by 255
    in the type the promotion rule gives. *)
Lemma scaled_samples (im : Image) :
  fa_data (arr_truediv np_promote (astype_float32 im) (PyFloat (SF_of_Z float64 255)))
  = map (fun x => let dt := np_promote float32 (PyFloat (SF_of_Z float64 255)) in
                  f_div dt (SFcast dt (SF_of_Z float32 x)) (SFcast dt (SF_of_Z float64 255)))
      (img_data im).
Proof. unfold arr_truediv, arr_scalar_op, astype_float32. simpl. by rewrite List.map_map. Qed.

Lemma scaled_checked (dt : dtype) (x : Z) :
  is_uint8 x ->
  let sc := fun x => f_div dt (SFcast dt (SF_of_Z float32 x))
                       (SFcast dt (SF_of_Z float64 255)) in
  is_nan (sc x) = false
  /\ SFleb (S754_zero false) (sc x) = true
  /\ SFleb (sc x) (SF_of_Z dt 1) = true
  /\ (x < 255 -> SFltb (sc x) (sc (x + 1)) = true).
Proof.
  intros Hx sc.
  set (P := fun x => negb (is_nan (sc x)) && SFleb (S754_zero false) (sc x)
                     && SFleb (sc x) (SF_of_Z dt 1)
                     && ((255 <=? x) || SFltb (sc x) (sc (x + 1)))).
  assert (Hall : forallb P (seqZ 0 256) = true)
    by (subst P sc; destruct dt; vm_compute; reflexivity).
  pose proof (uint8_cases P Hall x Hx) as HP. unfold P in HP.
  apply andb_true_iff in HP as [HP H4]. apply andb_true_iff in HP as [HP H3].
  apply andb_true_iff in HP as [H1 H2]. apply negb_true_iff in H1.
  repeat split; try done.
  intros Hlt. apply orb_true_iff in H4 as [H4|H4]; [|done].
  apply Z.leb_le in H4. lia.
Qed.

Lemma scaled_range (dt : dtype) (x : Z) :
  is_uint8 x ->
  let v := f_div dt (SFcast dt (SF_of_Z float32 x)) (SFcast dt (SF_of_Z float64 255)) in
  SFleb (S754_zero false) v = true /\ SFleb v (SF_of_Z dt 1) = true.
Proof. intros Hx v. destruct (scaled_checked dt x Hx) as (_ & H1 & H2 & _). done. Qed.

Lemma scaled_increasing (dt : dtype) (x y : Z) :
  is_uint8 x -> is_uint8 y -> x < y ->
  SFltb (f_div dt (SFcast dt (SF_of_Z float32 x)) (SFcast dt (SF_of_Z float64 255)))
        (f_div dt (SFcast dt (SF_of_Z float32 y)) (SFcast dt (SF_of_Z float64 255))) = true.
Proof.
  intros Hx Hy Hlt.
  set (sc := fun x => f_div dt (SFcast dt (SF_of_Z float32 x))
                        (SFcast dt (SF_of_Z float64 255))).
  change (SFltb (sc x) (sc y) = true).
  assert (Hstep : forall n : nat, x + 1 + Z.of_nat n <= 255 ->
            SFltb (sc x) (sc (x + 1 + Z.of_nat n)) = true).
  { induction n as [|n IH]; intros Hn.
    - rewrite Z.add_0_r. apply (scaled_checked dt x Hx). unfold is_uint8 in *. lia.
    - assert (Hm : is_uint8 (x + 1 + Z.of_nat n)) by (unfold is_uint8 in *; lia).
      destruct (scaled_checked dt (x + 1 + Z.of_nat n) Hm) as (Hn1 & _ & _ & Hs).
      destruct (scaled_checked dt x Hx) as (Hn0 & _).
      assert (Hm' : is_uint8 (x + 1 + Z.of_nat (S n))) by (unfold is_uint8 in *; lia).
      destruct (scaled_checked dt _ Hm') as (Hn2 & _).
      replace (x + 1 + Z.of_nat (S n)) with (x + 1 + Z.of_nat n + 1) in * by lia.
      apply (SFltb_leb_trans _ (sc (x + 1 + Z.of_nat n))); try done.
      + apply SFltb_leb; try done. apply IH. lia.
      + apply Hs. lia. }
  replace y with (x + 1 + Z.of_nat (Z.to_nat (y - x - 1))) by lia.
  apply Hstep. unfold is_uint8 in *. lia.
Qed.

(** X16. What [Evaluation] feeds the model: the resized image divided by
    255 has the shape of the image and one value per sample; every value
    lies between 0 and 1, and a brighter sample gives a strictly larger
    value, under either promotion rule. *)
Theorem Evaluation_input_scaled (im : Image) :
  uint8_image im ->
  let a := arr_truediv np_promote (astype_float32 im) (PyFloat (SF_of_Z float64 255)) in
  fa_shape a = img_shape im
  /\ length (fa_data a) = length (img_data im)
  /\ Forall (fun v => SFleb (S754_zero false) v = true
                      /\ SFleb v (SF_of_Z (fa_dtype a) 1) = true) (fa_data a)
  /\ (forall i j x y u v,
        img_data im !! i = Some x -> img_data im !! j = Some y ->
        fa_data a !! i = Some u -> fa_data a !! j = Some v ->
        x < y -> SFltb u v = true).
Proof.
  intros Hu a. subst a. rewrite scaled_samples.
  unfold uint8_image in Hu. rewrite Forall_lookup in Hu.
  split; [done|]. split; [by rewrite List.length_map|]. split.
  - rewrite Forall_lookup. intros i v Hv. rewrite lookup_map in Hv.
    destruct (img_data im !! i) as [x|] eqn:Hx; [|discriminate].
    injection Hv as <-. apply scaled_range. eauto.
  - intros i j x y u v Hx Hy Hi Hj Hlt.
    rewrite lookup_map, Hx in Hi. rewrite lookup_map, Hy in Hj.
    injection Hi as <-. injection Hj as <-. apply scaled_increasing; eauto.
Qed.

Lemma Evaluation_loop_scores (model : Model) (paths : list string) (ImgSize : nat * nat * nat)
    (ts acc : list tensor) (w : world) :
  Forall2 (scores (files w) model ImgSize) paths ts ->
  EnsembleSeg.Evaluation_loop model paths ImgSize acc w
  = (Returns (acc ++ ts),
     World (files w) (arrays w)
       (trace w ++ flat_map (fun p => [EvPrintPath p; EvRead p; EvPredict]) paths)).
Proof.
  revert ts acc w. induction paths as [|p paths IH]; intros ts acc w Hall.
  - apply Forall2_nil_inv_l in Hall as ->. simpl. rewrite !app_nil_r. by destruct w.
  - apply Forall2_cons_inv_l in Hall as (t & ts' & Hp & Hrest & ->).
    destruct Hp as (data & im & im1 & Hf & Hd & Hr & Hm).
    destruct ImgSize as [[h wd] c]. simpl in Hr.
    simpl. unfold mbind, M_bind, bind, log; simpl.
    rewrite (ReadImg_color_run p (World (files w) (arrays w) (trace w ++ [EvPrintPath p]))
               data Hf).
    unfold lift, logged; simpl. rewrite Hd, Hr. simpl. simpl in Hm. rewrite Hm.
    rewrite (IH ts'); [|done]. simpl. by rewrite <- !app_assoc.
Qed.

(** X17. When the model loads and every listed file can be read, decoded,
    resized and scored, [Evaluation] returns one tensor per path, in the
    order of the paths; it has logged the loading and then, for each path
    in turn, the printing of the path, the reading and the prediction,
    and it has changed no file. *)
Theorem Evaluation_scores (ModelPath : string) (paths : list string)
    (ImgSize : nat * nat * nat) (model : Model) (ts : list tensor) (w : world) :
  load_model (files w) ModelPath = Returns model ->
  Forall2 (scores (files w) model ImgSize) paths ts ->
  EnsembleSeg.Evaluation ModelPath paths ImgSize w
  = (Returns ts,
     World (files w) (arrays w)
       (trace w ++ [EvLoadModel ModelPath]
        ++ flat_map (fun p => [EvPrintPath p; EvRead p; EvPredict]) paths)).
Proof.
  intros Hload Hall.
  unfold EnsembleSeg.Evaluation, mbind, M_bind, bind, log, lift. simpl.
  rewrite Hload.
  rewrite (Evaluation_loop_scores model paths ImgSize ts []); [|done]. simpl.
  by rewrite <- app_assoc.
Qed.

(** X18. When the model cannot be loaded, [RunInf] raises the error of
    [load_model] at once: the directory has been listed, but no image has
    been read and no file written. *)
Theorem RunInf_model_error (TestImgDir ImageExtension ModelPath OutputDir : string)
    (ImgSize : nat * nat * nat) (e : exn) (w : world) :
  load_model (files w) ModelPath = Raises e ->
  EnsembleSeg.RunInf TestImgDir ImageExtension ModelPath ImgSize OutputDir w
  = (Raises e, logged (EvLoadModel ModelPath) w).
Proof.
  intros Hload.
  unfold EnsembleSeg.RunInf, EnsembleSeg.Evaluation, mbind, M_bind, bind, glob, log, lift.
  simpl. by rewrite Hload.
Qed.

End MoreEvaluation.

Lemma Evaluation_input_scaled_witness :
  let a := arr_truediv (np_promote (Libs := Mock.libs nep50)) (astype_float32 Mock.im3)
             (PyFloat (SF_of_Z float64 255)) in
  fa_shape a = img_shape Mock.im3
  /\ length (fa_data a) = length (img_data Mock.im3)
  /\ Forall (fun v => SFleb (S754_zero false) v = true
                      /\ SFleb v (SF_of_Z (fa_dtype a) 1) = true) (fa_data a)
  /\ (forall i j x y u v,
        img_data Mock.im3 !! i = Some x -> img_data Mock.im3 !! j = Some y ->
        fa_data a !! i = Some u -> fa_data a !! j = Some v ->
        x < y -> SFltb u v = true).
Proof.
  apply (Evaluation_input_scaled (H := Mock.libs nep50) Mock.im3).
  repeat constructor; unfold is_uint8; lia.
Defined.

Lemma RunInf_model_error_witness :
  EnsembleSeg.RunInf (H := Mock.libs nep50) "test" ".png" "absent.h5" (2, 2, 3)%nat "out"
    Mock.w0
  = (Raises OSError, logged (EvLoadModel "absent.h5") Mock.w0).
Proof.
  apply (RunInf_model_error (H := Mock.libs nep50)). vm_compute. reflexivity.
Defined.

Lemma Evaluation_scores_witness :
  exists ts,
    EnsembleSeg.Evaluation (H := Mock.libs nep50) "model.h5" ["test/b.png"%string]
      (2, 2, 3)%nat Mock.w0
    = (Returns ts,
       World (files Mock.w0) (arrays Mock.w0)
         (trace Mock.w0 ++ [EvLoadModel "model.h5"]
          ++ flat_map (fun p => [EvPrintPath p; EvRead p; EvPredict])
               ["test/b.png"%string])).
Proof.
  eexists.
  apply (Evaluation_scores (H := Mock.libs nep50) "model.h5" ["test/b.png"%string]
           (2, 2, 3)%nat tt).
  - vm_compute. reflexivity.
  - apply List.Forall2_cons; [|apply List.Forall2_nil].
    eexists _, _, _. split. { vm_compute. reflexivity. }
    split. { vm_compute. reflexivity. }
    split. { vm_compute. reflexivity. }
    vm_compute. reflexivity.
Defined.

(** ** The order of the listing *)

Section ListingOrder.

Lemma ascii_compare_trans (a b c : ascii) :
  Ascii.compare a b <> Gt -> Ascii.compare b c <> Gt ->
  Ascii.compare a c <> Gt
  /\ (Ascii.compare a c = Eq -> Ascii.compare a b = Eq /\ Ascii.compare b c = Eq).
Proof.
  unfold Ascii.compare.
  destruct (N.compare_spec (N_of_ascii a) (N_of_ascii b)),
           (N.compare_spec (N_of_ascii b) (N_of_ascii c)),
           (N.compare_spec (N_of_ascii a) (N_of_ascii c)); intros; split; intros;
    try done; try lia.
Qed.

Lemma string_compare_trans (s1 s2 s3 : string) :
  String.compare s1 s2 <> Gt -> String.compare s2 s3 <> Gt -> String.compare s1 s3 <> Gt.
Proof.
  revert s2 s3. induction s1 as [|c1 s1 IH]; intros [|c2 s2] [|c3 s3]; simpl; try done.
  intros H12 H23.
  destruct (Ascii.compare c1 c2) eqn:E12; [| |done];
    destruct (Ascii.compare c2 c3) eqn:E23; try done;
    destruct (ascii_compare_trans c1 c2 c3) as [Hle Heq];
    rewrite ?E12, ?E23; try done;
    destruct (Ascii.compare c1 c3) eqn:E13; try done;
    try (destruct (Heq eq_refl) as [? ?]; congruence).
  by apply (IH s2 s3).
Qed.

Global Instance string_le_trans : Transitive string_le.
Proof.
  intros a b c. unfold string_le, String.leb. intros Hab Hbc.
  pose proof (string_compare_trans a b c) as Ht.
  destruct (String.compare a b); try done;
    destruct (String.compare b c); try done;
    destruct (String.compare a c); try done; by destruct Ht.
Qed.

Global Instance string_le_antisym : AntiSymm (=) string_le.
Proof. intros a b. apply String.leb_antisym. Qed.

Global Instance string_le_total : Total string_le.
Proof. intros a b. apply String.leb_total. Qed.

(** Sorting forgets the order of what it is given. *)
Lemma merge_sort_listing (l1 l2 : list string) :
  l1 ≡ₚ l2 -> merge_sort string_le l1 = merge_sort string_le l2.
Proof.
  intros Hp. apply (Sorted_unique string_le).
  - apply Sorted_merge_sort, _.
  - apply Sorted_merge_sort, _.
  - by rewrite !merge_sort_Permutation.
Qed.

(** X19. [RunInf] does not depend on the order in which [glob] lists the
    directory: with two listings that give the same files in different
    orders, the run has the same outcome and leaves the same world,
    because the list is sorted before it is used. *)
Theorem RunInf_listing_order (H : Libs)
    (g1 g2 : gmap string (list Byte.byte) -> string -> list string)
    (TestImgDir ImageExtension ModelPath OutputDir : string)
    (ImgSize : nat * nat * nat) (w : world) :
  (forall fs pattern, g1 fs pattern ≡ₚ g2 fs pattern) ->
  EnsembleSeg.RunInf (H := with_glob H g1) TestImgDir ImageExtension ModelPath ImgSize
    OutputDir w
  = EnsembleSeg.RunInf (H := with_glob H g2) TestImgDir ImageExtension ModelPath ImgSize
      OutputDir w.
Proof.
  intros Hg.
  unfold EnsembleSeg.RunInf, mbind, M_bind, bind, glob. simpl.
  rewrite (merge_sort_listing _ _ (Hg (files w)
             (path_join TestImgDir (String "*" ImageExtension)))).
  reflexivity.
Qed.

End ListingOrder.

Lemma RunInf_listing_order_witness :
  EnsembleSeg.RunInf (H := with_glob (Mock.libs nep50) Mock.list_files) "test" ".png"
    "model.h5" (2, 2, 3)%nat "out" Mock.w0
  = EnsembleSeg.RunInf
      (H := with_glob (Mock.libs nep50) (fun fs pattern => reverse (Mock.list_files fs pattern)))
      "test" ".png" "model.h5" (2, 2, 3)%nat "out" Mock.w0.
Proof.
  apply (RunInf_listing_order (Mock.libs nep50) Mock.list_files
           (fun fs pattern => reverse (Mock.list_files fs pattern))).
  intros fs pattern. symmetry. apply reverse_Permutation.
Defined.

(** ** The windows *)

Section Windows.
Context `{Libs} `{Builtins}.

Lemma truthy_true (s : string) : truthy s = true <-> s <> EmptyString.
Proof. destruct s; simpl; split; done. Qed.

(** X20. [OnRun] of the adjustment window. With an empty field it shows
    the request to fill every field and touches nothing, the threshold
    not even being parsed; with every field filled and a threshold that
    [int] rejects it shows that error and touches nothing; otherwise it
    leaves the world [Adjust] leaves, and announces completion exactly
    when [Adjust] returned. Completion is never announced in another
    way. *)
Theorem AdjustGray_OnRun_dialog (en : AdjustGray_Uetsu_GUI.Entries) (w : world) :
  let filled :=
    AdjustGray_Uetsu_GUI.EntryTrainImgDir en <> EmptyString
    /\ AdjustGray_Uetsu_GUI.EntryTestImgDir en <> EmptyString
    /\ AdjustGray_Uetsu_GUI.EntryExt en <> EmptyString
    /\ AdjustGray_Uetsu_GUI.EntryThreshold en <> EmptyString
    /\ AdjustGray_Uetsu_GUI.EntryOutputDir en <> EmptyString in
  let run := fun t =>
    AdjustGray_Uetsu.Adjust (AdjustGray_Uetsu_GUI.EntryTrainImgDir en)
      (AdjustGray_Uetsu_GUI.EntryTestImgDir en) (AdjustGray_Uetsu_GUI.EntryExt en)
      (AdjustGray_Uetsu_GUI.EntryOutputDir en) t w in
  let r := AdjustGray_Uetsu_GUI.OnRun en w in
  (~ filled -> r = (showerror_fill, w))
  /\ (forall e, filled -> py_int (AdjustGray_Uetsu_GUI.EntryThreshold en) = Raises e ->
        r = (showerror_exn e, w))
  /\ (forall t, filled -> py_int (AdjustGray_Uetsu_GUI.EntryThreshold en) = Returns t ->
        r.2 = (run t).2 /\ (r.1 = showinfo_done <-> (run t).1 = Returns tt))
  /\ (r.1 = showinfo_done ->
        filled /\ exists t, py_int (AdjustGray_Uetsu_GUI.EntryThreshold en) = Returns t
                            /\ (run t).1 = Returns tt).
Proof.
  intros filled run r. subst r. unfold AdjustGray_Uetsu_GUI.OnRun. fold (run).
  assert (Hf : truthy (AdjustGray_Uetsu_GUI.EntryTrainImgDir en)
               && truthy (AdjustGray_Uetsu_GUI.EntryTestImgDir en)
               && truthy (AdjustGray_Uetsu_GUI.EntryExt en)
               && truthy (AdjustGray_Uetsu_GUI.EntryThreshold en)
               && truthy (AdjustGray_Uetsu_GUI.EntryOutputDir en) = true <-> filled).
  { unfold filled. rewrite !andb_true_iff, !truthy_true. tauto. }
  destruct (truthy _ && truthy _ && truthy _ && truthy _ && truthy _) eqn:Hb; simpl.
  - assert (Hfilled : filled) by (by apply Hf).
    split; [by intros Hn|].
    destruct (py_int (AdjustGray_Uetsu_GUI.EntryThreshold en)) as [t|e] eqn:Hint.
    + split; [done|]. split.
      * intros t' _ [= <-]. unfold run.
        destruct (AdjustGray_Uetsu.Adjust _ _ _ _ t w) as [[[]|e] w1]; simpl; split; done.
      * intros Hdone. split; [done|]. exists t. split; [done|]. unfold run.
        destruct (AdjustGray_Uetsu.Adjust _ _ _ _ t w) as [[[]|e] w1]; simpl in *; done.
    + split; [by intros e' _ [= <-]|]. split; [done|]. done.
  - assert (Hn : ~ filled) by (intros Hfilled; apply Hf in Hfilled; done).
    split; [done|]. split; [by intros e Hfilled|]. split; [by intros t Hfilled | done].
Qed.

(** X21. [OnRun] of the segmentation window, with its fixed image size
    of 224 by 224 in three channels. With an empty field it shows the
    request to fill every field and touches nothing; otherwise it leaves
    the world [RunInf] leaves, shows the error [RunInf] raised, and
    announces completion exactly when [RunInf] returned. *)
Theorem EnsembleSeg_OnRun_dialog (en : EnsembleSeg_GUI.Entries) (w : world) :
  let filled :=
    EnsembleSeg_GUI.EntryImgDir en <> EmptyString
    /\ EnsembleSeg_GUI.EntryExt en <> EmptyString
    /\ EnsembleSeg_GUI.EntryModel en <> EmptyString
    /\ EnsembleSeg_GUI.EntryOutputDir en <> EmptyString in
  let run :=
    EnsembleSeg.RunInf (EnsembleSeg_GUI.EntryImgDir en) (EnsembleSeg_GUI.EntryExt en)
      (EnsembleSeg_GUI.EntryModel en) (224, 224, 3)%nat (EnsembleSeg_GUI.EntryOutputDir en) w in
  let r := EnsembleSeg_GUI.OnRun en w in
  (~ filled -> r = (showerror_fill, w))
  /\ (filled -> r.2 = run.2
                /\ (r.1 = showinfo_done <-> run.1 = Returns tt)
                /\ (forall e, r.1 = showerror_exn e <-> run.1 = Raises e))
  /\ (r.1 = showinfo_done -> filled /\ run.1 = Returns tt).
Proof.
  intros filled run r. subst r. unfold EnsembleSeg_GUI.OnRun. fold run.
  assert (Hf : truthy (EnsembleSeg_GUI.EntryImgDir en)
               && truthy (EnsembleSeg_GUI.EntryExt en)
               && truthy (EnsembleSeg_GUI.EntryModel en)
               && truthy (EnsembleSeg_GUI.EntryOutputDir en) = true <-> filled).
  { unfold filled. rewrite !andb_true_iff, !truthy_true. tauto. }
  destruct (truthy _ && truthy _ && truthy _ && truthy _) eqn:Hb; simpl.
  - assert (Hfilled : filled) by (by apply Hf).
    split; [by intros Hn|].
    destruct run as [[[]|e] w1]; simpl.
    + split; [|done]. intros _. split; [done|]. split; [done|]. intros e; split; done.
    + split; [|done]. intros _. split; [done|]. split; [done|].
      intros e'; split; intros [= ->]; done.
  - assert (Hn : ~ filled) by (intros Hfilled; apply Hf in Hfilled; done).
    split; [done|]. split; [by intros Hfilled | done].
Qed.

End Windows.

(** ** A run of Adjust that succeeds *)

Section AdjustReturns.
Context `{Libs}.

(** One turn of the loop of [Adjust] on a file that can be measured, with
    an output file that can be opened and an encoder that gives bytes
    for the result. *)
Lemma Adjust_body_returns (TrainMean TrainStd : spec_float) (OutputDir : string)
    (Threshold : Z) (p : string) (w : world) :
  (exists ms, measures (files w) p ms) ->
  open_wb_ok (files w) (AdjustGray_Uetsu.OutputPath OutputDir p) = true ->
  (forall data im0 im,
     files w !! p = Some data -> cv2_imdecode data IMREAD_GRAYSCALE = Returns (Some im0) ->
     img_shape im = img_shape im0 ->
     exists ok b,
       cv2_imencode (splitext (AdjustGray_Uetsu.OutputPath OutputDir p)).2 im
       = Returns (ok, b) /\ b <> []) ->
  exists b arrs,
    AdjustGray_Uetsu.Adjust_body TrainMean TrainStd OutputDir Threshold p w
    = (Returns tt,
       World (<[AdjustGray_Uetsu.OutputPath OutputDir p := b]> (files w)) arrs
         (trace w ++ [EvRead p; EvWrite (AdjustGray_Uetsu.OutputPath OutputDir p)])).
Proof.
  intros (ms & data & im & Hf & Hd & Hm) Hopen Henc.
  destruct (Adjust_body_run TrainMean TrainStd OutputDir Threshold p w)
    as [Hret|(e & fs' & arrs & tr & Hr & _)]; [done|].
  exfalso. revert Hr.
  unfold AdjustGray_Uetsu.Adjust_body, mbind, M_bind, bind.
  rewrite CalcMeanStd_run, Hf, Hd, Hm. destruct ms as [Mean Std].
  unfold alloc at 1. simpl.
  match goal with
  | |- context [AdjustGray_Uetsu.DrawBlackBasedThreshold ?r ?t ?w1] =>
      rewrite (DrawBlackBasedThreshold_run w1 r t _ (lookup_insert_eq _ _ _))
  end.
  unfold deref; simpl. rewrite lookup_insert_eq.
  rewrite WriteImg_gray_run. cbn [files arrays trace]. rewrite Hopen.
  match goal with
  | |- context [cv2_imencode ?ext ?im'] =>
      destruct (Henc data im im' Hf Hd eq_refl) as (ok & b & -> & Hb)
  end.
  by destruct b.
Qed.

Lemma Adjust_loop_returns (TrainMean TrainStd : spec_float) (OutputDir : string)
    (Threshold : Z) (l : list string) (w : world) :
  (forall p, p ∈ l -> exists ms, measures (files w) p ms) ->
  (forall p q, p ∈ l -> q ∈ l -> AdjustGray_Uetsu.OutputPath OutputDir p <> q) ->
  (forall p fs, p ∈ l -> open_wb_ok fs (AdjustGray_Uetsu.OutputPath OutputDir p) = true) ->
  (forall p data im0 im, p ∈ l ->
     files w !! p = Some data -> cv2_imdecode data IMREAD_GRAYSCALE = Returns (Some im0) ->
     img_shape im = img_shape im0 ->
     exists ok b,
       cv2_imencode (splitext (AdjustGray_Uetsu.OutputPath OutputDir p)).2 im
       = Returns (ok, b) /\ b <> []) ->
  exists w',
    for_each l (AdjustGray_Uetsu.Adjust_body TrainMean TrainStd OutputDir Threshold) w
    = (Returns tt, w')
    /\ trace w' = trace w
         ++ flat_map (fun p => [EvRead p; EvWrite (AdjustGray_Uetsu.OutputPath OutputDir p)]) l.
Proof.
  revert w. induction l as [|p l IH]; intros w Hm Hout Hopen Henc; simpl.
  - exists w. by rewrite app_nil_r.
  - unfold mbind, M_bind, bind.
    destruct (Adjust_body_returns TrainMean TrainStd OutputDir Threshold p w)
      as (b & arrs & ->).
    { apply Hm, list_elem_of_here. }
    { apply Hopen, list_elem_of_here. }
    { intros data im0 im. apply Henc, list_elem_of_here. }
    destruct (IH (World (<[AdjustGray_Uetsu.OutputPath OutputDir p := b]> (files w)) arrs
                    (trace w ++ [EvRead p; EvWrite (AdjustGray_Uetsu.OutputPath OutputDir p)])))
      as (w' & Hrun & Htr).
    + intros q Hq. destruct (Hm q) as (ms & data & im & Hf & Hd & Hs);
        [by apply list_elem_of_further|].
      exists ms, data, im. simpl. rewrite lookup_insert_ne; [done|].
      apply Hout; [apply list_elem_of_here | by apply list_elem_of_further].
    + intros q q' Hq Hq'. apply Hout; by apply list_elem_of_further.
    + intros q fs Hq. apply Hopen. by apply list_elem_of_further.
    + intros q data im0 im Hq Hf. simpl in Hf. rewrite lookup_insert_ne in Hf.
      * apply Henc; [by apply list_elem_of_further | done].
      * apply Hout; [apply list_elem_of_here | by apply list_elem_of_further].
    + exists w'. split; [done|]. rewrite Htr. simpl. by rewrite <- app_assoc.
Qed.

(** X22. A run of [Adjust] succeeds when every training image and every
    test image of the listings can be read, decoded and measured, no
    output name is the path of a test image, every output name can be
    opened for writing, and the encoder gives bytes, under each output
    name, for the images of the shape of the test image. It then prints
    the mean of the means and the mean of the deviations of the training
    images, and goes through all the test images. *)
Theorem Adjust_returns (TrainImgDir TestImgDir ImageExtension OutputDir : string)
    (Threshold : Z) (stats : list (spec_float * spec_float)) (w : world) :
  let train := glob_glob (files w) (path_join TrainImgDir (String "*" ImageExtension)) in
  let test := glob_glob (files w) (path_join TestImgDir (String "*" ImageExtension)) in
  Forall2 (measures (files w)) train stats ->
  (forall p, p ∈ test -> exists ms, measures (files w) p ms) ->
  (forall p q, p ∈ test -> q ∈ test -> AdjustGray_Uetsu.OutputPath OutputDir p <> q) ->
  (forall p fs, p ∈ test ->
     open_wb_ok fs (AdjustGray_Uetsu.OutputPath OutputDir p) = true) ->
  (forall p data im0 im, p ∈ test ->
     files w !! p = Some data -> cv2_imdecode data IMREAD_GRAYSCALE = Returns (Some im0) ->
     img_shape im = img_shape im0 ->
     exists ok b,
       cv2_imencode (splitext (AdjustGray_Uetsu.OutputPath OutputDir p)).2 im
       = Returns (ok, b) /\ b <> []) ->
  exists w',
    AdjustGray_Uetsu.Adjust TrainImgDir TestImgDir ImageExtension OutputDir Threshold w
    = (Returns tt, w')
    /\ trace w' = trace w
         ++ map EvRead train
         ++ [EvPrintStats (np_mean (map fst stats)) (np_mean (map snd stats))]
         ++ flat_map (fun p => [EvRead p; EvWrite (AdjustGray_Uetsu.OutputPath OutputDir p)])
              test.
Proof.
  intros train test Htrain Htest Hout Hopen Henc.
  unfold AdjustGray_Uetsu.Adjust, AdjustGray_Uetsu.GetImgMeanStd, mbind, M_bind, bind, glob.
  fold train. rewrite (GetImgMeanStd_loop_measures train stats [] [] w Htrain).
  unfold log. simpl. fold test.
  destruct (Adjust_loop_returns (np_mean (map fst stats)) (np_mean (map snd stats))
              OutputDir Threshold test
              (World (files w) (arrays w)
                 ((trace w ++ map EvRead train)
                  ++ [EvPrintStats (np_mean (map fst stats)) (np_mean (map snd stats))])))
    as (w' & Hrun & Htr); [done..|].
  exists w'. split; [done|]. rewrite Htr. simpl. by rewrite <- !app_assoc.
Qed.

End AdjustReturns.

Lemma Adjust_returns_witness :
  exists w',
    AdjustGray_Uetsu.Adjust (H := Mock.libs nep50) "train" "test" ".png" "out" 0 Mock.w0
    = (Returns tt, w')
    /\ trace w'
       = [EvRead "train/t1.png"; EvRead "train/t2.png";
          EvPrintStats (SF_of_Z float64 150) (S754_zero false);
          EvRead "test/a.png"; EvWrite "out/a.png";
          EvRead "test/b.png"; EvWrite "out/b.png"].
Proof.
  assert (Htest : Mock.list_files Mock.fs0 (path_join "test" "*.png")
                  = ["test/a.png"; "test/b.png"]%string) by (vm_compute; reflexivity).
  assert (Htrain : Mock.list_files Mock.fs0 (path_join "train" "*.png")
                   = ["train/t1.png"; "train/t2.png"]%string) by (vm_compute; reflexivity).
  destruct (Adjust_returns (H := Mock.libs nep50) "train" "test" ".png" "out" 0
              [(SF_of_Z float64 100, S754_zero false); (SF_of_Z float64 200, S754_zero false)]
              Mock.w0) as (w' & Hrun & Htr).
  - change (Forall2 (measures (H := Mock.libs nep50) Mock.fs0)
              (Mock.list_files Mock.fs0 (path_join "train" "*.png"))
              [(SF_of_Z float64 100, S754_zero false);
               (SF_of_Z float64 200, S754_zero false)]).
    rewrite Htrain.
    apply List.Forall2_cons; [|apply List.Forall2_cons; [|apply List.Forall2_nil]].
    + eexists _, _. split. { vm_compute. reflexivity. }
      split. { vm_compute. reflexivity. } vm_compute. reflexivity.
    + eexists _, _. split. { vm_compute. reflexivity. }
      split. { vm_compute. reflexivity. } vm_compute. reflexivity.
  - intros p Hp. change (p ∈ Mock.list_files Mock.fs0 (path_join "test" "*.png")) in Hp.
    rewrite Htest in Hp. apply list_elem_of_In in Hp. destruct Hp as [<-|[<-|[]]].
    + eexists _, _, _. split. { vm_compute. reflexivity. }
      split. { vm_compute. reflexivity. } vm_compute. reflexivity.
    + eexists _, _, _. split. { vm_compute. reflexivity. }
      split. { vm_compute. reflexivity. } vm_compute. reflexivity.
  - intros p q Hp Hq.
    change (p ∈ Mock.list_files Mock.fs0 (path_join "test" "*.png")) in Hp.
    change (q ∈ Mock.list_files Mock.fs0 (path_join "test" "*.png")) in Hq.
    rewrite Htest in Hp, Hq. apply list_elem_of_In in Hp, Hq.
    destruct Hp as [<-|[<-|[]]], Hq as [<-|[<-|[]]]; vm_compute; discriminate.
  - intros p fs Hp.
    change (p ∈ Mock.list_files Mock.fs0 (path_join "test" "*.png")) in Hp.
    rewrite Htest in Hp. apply list_elem_of_In in Hp.
    destruct Hp as [<-|[<-|[]]]; vm_compute; reflexivity.
  - intros p data im0 im Hp Hf Hd Hshape.
    change (p ∈ Mock.list_files Mock.fs0 (path_join "test" "*.png")) in Hp.
    rewrite Htest in Hp. apply list_elem_of_In in Hp.
    destruct Hp as [<-|[<-|[]]]; vm_compute in Hf; injection Hf as <-;
      vm_compute in Hd; injection Hd as <-;
      change (exists ok b, Mock.imencode ".png" im = Returns (ok, b) /\ b <> []);
      unfold Mock.imencode, Mock.encode_raster; rewrite Hshape; simpl;
      eexists _, _; (split; [reflexivity | discriminate]).
  - exists w'. split; [exact Hrun|]. rewrite Htr. vm_compute. reflexivity.
Defined.

(** ** Files written, read back, and missing *)

Section MoreCodec.
Context `{Libs}.

(** X23. Reading back what [WriteImg] wrote. When [cv2.imencode] gives
    bytes and the file can be opened, [WriteImg] stores the bytes under
    the path, the flag that came with them playing no part, and
    [ReadImg] on the same path then returns what [cv2.imdecode] makes of
    these bytes, in grey in the adjustment script and in colour in the
    segmentation script. When [cv2.imencode] gives no bytes, nothing is
    read back: the file is left empty and [AttributeError] is raised. *)
Theorem WriteImg_then_ReadImg (Path : string) (ImgData : Image) (ok : bool)
    (b : list Byte.byte) (w : world) :
  cv2_imencode (splitext Path).2 ImgData = Returns (ok, b) ->
  open_wb_ok (files w) Path = true ->
  (b <> [] ->
   (AdjustGray_Uetsu.WriteImg Path ImgData;; AdjustGray_Uetsu.ReadImg Path) w
   = (cv2_imdecode b IMREAD_GRAYSCALE,
      World (<[Path := b]> (files w)) (arrays w) (trace w ++ [EvWrite Path; EvRead Path]))
   /\ (EnsembleSeg.WriteImg Path ImgData;; EnsembleSeg.ReadImg Path) w
      = (cv2_imdecode b IMREAD_COLOR,
         World (<[Path := b]> (files w)) (arrays w)
           (trace w ++ [EvWrite Path; EvRead Path])))
  /\ (b = [] ->
      (AdjustGray_Uetsu.WriteImg Path ImgData;; AdjustGray_Uetsu.ReadImg Path) w
      = (Raises AttributeError, World (<[Path := []]> (files w)) (arrays w) (trace w))
      /\ (EnsembleSeg.WriteImg Path ImgData;; EnsembleSeg.ReadImg Path) w
         = (Raises AttributeError, World (<[Path := []]> (files w)) (arrays w) (trace w))).
Proof.
  intros Henc Hopen. unfold mbind, M_bind, bind.
  rewrite WriteImg_gray_run, WriteImg_color_run, Henc, Hopen. split.
  - intros Hb. destruct b as [|x b]; [done|].
    rewrite (ReadImg_gray_run Path _ (x :: b)) by (simpl; apply lookup_insert_eq).
    rewrite (ReadImg_color_run Path _ (x :: b)) by (simpl; apply lookup_insert_eq).
    unfold logged; simpl. by rewrite <- !app_assoc.
  - intros ->. done.
Qed.

(** X24. A path that holds no file: [ReadImg] of either script raises
    [OSError], and so do [CalcMeanStd] and the turns of the loops of
    [Adjust] and [RunInf] on that path; the world is left as it was,
    nothing being logged or written. *)
Theorem missing_file (Path : string) (w : world) :
  files w !! Path = None ->
  AdjustGray_Uetsu.ReadImg Path w = (Raises OSError, w)
  /\ EnsembleSeg.ReadImg Path w = (Raises OSError, w)
  /\ AdjustGray_Uetsu.CalcMeanStd Path w = (Raises OSError, w)
  /\ (forall TrainMean TrainStd OutputDir Threshold,
        AdjustGray_Uetsu.Adjust_body TrainMean TrainStd OutputDir Threshold Path w
        = (Raises OSError, w))
  /\ (forall ImgSize OutputDir Likelihood,
        EnsembleSeg.RunInf_body ImgSize OutputDir (Path, Likelihood) w = (Raises OSError, w)).
Proof.
  intros Hf.
  assert (Hg : AdjustGray_Uetsu.ReadImg Path w = (Raises OSError, w)).
  { unfold AdjustGray_Uetsu.ReadImg, mbind, M_bind, bind, read_file. by rewrite Hf. }
  assert (Hc : EnsembleSeg.ReadImg Path w = (Raises OSError, w)).
  { unfold EnsembleSeg.ReadImg, mbind, M_bind, bind, read_file. by rewrite Hf. }
  assert (Hm : AdjustGray_Uetsu.CalcMeanStd Path w = (Raises OSError, w)).
  { by rewrite CalcMeanStd_run, Hf. }
  repeat split; try done.
  - intros. unfold AdjustGray_Uetsu.Adjust_body, mbind, M_bind, bind. by rewrite Hm.
  - intros. unfold EnsembleSeg.RunInf_body, mbind, M_bind, bind. by rewrite Hc.
Qed.

End MoreCodec.

Lemma WriteImg_then_ReadImg_witness :
  ((AdjustGray_Uetsu.WriteImg (H := Mock.libs nep50) "out/x.png"
      {| img_shape := [1%nat; 2%nat]; img_data := [7; 9] |};;
    AdjustGray_Uetsu.ReadImg (H := Mock.libs nep50) "out/x.png") Mock.w0
   = (Returns (Some {| img_shape := [1%nat; 2%nat]; img_data := [7; 9] |}),
      World (<["out/x.png"%string := map Mock.byte_of_Z [1; 2; 7; 9]]> (files Mock.w0))
        (arrays Mock.w0) (trace Mock.w0 ++ [EvWrite "out/x.png"; EvRead "out/x.png"])))
  /\ ((EnsembleSeg.WriteImg (H := Mock.libs nep50) "out/wide_Seg.jpg" Mock.wide;;
       EnsembleSeg.ReadImg (H := Mock.libs nep50) "out/wide_Seg.jpg") Mock.w1
      = (Raises AttributeError,
         World (<["out/wide_Seg.jpg"%string := []]> (files Mock.w1)) (arrays Mock.w1)
           (trace Mock.w1))).
Proof.
  split.
  - destruct (WriteImg_then_ReadImg (H := Mock.libs nep50) "out/x.png"
                {| img_shape := [1%nat; 2%nat]; img_data := [7; 9] |} true
                (map Mock.byte_of_Z [1; 2; 7; 9]) Mock.w0
                ltac:(vm_compute; reflexivity) ltac:(vm_compute; reflexivity))
      as [Hbytes _].
    destruct (Hbytes ltac:(discriminate)) as [Hgray _].
    rewrite Hgray. f_equal.
  - destruct (WriteImg_then_ReadImg (H := Mock.libs nep50) "out/wide_Seg.jpg" Mock.wide
                false [] Mock.w1
                ltac:(vm_compute; reflexivity) ltac:(vm_compute; reflexivity))
      as [_ Hnone].
    exact (proj2 (Hnone eq_refl)).
Defined.

Lemma missing_file_witness :
  AdjustGray_Uetsu.ReadImg (H := Mock.libs nep50) "test/none.png" Mock.w0
  = (Raises OSError, Mock.w0)
  /\ EnsembleSeg.ReadImg (H := Mock.libs nep50) "test/none.png" Mock.w0
     = (Raises OSError, Mock.w0)
  /\ AdjustGray_Uetsu.CalcMeanStd (H := Mock.libs nep50) "test/none.png" Mock.w0
     = (Raises OSError, Mock.w0)
  /\ (forall TrainMean TrainStd OutputDir Threshold,
        AdjustGray_Uetsu.Adjust_body (H := Mock.libs nep50) TrainMean TrainStd OutputDir
          Threshold "test/none.png" Mock.w0
        = (Raises OSError, Mock.w0))
  /\ (forall ImgSize OutputDir Likelihood,
        EnsembleSeg.RunInf_body (H := Mock.libs nep50) ImgSize OutputDir
          ("test/none.png"%string, Likelihood) Mock.w0
        = (Raises OSError, Mock.w0)).
Proof.
  apply (missing_file (H := Mock.libs nep50)). vm_compute. reflexivity.
Defined.
